(** * Round-based tool-calling loop: stream normalizer, round executor, action loop

    A shallow embedding of [src/services/llm/claude-provider.ts]
    ([ClaudeProvider.generateStream], [ClaudeProvider.processResponse]) and of
    [src/models/action.ts] ([WriteContextTool], [createReturnTool],
    [ActionImpl]), with the properties the specification states about them.

    Conventions.
    - JavaScript values are the inductive [Value]; numbers are integers.
    - A JavaScript [Map] is an insertion-ordered association list ([JSMap]).
    - A call that may throw returns a [Completion]; code that also reads and
      writes the execution context is an [Effect].
    - The model vendor, [JSON.parse], [JSON.stringify] and the time a tool
      takes are parameters: every theorem holds for all of them.
    - An [async] tool call is a unit in a pool ([World]); scheduler turns
      ([turn]) resolve the units whose wait is over.
    - [console.log], [console.warn] and [console.error] are left out. *)

From Stdlib Require Import List String Ascii ZArith Bool Lia Arith.
From Stdlib Require Import DecimalString.
Import ListNotations.
Open Scope string_scope.
Open Scope list_scope.

Set Implicit Arguments.
Set Warnings "-register-all".

(** ** JavaScript values *)

Inductive Value : Type :=
| VUndefined
| VNull
| VBool (b : bool)
| VNumber (n : Z)
| VString (s : string)
| VArray (elems : list Value)
| VObject (fields : list (string * Value)).

(** What a [throw] carries: an [Error] instance with its [message], or any
    other value. *)
Inductive Thrown : Type :=
| ErrorObject (message : string)
| NonError (v : Value).

Inductive Completion (A : Type) : Type :=
| Normal (a : A)
| Throw (e : Thrown).
Arguments Normal {A} a.
Arguments Throw {A} e.

(** JavaScript truthiness ([if (v)], [a && b], [a || b]). *)
Definition truthy (v : Value) : bool :=
  match v with
  | VUndefined | VNull => false
  | VBool b => b
  | VNumber n => negb (n =? 0)%Z
  | VString s => negb (s =? "")
  | VArray _ | VObject _ => true
  end.

(** The equality a [Map] uses on its keys.  Objects and arrays are compared
    by identity; every object the model builds (by [JSON.parse] or by a
    literal) is fresh, so two of them are never the same key. *)
Definition SameValueZero (a b : Value) : bool :=
  match a, b with
  | VUndefined, VUndefined => true
  | VNull, VNull => true
  | VBool x, VBool y => Bool.eqb x y
  | VNumber x, VNumber y => (x =? y)%Z
  | VString x, VString y => (x =? y)
  | _, _ => false
  end.

(** ** [Map]: insertion-ordered, [set] on a present key keeps its position *)

Section JSMap.
Variables (K V : Type) (eqb : K -> K -> bool).

Definition JSMap := list (K * V).

Fixpoint map_get (k : K) (m : JSMap) : option V :=
  match m with
  | [] => None
  | (k', v) :: m' => if eqb k' k then Some v else map_get k m'
  end.

Fixpoint map_set (k : K) (v : V) (m : JSMap) : JSMap :=
  match m with
  | [] => [(k, v)]
  | (k', v') :: m' =>
      if eqb k' k then (k', v) :: m' else (k', v') :: map_set k v m'
  end.

(** Keys are unique in a [Map]; [delete] leaves no entry for [k]. *)
Fixpoint map_delete (k : K) (m : JSMap) : JSMap :=
  match m with
  | [] => []
  | (k', v') :: m' =>
      if eqb k' k then map_delete k m' else (k', v') :: map_delete k m'
  end.

Definition map_values (m : JSMap) : list V := map snd m.
End JSMap.

(** Property read [o.name]: throws a TypeError on [undefined] and [null],
    gives [undefined] on a missing property and on primitives. *)
Definition TypeError_read (what prop : string) : Thrown :=
  ErrorObject
    ("Cannot read properties of " ++ what ++ " (reading '" ++ prop ++ "')")%string.

Definition get_prop (o : Value) (prop : string) : Completion Value :=
  match o with
  | VUndefined => Throw (TypeError_read "undefined" prop)
  | VNull => Throw (TypeError_read "null" prop)
  | VObject fields =>
      match map_get String.eqb prop fields with
      | Some v => Normal v
      | None => Normal VUndefined
      end
  | _ => Normal VUndefined
  end.

(** ** Canonical message model

    Modelled from the spec: [Message], [ToolCall], [LLMResponse],
    [LLMParameters], [ToolDefinition] and [LLMStreamHandler] are declared in
    [types/llm.types], [Tool], [ExecutionContext] and [InputSchema] in
    [types/action.types]; neither file is among the sources.  The records
    and variants below have the fields the code reads and writes, with the
    shapes section 3 of the specification gives them. *)

Inductive Role : Type := system | user | assistant.

Definition Role_eqb (a b : Role) : bool :=
  match a, b with
  | system, system | user, user | assistant, assistant => true
  | _, _ => false
  end.

(** Sub-blocks of a [tool_result] block's array content. *)
Inductive ToolResultBlock : Type :=
| tr_image (source : Value)
| tr_text (text : Value).

Inductive ToolResultContent : Type :=
| TRString (s : string)
| TRArray (tool_content : list ToolResultBlock).

Inductive ContentBlock : Type :=
| text_block (text : string)
| tool_use (id : string) (name : string) (input : Value)
| tool_result (tool_use_id : string) (content : ToolResultContent)
              (is_error : option bool)
| image (source : Value).

Inductive MessageContent : Type :=
| CString (s : string)
| CArray (blocks : list ContentBlock).

Record Message : Type := mkMessage {
  role : Role;
  content : MessageContent
}.

(** ** [ActionImpl.handleHistoryImageMessages] *)

Definition is_image (b : ToolResultBlock) : bool :=
  match b with tr_image _ => true | tr_text _ => false end.

(** [tool_content.splice(k, 1)] *)
Fixpoint splice1 (k : nat) (tc : list ToolResultBlock) : list ToolResultBlock :=
  match k, tc with
  | _, [] => []
  | O, _ :: tl => tl
  | S k', b :: tl => b :: splice1 k' tl
  end.

(** [for (let k = n - 1; k >= 0; k--) if (tool_content[k].type === 'image')
    tool_content.splice(k, 1)] *)
Fixpoint strip_loop (n : nat) (tc : list ToolResultBlock) : list ToolResultBlock :=
  match n with
  | O => tc
  | S k =>
      strip_loop k
        (match nth_error tc k with
         | Some b => if is_image b then splice1 k tc else tc
         | None => tc
         end)
  end.

(** The body run on one [tool_content] array: the strip loop when it has
    elements, otherwise the [else if (tool_content[0].type === 'image')]
    test, which reads [type] of a missing element 0.  The assignment in that
    branch rebinds the local variable only. *)
Definition trim_tool_content (tc : list ToolResultBlock)
  : Completion (list ToolResultBlock) :=
  if (0 <? List.length tc)%nat then Normal (strip_loop (List.length tc) tc)
  else
    match nth_error tc 0 with
    | None => Throw (TypeError_read "undefined" "type")
    | Some b => if is_image b then Normal tc else Normal tc
    end.

Definition trim_block (b : ContentBlock) : Completion ContentBlock :=
  match b with
  | tool_result id (TRArray tc) e =>
      match trim_tool_content tc with
      | Normal tc' => Normal (tool_result id (TRArray tc') e)
      | Throw err => Throw err
      end
  | _ => Normal b
  end.

(** [for (let j = 0; j < content.length; j++) ...] *)
Fixpoint trim_blocks (bs : list ContentBlock) : Completion (list ContentBlock) :=
  match bs with
  | [] => Normal []
  | b :: tl =>
      match trim_block b with
      | Throw err => Throw err
      | Normal b' =>
          match trim_blocks tl with
          | Throw err => Throw err
          | Normal tl' => Normal (b' :: tl')
          end
      end
  end.

Definition trim_message (m : Message) : Completion Message :=
  match content m with
  | CString _ => Normal m
  | CArray bs =>
      match trim_blocks bs with
      | Throw err => Throw err
      | Normal bs' => Normal (mkMessage (role m) (CArray bs'))
      end
  end.

(** The walk [for (let i = messages.length - 1; i >= 0; i--)] over the
    reversed history, threading [last_user].  The result is again reversed
    (most recent first). *)
Fixpoint walk_history (last_user : bool) (rev_msgs : list Message)
  : Completion (list Message) :=
  match rev_msgs with
  | [] => Normal []
  | m :: older =>
      if Role_eqb (role m) user then
        if last_user then
          match walk_history false older with
          | Throw err => Throw err
          | Normal older' => Normal (m :: older')
          end
        else
          match trim_message m with
          | Throw err => Throw err
          | Normal m' =>
              match walk_history last_user older with
              | Throw err => Throw err
              | Normal older' => Normal (m' :: older')
              end
          end
      else
        match walk_history last_user older with
        | Throw err => Throw err
        | Normal older' => Normal (m :: older')
        end
  end.

(** The function mutates [messages] in place; the model returns the array
    after the call, or the error it throws. *)
Definition handleHistoryImageMessages (messages : list Message)
  : Completion (list Message) :=
  match walk_history true (rev messages) with
  | Throw err => Throw err
  | Normal r => Normal (rev r)
  end.

(** The trimming policy in the specification's words: a [tool_result] block
    whose content is a non-empty sequence keeps its non-image sub-blocks, in
    order; everything else is left alone.  A user message is trimmed when a
    later user message exists. *)
Definition is_user (m : Message) : bool := Role_eqb (role m) user.

Definition without_images (tc : list ToolResultBlock) : list ToolResultBlock :=
  filter (fun b => negb (is_image b)) tc.

Definition policy_block (b : ContentBlock) : ContentBlock :=
  match b with
  | tool_result id (TRArray (x :: tl)) e =>
      tool_result id (TRArray (without_images (x :: tl))) e
  | _ => b
  end.

Definition policy_message (m : Message) : Message :=
  match content m with
  | CString _ => m
  | CArray bs => mkMessage (role m) (CArray (map policy_block bs))
  end.

(** [later] tells whether a user message follows the end of [messages]. *)
Fixpoint policy_from (later : bool) (messages : list Message) : list Message :=
  match messages with
  | [] => []
  | m :: tl =>
      (if is_user m && (later || existsb is_user tl)
       then policy_message m else m) :: policy_from later tl
  end.

Definition history_policy (messages : list Message) : list Message :=
  policy_from false messages.

(** A [tool_result] block with an empty array as content. *)
Definition empty_result_array (b : ContentBlock) : bool :=
  match b with
  | tool_result _ (TRArray []) _ => true
  | _ => false
  end.

Definition has_empty_result_array (m : Message) : bool :=
  match content m with
  | CString _ => false
  | CArray bs => existsb empty_result_array bs
  end.

(** Some user message other than the most recent one holds a [tool_result]
    block whose content is an empty array. *)
Fixpoint empty_array_from (later : bool) (messages : list Message) : bool :=
  match messages with
  | [] => false
  | m :: tl =>
      (is_user m && (later || existsb is_user tl) && has_empty_result_array m)
      || empty_array_from later tl
  end.

Definition empty_array_in_earlier_user (messages : list Message) : bool :=
  empty_array_from false messages.

(** All sub-blocks of every array-valued [tool_result] block are text. *)
Definition text_only_block (b : ContentBlock) : bool :=
  match b with
  | tool_result _ (TRArray tc) _ => forallb (fun s => negb (is_image s)) tc
  | _ => true
  end.

Definition text_only_message (m : Message) : bool :=
  match content m with
  | CString _ => true
  | CArray bs => forallb text_only_block bs
  end.

Definition TypeError_type_of_undefined : Thrown :=
  TypeError_read "undefined" "type".

(** An earlier user message with an empty [tool_result] array, as a
    proposition. *)
Definition EarlierUserEmptyArray (messages : list Message) : Prop :=
  exists i m bs id e,
    nth_error messages i = Some m /\
    role m = user /\
    existsb is_user (skipn (S i) messages) = true /\
    content m = CArray bs /\
    In (tool_result id (TRArray []) e) bs.


(** ** Strings of values *)

(** [Array.prototype.join] on strings. *)
Fixpoint join (sep : string) (l : list string) : string :=
  match l with
  | [] => EmptyString
  | [x] => x
  | x :: tl => (x ++ sep ++ join sep tl)%string
  end.

Definition Z_to_string (n : Z) : string :=
  DecimalString.NilZero.string_of_int (Z.to_int n).

(** [String(v)], the coercion of template literals and of [JSON.parse]. *)
Fixpoint ToString (v : Value) : string :=
  match v with
  | VUndefined => "undefined"
  | VNull => "null"
  | VBool true => "true"
  | VBool false => "false"
  | VNumber n => Z_to_string n
  | VString s => s
  | VArray elems =>
      join ","
        ((fix each (l : list Value) : list string :=
            match l with
            | [] => []
            | (VUndefined | VNull) :: tl => EmptyString :: each tl
            | x :: tl => ToString x :: each tl
            end) elems)
  | VObject _ => "[object Object]"
  end.


(** ** A reference [JSON.parse] / [JSON.stringify]

    The model takes the two built-ins as parameters (section [Model]).  The
    functions here are an executable instance on the fragment of JSON whose
    numbers are integer literals and whose strings have no [\u] escapes; they
    serve to run the model on concrete inputs. *)

Module JSONRef.

Definition code (c : ascii) : nat := nat_of_ascii c.

Definition dquote : ascii := "034"%char.

Definition is_ws (c : ascii) : bool :=
  match code c with
  | 9 | 10 | 13 | 32 => true
  | _ => false
  end%nat.

Definition is_digit (c : ascii) : bool :=
  ((48 <=? code c) && (code c <=? 57))%nat.

Definition digit_value (c : ascii) : Z := Z.of_nat (code c - 48).

Fixpoint skip_ws (s : string) : string :=
  match s with
  | String c rest => if is_ws c then skip_ws rest else s
  | EmptyString => s
  end.

Fixpoint strip_prefix (p s : string) : option string :=
  match p, s with
  | EmptyString, _ => Some s
  | String a p', String b s' =>
      if Ascii.eqb a b then strip_prefix p' s' else None
  | _, _ => None
  end.

Fixpoint digits (acc : Z) (s : string) : Z * string :=
  match s with
  | String c rest =>
      if is_digit c then digits (10 * acc + digit_value c) rest else (acc, s)
  | EmptyString => (acc, s)
  end.

(** A fraction or an exponent is outside the fragment. *)
Definition number_ends (s : string) : bool :=
  match s with
  | String c _ =>
      negb (Ascii.eqb c "." || Ascii.eqb c "e" || Ascii.eqb c "E")
  | EmptyString => true
  end.

(** [int = "0" | digit1-9 *digit], no leading zero. *)
Definition natural (s : string) : option (Z * string) :=
  match s with
  | String c rest =>
      if Ascii.eqb c "0" then
        match rest with
        | String d _ => if is_digit d then None else Some (0%Z, rest)
        | EmptyString => Some (0%Z, rest)
        end
      else if is_digit c then Some (digits (digit_value c) rest)
      else None
  | EmptyString => None
  end.

Definition number (s : string) : option (Z * string) :=
  let signed :=
    match s with
    | String c rest =>
        if Ascii.eqb c "-" then
          match natural rest with
          | Some (n, r) => Some ((- n)%Z, r)
          | None => None
          end
        else natural s
    | EmptyString => None
    end in
  match signed with
  | Some (n, r) => if number_ends r then Some (n, r) else None
  | None => None
  end.

Definition unescape (c : ascii) : option ascii :=
  match code c with
  | 34 | 92 | 47 => Some c          (* quote, backslash, slash *)
  | 98 => Some (ascii_of_nat 8)     (* b *)
  | 102 => Some (ascii_of_nat 12)   (* f *)
  | 110 => Some (ascii_of_nat 10)   (* n *)
  | 114 => Some (ascii_of_nat 13)   (* r *)
  | 116 => Some (ascii_of_nat 9)    (* t *)
  | _ => None
  end%nat.

(** The characters after an opening quote, up to the closing one. *)
Fixpoint string_body (s : string) : option (string * string) :=
  match s with
  | EmptyString => None
  | String c rest =>
      if Ascii.eqb c dquote then Some (EmptyString, rest)
      else if Ascii.eqb c "\" then
        match rest with
        | String e rest' =>
            match unescape e, string_body rest' with
            | Some c', Some (body, r) => Some (String c' body, r)
            | _, _ => None
            end
        | EmptyString => None
        end
      else if (code c <? 32)%nat then None
      else
        match string_body rest with
        | Some (body, r) => Some (String c body, r)
        | None => None
        end
  end.

Fixpoint value (fuel : nat) (s : string) : option (Value * string) :=
  match fuel with
  | O => None
  | S fuel' =>
      match skip_ws s with
      | EmptyString => None
      | String c rest as s' =>
          if Ascii.eqb c "{" then
            match skip_ws rest with
            | String d r =>
                if Ascii.eqb d "}" then Some (VObject [], r)
                else members fuel' [] (String d r)
            | EmptyString => None
            end
          else if Ascii.eqb c "[" then
            match skip_ws rest with
            | String d r =>
                if Ascii.eqb d "]" then Some (VArray [], r)
                else elements fuel' [] (String d r)
            | EmptyString => None
            end
          else if Ascii.eqb c dquote then
            match string_body rest with
            | Some (str, r) => Some (VString str, r)
            | None => None
            end
          else
            match strip_prefix "null" s', strip_prefix "true" s',
                  strip_prefix "false" s' with
            | Some r, _, _ => Some (VNull, r)
            | _, Some r, _ => Some (VBool true, r)
            | _, _, Some r => Some (VBool false, r)
            | _, _, _ =>
                match number s' with
                | Some (n, r) => Some (VNumber n, r)
                | None => None
                end
            end
      end
  end

with elements (fuel : nat) (acc : list Value) (s : string)
  : option (Value * string) :=
  match fuel with
  | O => None
  | S fuel' =>
      match value fuel' s with
      | Some (v, r) =>
          match skip_ws r with
          | String c r' =>
              if Ascii.eqb c "," then elements fuel' (acc ++ [v]) r'
              else if Ascii.eqb c "]" then Some (VArray (acc ++ [v]), r')
              else None
          | EmptyString => None
          end
      | None => None
      end
  end

with members (fuel : nat) (acc : list (string * Value)) (s : string)
  : option (Value * string) :=
  match fuel with
  | O => None
  | S fuel' =>
      match skip_ws s with
      | String q r0 =>
          if Ascii.eqb q dquote then
            match string_body r0 with
            | Some (k, r1) =>
                match skip_ws r1 with
                | String c r2 =>
                    if Ascii.eqb c ":" then
                      match value fuel' r2 with
                      | Some (v, r3) =>
                          let acc' := map_set String.eqb k v acc in
                          match skip_ws r3 with
                          | String d r4 =>
                              if Ascii.eqb d "," then members fuel' acc' r4
                              else if Ascii.eqb d "}"
                                   then Some (VObject acc', r4)
                              else None
                          | EmptyString => None
                          end
                      | None => None
                      end
                    else None
                | EmptyString => None
                end
            | None => None
            end
          else None
      | EmptyString => None
      end
  end.

Definition parse_text (s : string) : option Value :=
  match value (S (String.length s)) s with
  | Some (v, r) =>
      match skip_ws r with
      | EmptyString => Some v
      | String _ _ => None
      end
  | None => None
  end.

(** [JSON.parse(text)]: the text is [String(text)]; anything that is not
    JSON throws a SyntaxError (its message is the engine's). *)
Definition parse (text : Value) : Completion Value :=
  match parse_text (ToString text) with
  | Some v => Normal v
  | None => Throw (ErrorObject "SyntaxError: not valid JSON")
  end.

Definition escape_char (c : ascii) : string :=
  match code c with
  | 34 => String "\" (String dquote EmptyString)
  | 92 => "\\"
  | 8 => "\b"
  | 12 => "\f"
  | 10 => "\n"
  | 13 => "\r"
  | 9 => "\t"
  | _ => String c EmptyString
  end%nat.

Fixpoint escape (s : string) : string :=
  match s with
  | EmptyString => EmptyString
  | String c rest => (escape_char c ++ escape rest)%string
  end.

Definition quote (s : string) : string := String dquote (escape s ++ String dquote EmptyString).

(** [JSON.stringify(v)] without indentation.  An [undefined] array element
    prints as [null], an [undefined] property is left out. *)
Fixpoint stringify (v : Value) : string :=
  match v with
  | VUndefined => "undefined"
  | VNull => "null"
  | VBool true => "true"
  | VBool false => "false"
  | VNumber n => Z_to_string n
  | VString s => quote s
  | VArray elems =>
      ("[" ++ join ","
         ((fix each (l : list Value) : list string :=
             match l with
             | [] => []
             | VUndefined :: tl => "null" :: each tl
             | x :: tl => stringify x :: each tl
             end) elems) ++ "]")%string
  | VObject fields =>
      ("{" ++ join ","
         ((fix each (l : list (string * Value)) : list string :=
             match l with
             | [] => []
             | (_, VUndefined) :: tl => each tl
             | (k, x) :: tl => (quote k ++ ":" ++ stringify x)%string :: each tl
             end) fields) ++ "}")%string
  end.

End JSONRef.

(** ** Tool calls, model responses and the vendor's stream *)

Record ToolCall : Type := mkToolCall {
  call_id : string;
  call_name : string;
  call_input : Value
}.

Record LLMResponse : Type := mkLLMResponse {
  textContent : option string;
  response_content : list ContentBlock;
  toolCalls : list ToolCall;
  stop_reason : option string
}.

Record ToolDefinition : Type := mkToolDefinition {
  def_name : string;
  def_description : string;
  def_input_schema : Value
}.

Record LLMParameters : Type := mkLLMParameters {
  model : option string;
  temperature : option Value;
  maxTokens : option Z;
  param_tools : option (list ToolDefinition);
  toolChoice : option Value
}.

(** [Anthropic.Message], as far as [processResponse] reads it. *)
Record AnthropicMessage : Type := mkAnthropicMessage {
  message_content : list ContentBlock;
  message_stop_reason : option string
}.

Inductive StartedBlock : Type :=
| started_text
| started_tool_use (id : string) (name : string)
| started_other.

Inductive Delta : Type :=
| text_delta (text : string)
| input_json_delta (partial_json : string)
| other_delta.

Inductive MessageStreamEvent : Type :=
| content_block_start (content_block : StartedBlock)
| content_block_delta (delta : Delta)
| content_block_stop
| other_event.

(** What [client.messages.stream] yields: the events the iteration
    delivers, then either the final message or the error of the transport
    (thrown by the iteration or by [finalMessage()]). *)
Record MessageStream : Type := mkMessageStream {
  stream_events : list MessageStreamEvent;
  stream_final : Completion AnthropicMessage
}.

Record StreamRequest : Type := mkStreamRequest {
  req_system : option string;
  req_model : string;
  req_max_tokens : Z;
  req_temperature : option Value;
  req_messages : list Message;
  req_tools : option (list ToolDefinition);
  req_tool_choice : option Value
}.

(** The provider: its default model and the vendor behind [this.client],
    which answers the [n]-th request of a run with a stream. *)
Record ClaudeProvider : Type := mkClaudeProvider {
  defaultModel : string;
  client_stream : nat -> StreamRequest -> MessageStream
}.

Record PartialToolUse : Type := mkPartialToolUse {
  partial_id : string;
  partial_name : string;
  accumulatedJson : string
}.

(** The calls [generateStream] makes on its [LLMStreamHandler]. *)
Inductive HandlerCall : Type :=
| onStart
| onContent (content : string)
| onToolUse (toolCall : ToolCall)
| onComplete (response : LLMResponse)
| onError (error : Thrown).

(** ** Execution context and tools

    [ContextState] is the part of the context a tool or a hook may change;
    the tool list and the hooks are fixed during one [execute]. *)

Record ContextState : Type := mkContextState {
  variables : JSMap Value Value;
  __skip : bool;
  __abort : bool
}.

Definition Effect (A : Type) : Type :=
  ContextState -> Completion A * ContextState.

Record Tool : Type := mkTool {
  name : string;
  description : string;
  input_schema : Value;
  execute : Value -> Effect Value
}.

Record Hooks : Type := mkHooks {
  beforeToolUse : option (Tool -> Value -> Effect Value);
  afterToolUse : option (Tool -> Value -> Effect Value)
}.

Record ExecutionContext : Type := mkExecutionContext {
  context_tools : option (list Tool);
  callback : option Hooks
}.

(** ** The run-time state of an action

    A tool call triggered mid-stream runs as a background unit while the
    stream is consumed.  A unit resolves [unit_wait] scheduler turns after
    its launch, and what its hooks and its tool do to the context happens
    in one step when it resolves.  That is exact as long as one unit is in
    flight at a time, which is the case when every streamed message holds at
    most one tool-use block; with several, the units' effects are ordered by
    their resolution.  Units that nobody awaited stay in the pool and
    resolve during later rounds.

    [unhandled] collects what rejected a promise nobody holds, [trace] the
    events of the rounds in the order they happened, [rounds] counts the
    calls of [executeSingleRound]. *)

Record Unit : Type := mkUnit {
  unit_round : nat;
  unit_promise : nat;
  unit_wait : nat;
  unit_tool : Tool;
  unit_call : ToolCall
}.

Inductive Event : Type :=
| RoundStarted (r : nat)
| UnitLaunched (r p : nat)
| UnitResolved (r p : nat)
| StreamSettled (r : nat)
| Assembled (r : nat).

Record World : Type := mkWorld {
  state : ContextState;
  pool : list Unit;
  launched : nat;
  rounds : nat;
  unhandled : list Thrown;
  trace : list Event
}.

(** The local variables of one [executeSingleRound]. *)
Record RoundVars : Type := mkRoundVars {
  assistantTextMessage : string;
  toolUseMessage : option Message;
  toolResultMessage : option Message;
  hasToolUse : bool;
  toolExecutionPromise : option nat;
  response : option LLMResponse
}.

Record RoundResult : Type := mkRoundResult {
  result_response : option LLMResponse;
  result_hasToolUse : bool;
  roundMessages : list Message;
  history : list Message
}.

Record ActionImpl : Type := mkActionImpl {
  action_name : string;
  action_description : string;
  tools : list Tool;
  llmProvider : ClaudeProvider;
  llmConfig : option LLMParameters;
  maxRounds : Z
}.

(** State-and-exception plumbing for code that reads and writes the context
    and may throw. *)
Definition ret {A : Type} (a : A) : Effect A := fun c => (Normal a, c).

Definition bind {A B : Type} (m : Effect A) (k : A -> Effect B) : Effect B :=
  fun c =>
    match m c with
    | (Normal a, c') => k a c'
    | (Throw e, c') => (Throw e, c')
    end.

Definition lift {A : Type} (r : Completion A) : Effect A := fun c => (r, c).

Definition get_state : Effect ContextState := fun c => (Normal c, c).

Definition update (f : ContextState -> ContextState) : Effect unit :=
  fun c => (Normal tt, f c).

Notation "x <- m ;; k" := (bind m (fun x => k))
  (at level 61, m at next level, right associativity).

Definition set_skip (b : bool) (c : ContextState) : ContextState :=
  mkContextState (variables c) b (__abort c).

Definition set_variables (vs : JSMap Value Value) (c : ContextState)
  : ContextState :=
  mkContextState vs (__skip c) (__abort c).

(** [context.variables.set(key, v)] *)
Definition variables_set (key v : Value) : Effect unit :=
  update (fun c => set_variables (map_set SameValueZero key v (variables c)) c).

Definition newline : string := String "010"%char EmptyString.

Definition dq : string := String "034"%char EmptyString.

(** [content.trim()] is a non-empty string: some character is not white
    space (the ASCII white space of [String.prototype.trim]). *)
Definition is_space (c : ascii) : bool :=
  match nat_of_ascii c with
  | 9 | 10 | 11 | 12 | 13 | 32 => true
  | _ => false
  end%nat.

Fixpoint has_visible_char (content : string) : bool :=
  match content with
  | EmptyString => false
  | String c rest => negb (is_space c) || has_visible_char rest
  end.

Section Model.

(** The built-ins [JSON.parse] and [JSON.stringify] (without and with the
    indentation argument), and the scheduler: the unit behind the [p]-th
    promise of a run resolves [resolves_after p] turns after its launch. *)
Variable JSON_parse : Value -> Completion Value.
Variable JSON_stringify : Value -> string.
Variable JSON_stringify_indent : Value -> string.
Variable resolves_after : nat -> nat.

(** *** [ClaudeProvider] *)

Definition processResponse (message : AnthropicMessage) : LLMResponse :=
  let toolCalls :=
    flat_map (fun block =>
                match block with
                | tool_use id name input => [mkToolCall id name input]
                | _ => []
                end) (message_content message) in
  let textContent :=
    join newline
      (flat_map (fun block =>
                   match block with
                   | text_block text => [text]
                   | _ => []
                   end) (message_content message)) in
  mkLLMResponse
    (if textContent =? "" then None else Some textContent)
    (message_content message)
    toolCalls
    (message_stop_reason message).

(** [typeof s.content == 'string' ? s.content : s.content[0].text] *)
Definition system_text (s : Message) : Completion (option string) :=
  match content s with
  | CString text => Normal (Some text)
  | CArray [] => Throw (TypeError_read "undefined" "text")
  | CArray (text_block text :: _) => Normal (Some text)
  | CArray (_ :: _) => Normal None
  end.

Fixpoint system_texts (messages : list Message)
  : Completion (list (option string)) :=
  match messages with
  | [] => Normal []
  | s :: tl =>
      if Role_eqb (role s) system then
        match system_text s with
        | Throw e => Throw e
        | Normal t =>
            match system_texts tl with
            | Throw e => Throw e
            | Normal ts => Normal (t :: ts)
            end
        end
      else system_texts tl
  end.

Definition stream_request (self : ClaudeProvider) (messages : list Message)
           (params : LLMParameters) : Completion StreamRequest :=
  match system_texts messages with
  | Throw e => Throw e
  | Normal texts =>
      Normal
        (mkStreamRequest
           (match texts with t :: _ => t | [] => None end)
           (match model params with
            | Some m => if m =? "" then defaultModel self else m
            | None => defaultModel self
            end)
           (match maxTokens params with
            | Some n => if (n =? 0)%Z then 4096%Z else n
            | None => 4096%Z
            end)
           (temperature params)
           (filter (fun s => negb (Role_eqb (role s) system)) messages)
           (param_tools params)
           (toolChoice params))
  end.

(** [currentToolUse.accumulatedJson || '{}'] *)
Definition json_or_empty_object (accumulated : string) : string :=
  if accumulated =? "" then "{}" else accumulated.

(** The [+=] of the fragments, in arrival order. *)
Definition accumulate (fragments : list string) (accumulated : string) : string :=
  fold_left String.append fragments accumulated.

(** The events of one streamed tool-use block. *)
Definition tool_use_block (id name : string) (fragments : list string)
  : list MessageStreamEvent :=
  content_block_start (started_tool_use id name)
    :: map (fun f => content_block_delta (input_json_delta f)) fragments
    ++ [content_block_stop].

(** One turn of the [switch (event.type)]: the handler calls it makes and
    the next [currentToolUse], or what [JSON.parse] throws. *)
Definition stream_step (currentToolUse : option PartialToolUse)
           (event : MessageStreamEvent)
  : Completion (list HandlerCall * option PartialToolUse) :=
  match event with
  | content_block_start started_text =>
      Normal ([onContent ""], currentToolUse)
  | content_block_start (started_tool_use id name) =>
      Normal ([], Some (mkPartialToolUse id name ""))
  | content_block_start started_other => Normal ([], currentToolUse)
  | content_block_delta (text_delta text) =>
      Normal ([onContent text], currentToolUse)
  | content_block_delta (input_json_delta partial_json) =>
      match currentToolUse with
      | Some cur =>
          Normal ([], Some (mkPartialToolUse (partial_id cur) (partial_name cur)
                              (accumulatedJson cur ++ partial_json)%string))
      | None => Normal ([], currentToolUse)
      end
  | content_block_delta other_delta => Normal ([], currentToolUse)
  | content_block_stop =>
      match currentToolUse with
      | Some cur =>
          match JSON_parse (VString (json_or_empty_object (accumulatedJson cur))) with
          | Normal input =>
              Normal ([onToolUse (mkToolCall (partial_id cur) (partial_name cur) input)],
                      None)
          | Throw e => Throw e
          end
      | None => Normal ([], currentToolUse)
      end
  | other_event => Normal ([], currentToolUse)
  end.

(** [for await (const event of stream)]: the calls made, and how the loop
    ended (the last [currentToolUse], or the error thrown in the loop). *)
Fixpoint stream_loop (currentToolUse : option PartialToolUse)
         (events : list MessageStreamEvent)
  : list HandlerCall * Completion (option PartialToolUse) :=
  match events with
  | [] => ([], Normal currentToolUse)
  | event :: rest =>
      match stream_step currentToolUse event with
      | Throw e => ([], Throw e)
      | Normal (calls, next) =>
          let (calls', final) := stream_loop next rest in
          (calls ++ calls', final)
      end
  end.

(** The handler calls of one [generateStream], in order.  The request is
    built before the [try]; everything after [onStart] is inside it. *)
Definition generateStream (self : ClaudeProvider) (n : nat)
           (messages : list Message) (params : LLMParameters)
  : Completion (list HandlerCall) :=
  match stream_request self messages params with
  | Throw e => Throw e
  | Normal request =>
      let stream := client_stream self n request in
      let (calls, final) := stream_loop None (stream_events stream) in
      Normal
        (onStart :: calls ++
           match final with
           | Throw e => [onError e]
           | Normal _ =>
               match stream_final stream with
               | Normal message => [onComplete (processResponse message)]
               | Throw e => [onError e]
               end
           end)
  end.

(** *** The synthetic tools *)

Definition write_context_schema : Value :=
  VObject
    [("type", VString "object");
     ("properties",
      VObject
        [("key",
          VObject [("type", VString "string");
                   ("description", VString "The key to store the value under")]);
         ("value",
          VObject [("type", VString "string");
                   ("description",
                    VString "The value to store (must be JSON stringified if object/array)")])]);
     ("required", VArray [VString "key"; VString "value"])].

(** [const { a } = params]: throws on [undefined] and [null]. *)
Definition destructure (params : Value) (prop : string) : Completion Value :=
  match params with
  | VUndefined =>
      Throw (ErrorObject ("Cannot destructure property '" ++ prop
                          ++ "' of 'params' as it is undefined.")%string)
  | VNull =>
      Throw (ErrorObject ("Cannot destructure property '" ++ prop
                          ++ "' of 'params' as it is null.")%string)
  | _ => get_prop params prop
  end.

Definition WriteContextTool_execute (params : Value) : Effect Value :=
  key <- lift (destructure params "key") ;;
  value <- lift (destructure params "value") ;;
  _ <- match JSON_parse value with
       | Normal parsedValue => variables_set key parsedValue
       | Throw _ => variables_set key value
       end ;;
  ret (VObject [("success", VBool true); ("key", key); ("value", value)]).

Definition WriteContextTool : Tool :=
  mkTool "write_context"
    "Write a value to the workflow context. Use this to store intermediate results or outputs."
    write_context_schema
    WriteContextTool_execute.

Definition return_output_schema (outputSchema : Value) : Value :=
  VObject
    [("type", VString "object");
     ("properties",
      VObject
        [("value",
          if truthy outputSchema then outputSchema
          else
            VObject
              [("type", VArray [VString "string"; VString "number";
                                VString "boolean"; VString "object";
                                VString "null"]);
               ("description", VString "The output value")])]);
     ("required", VArray [VString "value"])].

Definition action_output_key : Value := VString "__action_output".

Definition return_output_execute (params : Value) : Effect Value :=
  value <- lift (destructure params "value") ;;
  _ <- variables_set action_output_key value ;;
  ret (VObject [("returned", value)]).

Definition createReturnTool (outputSchema : Value) : Tool :=
  mkTool "return_output"
    "Return the final output of this action. Use this to return a value matching the required output schema."
    (return_output_schema outputSchema)
    return_output_execute.

(** *** [ActionImpl]: constructor *)

Definition new_ActionImpl (name description : string) (tools : list Tool)
           (llmProvider : ClaudeProvider) (llmConfig : option LLMParameters)
           (config_maxRounds : option Z) : ActionImpl :=
  mkActionImpl name description
    (tools ++ [WriteContextTool])
    llmProvider llmConfig
    (match config_maxRounds with
     | Some n => if (n =? 0)%Z then 10%Z else n
     | None => 10%Z
     end).

(** *** The background unit launched by [onToolUse] *)

Definition tool_result_message (toolCall : ToolCall)
           (content : ToolResultContent) (is_error : option bool) : Message :=
  mkMessage user (CArray [tool_result (call_id toolCall) content is_error]).

Definition skip_result (toolCall : ToolCall) : Message :=
  tool_result_message toolCall (TRString "skip") None.

(** [err instanceof Error ? err.message : 'Unknown error occurred'] *)
Definition errorMessage (err : Thrown) : string :=
  match err with
  | ErrorObject message => message
  | NonError _ => "Unknown error occurred"
  end.

Definition errorResult (toolCall : ToolCall) (err : Thrown) : Message :=
  tool_result_message toolCall
    (TRArray [tr_text (VString ("Error: " ++ errorMessage err)%string)])
    (Some true).

(** The [resultMessage] literal: [result.image && result.image.type]
    selects the image form, [result.text] adds the text sub-block. *)
Definition resultMessage (toolCall : ToolCall) (result : Value)
  : Completion Message :=
  match get_prop result "image" with
  | Throw e => Throw e
  | Normal img =>
      match (if truthy img then get_prop img "type" else Normal img) with
      | Throw e => Throw e
      | Normal image_type =>
          if truthy image_type then
            match get_prop result "text" with
            | Throw e => Throw e
            | Normal text =>
                Normal
                  (tool_result_message toolCall
                     (TRArray (if truthy text
                               then [tr_image img; tr_text text]
                               else [tr_image img]))
                     None)
            end
          else
            Normal
              (tool_result_message toolCall
                 (TRArray [tr_text (VString (JSON_stringify result))])
                 None)
      end
  end.

(** A hook call: a truthy return value replaces the argument. *)
Definition run_hook (hook : option (Tool -> Value -> Effect Value))
           (tool : Tool) (v : Value) : Effect Value :=
  match hook with
  | Some f =>
      modified <- f tool v ;;
      ret (if truthy modified then modified else v)
  | None => ret v
  end.

Definition hook_of (context : ExecutionContext)
           (which : Hooks -> option (Tool -> Value -> Effect Value))
  : option (Tool -> Value -> Effect Value) :=
  match callback context with
  | Some hooks => which hooks
  | None => None
  end.

(** The [try] block of the unit. *)
Definition tool_unit_try (context : ExecutionContext) (tool : Tool)
           (toolCall : ToolCall) : Effect Message :=
  _ <- update (set_skip false) ;;
  input <- run_hook (hook_of context beforeToolUse) tool (call_input toolCall) ;;
  c <- get_state ;;
  if __skip c || __abort c then ret (skip_result toolCall)
  else
    result <- execute tool input ;;
    result <- run_hook (hook_of context afterToolUse) tool result ;;
    lift (resultMessage toolCall result).

(** The whole unit with its [catch]: it always ends with a message for
    [toolResultMessage]. *)
Definition tool_unit (context : ExecutionContext) (tool : Tool)
           (toolCall : ToolCall) (c : ContextState) : Message * ContextState :=
  match tool_unit_try context tool toolCall c with
  | (Normal message, c') => (message, c')
  | (Throw err, c') => (errorResult toolCall err, c')
  end.

(** *** Scheduling *)

Definition set_toolResultMessage (m : Message) (rv : RoundVars) : RoundVars :=
  mkRoundVars (assistantTextMessage rv) (toolUseMessage rv) (Some m)
              (hasToolUse rv) (toolExecutionPromise rv) (response rv).

(** One scheduler turn over the pool, in launch order: a unit whose wait
    is over runs and resolves, the others wait one turn less.  A resolved
    unit assigns [toolResultMessage] of the round that launched it; the
    variable of an earlier round is dead by then. *)
Fixpoint resolve_units (context : ExecutionContext) (r : nat)
         (units : list Unit) (st : ContextState) (rv : RoundVars)
  : list Unit * ContextState * RoundVars * list Event :=
  match units with
  | [] => ([], st, rv, [])
  | u :: rest =>
      match unit_wait u with
      | O =>
          let (m, st') := tool_unit context (unit_tool u) (unit_call u) st in
          let rv' := if (unit_round u =? r)%nat
                     then set_toolResultMessage m rv else rv in
          let '(rest', st'', rv'', evs) := resolve_units context r rest st' rv' in
          (rest', st'', rv'', UnitResolved (unit_round u) (unit_promise u) :: evs)
      | S k =>
          let '(rest', st', rv', evs) := resolve_units context r rest st rv in
          (mkUnit (unit_round u) (unit_promise u) k (unit_tool u) (unit_call u)
             :: rest', st', rv', evs)
      end
  end.

Definition turn (context : ExecutionContext) (r : nat)
           (s : World * RoundVars) : World * RoundVars :=
  let (w, rv) := s in
  let '(units, st, rv', evs) := resolve_units context r (pool w) (state w) rv in
  (mkWorld st units (launched w) (rounds w) (unhandled w) (trace w ++ evs), rv').

Definition log (e : Event) (w : World) : World :=
  mkWorld (state w) (pool w) (launched w) (rounds w) (unhandled w)
          (trace w ++ [e]).

(** *** The round's stream handler *)

Definition toolMap_get (name : string) (toolMap : JSMap string Tool)
  : option Tool :=
  map_get String.eqb name toolMap.

Definition handler_onContent (content : string) (rv : RoundVars) : RoundVars :=
  if has_visible_char content then
    mkRoundVars (assistantTextMessage rv ++ content)%string (toolUseMessage rv)
                (toolResultMessage rv) (hasToolUse rv)
                (toolExecutionPromise rv) (response rv)
  else rv.

Definition handler_onComplete (llmResponse : LLMResponse) (rv : RoundVars)
  : RoundVars :=
  mkRoundVars (assistantTextMessage rv) (toolUseMessage rv)
              (toolResultMessage rv) (hasToolUse rv)
              (toolExecutionPromise rv) (Some llmResponse).

(** [onToolUse] is an [async] function that [generateStream] calls without
    awaiting it: what it throws rejects a promise nobody holds. *)
Definition handler_onToolUse (toolMap : JSMap string Tool) (r : nat)
           (toolCall : ToolCall) (s : World * RoundVars) : World * RoundVars :=
  let (w, rv) := s in
  let rv1 := mkRoundVars (assistantTextMessage rv) (toolUseMessage rv)
                         (toolResultMessage rv) true
                         (toolExecutionPromise rv) (response rv) in
  match toolMap_get (call_name toolCall) toolMap with
  | None =>
      (mkWorld (state w) (pool w) (launched w) (rounds w)
               (unhandled w
                ++ [ErrorObject ("Tool not found: " ++ call_name toolCall)%string])
               (trace w),
       rv1)
  | Some tool =>
      let p := launched w in
      (mkWorld (state w)
               (pool w ++ [mkUnit r p (resolves_after p) tool toolCall])
               (S p) (rounds w) (unhandled w)
               (trace w ++ [UnitLaunched r p]),
       mkRoundVars (assistantTextMessage rv1)
                   (Some (mkMessage assistant
                            (CArray [tool_use (call_id toolCall) (name tool)
                                              (call_input toolCall)])))
                   (toolResultMessage rv1) (hasToolUse rv1)
                   (Some p) (response rv1))
  end.

(** The handler has no [onStart]; [onError] only logs. *)
Definition dispatch (toolMap : JSMap string Tool) (r : nat)
           (call : HandlerCall) (s : World * RoundVars) : World * RoundVars :=
  match call with
  | onStart => s
  | onContent content => (fst s, handler_onContent content (snd s))
  | onToolUse toolCall => handler_onToolUse toolMap r toolCall s
  | onComplete llmResponse => (fst s, handler_onComplete llmResponse (snd s))
  | onError _ => s
  end.

(** The stream is consumed one handler call per turn. *)
Fixpoint consume (context : ExecutionContext) (toolMap : JSMap string Tool)
         (r : nat) (calls : list HandlerCall) (s : World * RoundVars)
  : World * RoundVars :=
  match calls with
  | [] => s
  | call :: rest =>
      consume context toolMap r rest
              (dispatch toolMap r call (turn context r s))
  end.

Definition pending_wait (p : nat) (units : list Unit) : option nat :=
  match find (fun u => (unit_promise u =? p)%nat) units with
  | Some u => Some (unit_wait u)
  | None => None
  end.

(** [await toolExecutionPromise]: turns pass until the unit has resolved,
    and the continuation runs one turn later. *)
Definition await_unit (context : ExecutionContext) (r p : nat)
           (s : World * RoundVars) : World * RoundVars :=
  match pending_wait p (pool (fst s)) with
  | Some k => Nat.iter (S (S k)) (turn context r) s
  | None => turn context r s
  end.

Definition initial_vars : RoundVars :=
  mkRoundVars "" None None false None None.

Definition option_list {A : Type} (o : option A) : list A :=
  match o with Some a => [a] | None => [] end.

Definition assemble (rv : RoundVars) : list Message :=
  (if assistantTextMessage rv =? "" then []
   else [mkMessage assistant (CString (assistantTextMessage rv))])
    ++ option_list (toolUseMessage rv)
    ++ option_list (toolResultMessage rv).

(** *** [ActionImpl.executeSingleRound] *)

(** [await generateStream(...)] with the handler above, then
    [if (toolExecutionPromise) await toolExecutionPromise]. *)
Definition stream_then_join (context : ExecutionContext)
           (toolMap : JSMap string Tool) (r : nat) (calls : list HandlerCall)
           (w0 : World) : World * RoundVars :=
  let (w1, rv1) := consume context toolMap r calls (w0, initial_vars) in
  let (w2, rv2) := turn context r (log (StreamSettled r) w1, rv1) in
  match toolExecutionPromise rv2 with
  | Some p => await_unit context r p (w2, rv2)
  | None => (w2, rv2)
  end.

Definition start_round (w : World) : World :=
  mkWorld (state w) (pool w) (launched w) (S (rounds w)) (unhandled w)
          (trace w ++ [RoundStarted (rounds w)]).

Definition executeSingleRound (self : ActionImpl) (messages : list Message)
           (params : LLMParameters) (toolMap : JSMap string Tool)
           (context : ExecutionContext) (w : World)
  : Completion RoundResult * World :=
  let r := rounds w in
  let w0 := start_round w in
  match handleHistoryImageMessages messages with
  | Throw e => (Throw e, w0)
  | Normal messages' =>
      match generateStream (llmProvider self) r messages' params with
      | Throw e => (Throw e, w0)
      | Normal calls =>
          let (w3, rv3) := stream_then_join context toolMap r calls w0 in
          if __abort (state w3) then (Throw (ErrorObject "Abort"), w3)
          else
            (Normal (mkRoundResult (response rv3) (hasToolUse rv3)
                                   (assemble rv3) messages'),
             log (Assembled r) w3)
      end
  end.

(** *** [ActionImpl.execute] *)

Definition formatSystemPrompt : string :=
  ("You are a task executor. You need to complete the task specified by the user, using the tools provided. When you need to store results or outputs, use the write_context tool. When you are ready to return the final output, use the return_output tool."
   ++ newline ++ newline
   ++ "    Remember to:" ++ newline
   ++ "    1. Use tools when needed to accomplish the task" ++ newline
   ++ "    2. Store important results using write_context, including intermediate and final results" ++ newline
   ++ "    3. Think step by step about what needs to be done")%string.

Definition formatUserPrompt (self : ActionImpl) (vars : JSMap Value Value)
           (input : Value) : string :=
  let contextDescription :=
    join newline
      (map (fun entry =>
              (ToString (fst entry) ++ ": " ++ JSON_stringify (snd entry))%string)
           vars) in
  let input_text :=
    match input with
    | VString s => s
    | VUndefined => ""
    | _ => JSON_stringify_indent input
    end in
  ("You are executing the action " ++ dq ++ action_name self ++ dq
   ++ ". The specific instructions are: " ++ dq ++ action_description self ++ dq
   ++ ". You have access to the following context:" ++ newline ++ newline
   ++ "    "
   ++ (if contextDescription =? "" then "No context variables set"
       else contextDescription)
   ++ newline ++ newline
   ++ "    You have been provided with the following input:" ++ newline
   ++ "    "
   ++ (if input_text =? "" then "No additional input provided" else input_text)
   ++ newline ++ "    ")%string.

Definition tool_definition (tool : Tool) : ToolDefinition :=
  mkToolDefinition (name tool) (description tool) (input_schema tool).

(** [list.forEach((tool) => toolMap.set(tool.name, tool))] *)
Definition set_all (list : list Tool) (toolMap : JSMap string Tool)
  : JSMap string Tool :=
  fold_left (fun m tool => map_set String.eqb (name tool) tool m) list toolMap.

Definition build_toolMap (self : ActionImpl) (context : ExecutionContext)
           (returnTool : Tool) : JSMap string Tool :=
  let m1 := set_all (tools self) [] in
  let m2 := match context_tools context with
            | Some ts => set_all ts m1
            | None => m1
            end in
  map_set String.eqb (name returnTool) returnTool m2.

(** The order in which [execute] registers the tools. *)
Definition registration_order (self : ActionImpl) (context : ExecutionContext)
           (returnTool : Tool) : list Tool :=
  tools self
    ++ match context_tools context with Some ts => ts | None => [] end
    ++ [returnTool].

(** The last tool of a list with a given name. *)
Definition last_named (n : string) (l : list Tool) : option Tool :=
  find (fun t => (name t =? n)%string) (rev l).

(** [{ ...this.llmConfig, tools: [...] }] *)
Definition with_tools (config : option LLMParameters)
           (defs : list ToolDefinition) : LLMParameters :=
  match config with
  | Some c => mkLLMParameters (model c) (temperature c) (maxTokens c)
                              (Some defs) (toolChoice c)
  | None => mkLLMParameters None None None (Some defs) None
  end.

(** [response?.toolCalls.some((call) => call.name === 'return_output')] *)
Definition calls_return_output (response : option LLMResponse) : bool :=
  match response with
  | Some r => existsb (fun call => call_name call =? "return_output") (toolCalls r)
  | None => false
  end.

Definition no_tool_instruction : string :=
  "Please process the above information and return a final result using the return_output tool.".

Definition max_rounds_instruction : string :=
  "Maximum number of steps reached. Please return the best result possible with the return_output tool.".

(** The round both exits share: push the instruction, run one round that
    offers [return_output] only, push its messages. *)
Definition final_round (self : ActionImpl) (context : ExecutionContext)
           (params : LLMParameters) (returnTool : Tool)
           (instruction : string) (messages : list Message) (w : World)
  : Completion (list Message) * World :=
  let returnOnlyParams := with_tools (Some params) [tool_definition returnTool] in
  let messages1 := messages ++ [mkMessage user (CString instruction)] in
  match executeSingleRound self messages1 returnOnlyParams
                           [(name returnTool, returnTool)] context w with
  | (Throw e, w') => (Throw e, w')
  | (Normal res, w') => (Normal (history res ++ roundMessages res), w')
  end.

(** [while (roundCount < this.maxRounds)].  [fuel] bounds the number of
    iterations; [None] means it ran out. *)
Fixpoint rounds_loop (self : ActionImpl) (context : ExecutionContext)
         (params : LLMParameters) (toolMap : JSMap string Tool)
         (returnTool : Tool) (fuel : nat) (roundCount : Z)
         (messages : list Message) (w : World)
  : option (Completion (list Message) * World) :=
  if (roundCount <? maxRounds self)%Z then
    match fuel with
    | O => None
    | S fuel' =>
        let roundCount := (roundCount + 1)%Z in
        match executeSingleRound self messages params toolMap context w with
        | (Throw e, w1) => Some (Throw e, w1)
        | (Normal res, w1) =>
            let messages1 := history res ++ roundMessages res in
            if negb (result_hasToolUse res)
               && match result_response res with Some _ => true | None => false end
            then
              Some (final_round self context params returnTool
                                no_tool_instruction messages1 w1)
            else if calls_return_output (result_response res) then
              Some (Normal messages1, w1)
            else if (roundCount =? maxRounds self)%Z then
              match final_round self context params returnTool
                                max_rounds_instruction messages1 w1 with
              | (Throw e, w2) => Some (Throw e, w2)
              | (Normal messages2, w2) =>
                  rounds_loop self context params toolMap returnTool
                              fuel' roundCount messages2 w2
              end
            else
              rounds_loop self context params toolMap returnTool
                          fuel' roundCount messages1 w1
        end
    end
  else Some (Normal messages, w).

(** One iteration of the loop after a round that used a tool and returned:
    the loop stops when the response lists [return_output], runs the forced
    final round when the budget is reached, and goes to the next round
    otherwise. *)
Definition after_tool_round (self : ActionImpl) (context : ExecutionContext)
           (params : LLMParameters) (toolMap : JSMap string Tool)
           (returnTool : Tool) (fuel : nat) (roundCount : Z)
           (res : RoundResult) (w1 : World)
  : option (Completion (list Message) * World) :=
  let messages1 := history res ++ roundMessages res in
  if calls_return_output (result_response res) then Some (Normal messages1, w1)
  else if (roundCount + 1 =? maxRounds self)%Z then
    match final_round self context params returnTool max_rounds_instruction
                messages1 w1 with
    | (Throw e, w2) => Some (Throw e, w2)
    | (Normal messages2, w2) =>
        rounds_loop self context params toolMap returnTool fuel (roundCount + 1)%Z
             messages2 w2
    end
  else rounds_loop self context params toolMap returnTool fuel (roundCount + 1)%Z
            messages1 w1.

(** The two messages every conversation starts with. *)
Definition first_messages (self : ActionImpl) (vars : JSMap Value Value)
           (input : Value) : list Message :=
  [mkMessage system (CString formatSystemPrompt);
   mkMessage user (CString (formatUserPrompt self vars input))].

(** [{ ...this.llmConfig, tools: Array.from(toolMap.values()).map(...) }] *)
Definition action_params (self : ActionImpl) (toolMap : JSMap string Tool)
  : LLMParameters :=
  with_tools (llmConfig self) (map tool_definition (map_values toolMap)).

(** The conversation part of [execute]: registry, first messages, loop. *)
Definition converse (self : ActionImpl) (input : Value)
           (context : ExecutionContext) (outputSchema : Value) (w : World)
  : option (Completion (list Message) * World) :=
  let returnTool := createReturnTool outputSchema in
  let toolMap := build_toolMap self context returnTool in
  let messages := first_messages self (variables (state w)) input in
  let params := action_params self toolMap in
  rounds_loop self context params toolMap returnTool
              (Z.to_nat (maxRounds self)) 0%Z messages w.

Definition set_state (st : ContextState) (w : World) : World :=
  mkWorld st (pool w) (launched w) (rounds w) (unhandled w) (trace w).

(** [variables.get('__action_output')], [variables.delete(...)], and the
    [output === undefined] test. *)
Definition take_output (w : World) : Value * World :=
  let output := map_get SameValueZero action_output_key (variables (state w)) in
  let w' := set_state
              (set_variables
                 (map_delete SameValueZero action_output_key
                             (variables (state w)))
                 (state w)) w in
  (match output with
   | None | Some VUndefined => VObject []
   | Some v => v
   end, w').

Definition ActionImpl_execute (self : ActionImpl) (input : Value)
           (context : ExecutionContext) (outputSchema : Value) (w : World)
  : option (Completion Value * World) :=
  match converse self input context outputSchema w with
  | None => None
  | Some (Throw e, w') => Some (Throw e, w')
  | Some (Normal _, w') =>
      let (output, w'') := take_output w' in
      Some (Normal output, w'')
  end.

End Model.

(** ** Observations on rounds *)

Definition is_tool_use_block (b : ContentBlock) : bool :=
  match b with tool_use _ _ _ => true | _ => false end.


Definition has_block (p : ContentBlock -> bool) (m : Message) : bool :=
  match content m with
  | CString _ => false
  | CArray bs => existsb p bs
  end.



(** The promise of the unit launched last by round [r] among [evs]: the one
    [toolExecutionPromise] holds. *)
Fixpoint last_launched (r : nat) (evs : list Event) : option nat :=
  match evs with
  | [] => None
  | e :: tl =>
      match last_launched r tl with
      | Some p => Some p
      | None =>
          match e with
          | UnitLaunched r' p => if (r' =? r)%nat then Some p else None
          | _ => None
          end
      end
  end.

(** Promises are numbered by [launched], rounds by [rounds]; the units in
    the pool were launched by earlier rounds. *)
Definition wf_world (w : World) : Prop :=
  Forall (fun u => (unit_promise u < launched w)%nat
                   /\ (unit_round u < rounds w)%nat) (pool w).

Definition is_tool_use_message (m : Message) : Prop :=
  exists id n i, m = mkMessage assistant (CArray [tool_use id n i]).

Definition is_tool_result_message (m : Message) : Prop :=
  exists id c e, m = mkMessage user (CArray [tool_result id c e]).

(** What holds of the world and the round's variables between two steps of
    round [r], [evs] being the events logged since the round started. *)
Record RoundInv (r : nat) (t0 : list Event) (evs : list Event)
       (w : World) (rv : RoundVars) : Prop := mkRoundInv {
  inv_trace : trace w = t0 ++ evs;
  inv_rounds : rounds w = S r;
  inv_promises : forall u, In u (pool w) ->
                           (unit_promise u < launched w)%nat
                           /\ (unit_round u <= r)%nat;
  inv_launched : forall u, In u (pool w) -> unit_round u = r ->
                           toolUseMessage rv <> None;
  inv_result_use : toolResultMessage rv <> None -> toolUseMessage rv <> None;
  inv_use_flag : toolUseMessage rv <> None -> hasToolUse rv = true;
  inv_promise : toolExecutionPromise rv = last_launched r evs;
  inv_use_promise : toolUseMessage rv = None <-> toolExecutionPromise rv = None;
  inv_own : forall p u, toolExecutionPromise rv = Some p -> In u (pool w) ->
                        unit_promise u = p -> unit_round u = r;
  inv_progress : forall p, toolExecutionPromise rv = Some p ->
                           (In (UnitResolved r p) evs
                            /\ toolResultMessage rv <> None)
                           \/ exists u, In u (pool w) /\ unit_promise u = p;
  inv_use_shape : forall m, toolUseMessage rv = Some m -> is_tool_use_message m;
  inv_result_shape : forall m, toolResultMessage rv = Some m ->
                               is_tool_result_message m
}.

(** What a stream contributes to the round besides tool calls. *)
Definition text_step (acc : string) (call : HandlerCall) : string :=
  match call with
  | onContent c => if has_visible_char c then (acc ++ c)%string else acc
  | _ => acc
  end.

Definition response_step (acc : option LLMResponse) (call : HandlerCall)
  : option LLMResponse :=
  match call with
  | onComplete r => Some r
  | _ => acc
  end.

Definition round_text (calls : list HandlerCall) : string :=
  fold_left text_step calls "".

Definition round_response (calls : list HandlerCall) : option LLMResponse :=
  fold_left response_step calls None.

Definition tool_calls_of (calls : list HandlerCall) : list ToolCall :=
  flat_map (fun call => match call with onToolUse tc => [tc] | _ => [] end) calls.


(** Turns that log resolutions only. *)
Definition only_resolutions (evs : list Event) : Prop :=
  forall e, In e evs -> exists r' p', e = UnitResolved r' p'.

(** Same round, same promise, one turn less to wait. *)
Definition waited (u u' : Unit) : Prop :=
  unit_round u' = unit_round u /\ unit_promise u' = unit_promise u
  /\ unit_wait u = S (unit_wait u').

(** How many rounds the loop can still run from [roundCount]. *)
Definition rounds_left (self : ActionImpl) (roundCount : Z) : Z :=
  if (roundCount <? maxRounds self)%Z
  then (maxRounds self - roundCount + 1)%Z else 0%Z.

(** *** Rounds with a single tool call

    The states a round goes through when its stream makes one tool call and
    no unit of an earlier round is pending. *)

(** No tool call was made yet. *)
Definition NoCallYet (w0 : World) (s : World * RoundVars) : Prop :=
  pool (fst s) = [] /\ state (fst s) = state w0
  /\ launched (fst s) = launched w0 /\ unhandled (fst s) = unhandled w0
  /\ toolUseMessage (snd s) = None /\ toolResultMessage (snd s) = None
  /\ toolExecutionPromise (snd s) = None /\ hasToolUse (snd s) = false.

(** The call named a registered tool: its unit is pending, or it has
    resolved with message [m] and left the context as [c']. *)
Definition OneUnit (r : nat) (tool : Tool) (tc : ToolCall)
           (m : Message) (c' : ContextState) (w0 : World)
           (s : World * RoundVars) : Prop :=
  launched (fst s) = S (launched w0) /\ unhandled (fst s) = unhandled w0
  /\ toolUseMessage (snd s)
     = Some (mkMessage assistant
                       (CArray [tool_use (call_id tc) (name tool) (call_input tc)]))
  /\ hasToolUse (snd s) = true
  /\ toolExecutionPromise (snd s) = Some (launched w0)
  /\ ((exists k, pool (fst s) = [mkUnit r (launched w0) k tool tc]
                 /\ state (fst s) = state w0
                 /\ toolResultMessage (snd s) = None)
      \/ (pool (fst s) = [] /\ state (fst s) = c'
          /\ toolResultMessage (snd s) = Some m)).

(** The call named no registered tool: only the flag and the rejection
    remain of it. *)
Definition UnknownCall (tc : ToolCall) (w0 : World)
           (s : World * RoundVars) : Prop :=
  pool (fst s) = [] /\ state (fst s) = state w0
  /\ launched (fst s) = launched w0
  /\ unhandled (fst s)
     = unhandled w0 ++ [ErrorObject ("Tool not found: " ++ call_name tc)%string]
  /\ toolUseMessage (snd s) = None /\ toolResultMessage (snd s) = None
  /\ toolExecutionPromise (snd s) = None /\ hasToolUse (snd s) = true.

Definition is_tool_call (call : HandlerCall) : bool :=
  match call with onToolUse _ => true | _ => false end.

(** The assistant text message a round contributes, if any. *)
Definition text_part (calls : list HandlerCall) : list Message :=
  if (round_text calls =? "")%string then []
  else [mkMessage assistant (CString (round_text calls))].

(** ** Sample runs

    Streams, tools and hooks on which the model is run below, with the
    reference [JSON.parse] and [JSON.stringify]. *)

Definition quoted (s : string) : string := (dq ++ s ++ dq)%string.

Definition empty_world : World :=
  mkWorld (mkContextState [] false false) [] 0 0 [] [].

(** A streamed message that is one tool call, its input sent in fragments. *)
Definition tool_call_stream (id name : string) (fragments : list string)
           (input : Value) : MessageStream :=
  mkMessageStream (tool_use_block id name fragments)
                  (Normal (mkAnthropicMessage [tool_use id name input]
                                              (Some "tool_use"))).

(** A streamed message that is one text block. *)
Definition text_stream (text : string) : MessageStream :=
  mkMessageStream
    [content_block_start started_text;
     content_block_delta (text_delta text);
     content_block_stop]
    (Normal (mkAnthropicMessage [text_block text] (Some "end_turn"))).

(** A vendor that answers the [n]-th request with the [n]-th stream. *)
Definition scripted (streams : list MessageStream) : ClaudeProvider :=
  mkClaudeProvider "claude-3-5-sonnet-20241022"
                   (fun n _ => nth n streams (text_stream "")).

Definition no_context : ExecutionContext := mkExecutionContext None None.

Definition sample_action (streams : list MessageStream) (declared : list Tool)
           (config_maxRounds : option Z) : ActionImpl :=
  new_ActionImpl JSONRef.parse "sample" "do the task" declared
                 (scripted streams) None config_maxRounds.

(** A run of [execute] from the empty world.  The input is a string, so the
    indenting [JSON.stringify] is never called; the plain one stands in. *)
Definition run_sample (delay : nat) (streams : list MessageStream)
           (declared : list Tool) (config_maxRounds : option Z)
           (context : ExecutionContext)
  : option (Completion Value * World) :=
  ActionImpl_execute JSONRef.parse JSONRef.stringify JSONRef.stringify
                     (fun _ => delay)
                     (sample_action streams declared config_maxRounds)
                     (VString "compute 2+2") context VUndefined empty_world.

(** [{"value":42}], in two fragments. *)
Definition value_42_fragments : list string :=
  [("{" ++ quoted "value")%string; ":42}"].

Definition returns_42 : MessageStream :=
  tool_call_stream "toolu_1" "return_output" value_42_fragments
                   (VObject [("value", VNumber 42)]).

(** [{"key":"__action_output","value":"7"}] *)
Definition writes_reserved_key : MessageStream :=
  tool_call_stream
    "toolu_1" "write_context"
    [("{" ++ quoted "key" ++ ":" ++ quoted "__action_output" ++ ","
          ++ quoted "value" ++ ":" ++ quoted "7" ++ "}")%string]
    (VObject [("key", VString "__action_output"); ("value", VString "7")]).

Definition calls_click : MessageStream :=
  tool_call_stream "toolu_1" "click" ["{}"] (VObject []).

(** A tool that throws [new Error("boom")]. *)
Definition boom : Tool :=
  mkTool "boom" "always fails" (VObject [("type", VString "object")])
         (fun _ c => (Throw (ErrorObject "boom"), c)).

Definition calls_boom : MessageStream :=
  tool_call_stream "toolu_1" "boom" [] (VObject []).

(** A tool that answers with a screenshot and no text. *)
Definition screenshot : Tool :=
  mkTool "screenshot" "takes a picture" (VObject [("type", VString "object")])
         (fun _ c =>
            (Normal (VObject [("image",
                               VObject [("type", VString "base64");
                                        ("data", VString "iVBOR")])]), c)).

Definition calls_screenshot (id : string) : MessageStream :=
  tool_call_stream id "screenshot" [] (VObject []).

(** A [beforeToolUse] hook that requests the abort and throws. *)
Definition aborting_hooks : Hooks :=
  mkHooks
    (Some (fun _ _ c =>
             (Throw (ErrorObject "stop"),
              mkContextState (variables c) (__skip c) true)))
    None.

(** A context-supplied tool that takes the name of [write_context]. *)
Definition impostor : Tool :=
  mkTool "write_context" "supplied by the context" VNull
         (fun _ c => (Normal VNull, c)).

(** A history of four messages: two tool results with screenshots, then a
    plain user message. *)
Definition sample_history : list Message :=
  [mkMessage system (CString "be helpful");
   mkMessage user
     (CArray [tool_result "toolu_1"
                (TRArray [tr_image (VString "img1"); tr_text (VString "first")])
                None]);
   mkMessage user
     (CArray [tool_result "toolu_2" (TRArray [tr_image (VString "img2")]) None]);
   mkMessage user (CString "go on")].

Definition history_with_empty_array : list Message :=
  [mkMessage user (CArray [tool_result "toolu_1" (TRArray []) None]);
   mkMessage user (CString "go on")].

Definition picture_request : list Message :=
  [mkMessage user (CString "take a picture")].

Definition run_round (delay : nat) (streams : list MessageStream)
           (declared : list Tool) (context : ExecutionContext) (w : World)
  : Completion RoundResult * World :=
  executeSingleRound JSONRef.parse JSONRef.stringify (fun _ => delay)
                     (sample_action streams declared None)
                     picture_request
                     (with_tools None (map tool_definition declared))
                     (set_all declared [])
                     context w.

Definition boom_call : ToolCall := mkToolCall "toolu_1" "boom" (VObject []).

(** Two tool calls in one streamed message. *)
Definition calls_boom_then_screenshot : MessageStream :=
  mkMessageStream
    (tool_use_block "toolu_1" "boom" [] ++ tool_use_block "toolu_2" "screenshot" [])
    (Normal (mkAnthropicMessage
               [tool_use "toolu_1" "boom" (VObject []);
                tool_use "toolu_2" "screenshot" (VObject [])]
               (Some "tool_use"))).

(** The world after the run that returns 42 from its first round. *)
Definition after_returns_42 : World :=
  mkWorld (mkContextState [] false false) [] 1 1 []
          [RoundStarted 0; UnitLaunched 0 0; StreamSettled 0;
           UnitResolved 0 0; Assembled 0].

(** ** Further functions of the two files *)

(** *** [ClaudeProvider.generateText]

    The request is the one of [generateStream] but for the default of
    [max_tokens]; the vendor's answer (or its error, which nothing catches)
    comes from [create], the [client.messages.create] of the source. *)
Definition text_request (self : ClaudeProvider) (messages : list Message)
           (params : LLMParameters) : Completion StreamRequest :=
  match system_texts messages with
  | Throw e => Throw e
  | Normal texts =>
      Normal
        (mkStreamRequest
           (match texts with t :: _ => t | [] => None end)
           (match model params with
            | Some m => if m =? "" then defaultModel self else m
            | None => defaultModel self
            end)
           (match maxTokens params with
            | Some n => if (n =? 0)%Z then 1024%Z else n
            | None => 1024%Z
            end)
           (temperature params)
           (filter (fun s => negb (Role_eqb (role s) system)) messages)
           (param_tools params)
           (toolChoice params))
  end.

Definition generateText (create : StreamRequest -> Completion AnthropicMessage)
           (self : ClaudeProvider) (messages : list Message)
           (params : LLMParameters) : Completion LLMResponse :=
  match text_request self messages params with
  | Throw e => Throw e
  | Normal request =>
      match create request with
      | Throw e => Throw e
      | Normal response => Normal (processResponse response)
      end
  end.

(** *** [ActionImpl.createPromptAction] *)
Definition createPromptAction (JSON_parse : Value -> Completion Value)
           (name description : string) (tools : list Tool)
           (llmProvider : ClaudeProvider) (llmConfig : option LLMParameters)
  : ActionImpl :=
  new_ActionImpl JSON_parse name description tools llmProvider llmConfig None.

(** *** Observations on streams and histories *)

(** The texts a stream of events carries: the empty string a text block
    opens with, and the text of every text delta. *)
Definition event_texts (events : list MessageStreamEvent) : list string :=
  flat_map (fun event =>
              match event with
              | content_block_start started_text => [""]
              | content_block_delta (text_delta text) => [text]
              | _ => []
              end) events.

Definition contents_of (calls : list HandlerCall) : list string :=
  flat_map (fun call => match call with onContent c => [c] | _ => [] end) calls.

Definition is_progress (call : HandlerCall) : bool :=
  match call with onContent _ | onToolUse _ => true | _ => false end.

Definition is_terminal (call : HandlerCall) : bool :=
  match call with onComplete _ | onError _ => true | _ => false end.

Definition started_tool_uses (events : list MessageStreamEvent)
  : list (string * string) :=
  flat_map (fun event =>
              match event with
              | content_block_start (started_tool_use id name) => [(id, name)]
              | _ => []
              end) events.

(** The text blocks of a message, in order. *)
Definition text_blocks (blocks : list ContentBlock) : list string :=
  flat_map (fun block => match block with text_block t => [t] | _ => [] end)
           blocks.

(** Some user message other than the most recent one holds a [tool_result]
    block whose content is a non-empty array of images only. *)
Definition EarlierUserImagesOnly (messages : list Message) : Prop :=
  exists i m bs id x tl e,
    nth_error messages i = Some m /\
    role m = user /\
    existsb is_user (skipn (S i) messages) = true /\
    content m = CArray bs /\
    In (tool_result id (TRArray (x :: tl)) e) bs /\
    forallb is_image (x :: tl) = true.

(** Every message has string content. *)
Definition all_strings (messages : list Message) : Prop :=
  Forall (fun m => exists s, content m = CString s) messages.


(** *** Observations on tools, rounds and providers *)

(** The keys of a registry are distinct, and each is the name of its tool. *)
Definition keyed (m : JSMap string Tool) : Prop :=
  NoDup (map fst m) /\ Forall (fun entry => fst entry = name (snd entry)) m.

(** The tool definitions a parameter record carries. *)
Definition offered (params : LLMParameters) : list ToolDefinition :=
  match param_tools params with Some defs => defs | None => [] end.

(** The four contents a result block can have. *)
Inductive ResultLayout (JSON_stringify : Value -> string)
  : ToolResultContent -> option bool -> Prop :=
| layout_skip : ResultLayout JSON_stringify (TRString "skip") None
| layout_json result :
    ResultLayout JSON_stringify
      (TRArray [tr_text (VString (JSON_stringify result))]) None
| layout_error err :
    ResultLayout JSON_stringify
      (TRArray [tr_text (VString ("Error: " ++ errorMessage err)%string)])
      (Some true)
| layout_image img :
    truthy img = true ->
    ResultLayout JSON_stringify (TRArray [tr_image img]) None
| layout_image_text img text :
    truthy img = true -> truthy text = true ->
    ResultLayout JSON_stringify (TRArray [tr_image img; tr_text text]) None.


(** Every stream of the provider fails at once with [e]. *)
Definition provider_down (provider : ClaudeProvider) (e : Thrown) : Prop :=
  forall n request,
    client_stream provider n request = mkMessageStream [] (Throw e).

(** The tool calls of a stream whose name the registry holds, each with the
    tool it names, and the rejections the other calls leave. *)
Definition registered_calls (toolMap : JSMap string Tool)
           (calls : list HandlerCall) : list (ToolCall * Tool) :=
  flat_map (fun tc =>
              match toolMap_get (call_name tc) toolMap with
              | Some tool => [(tc, tool)]
              | None => []
              end) (tool_calls_of calls).

Definition rejected_calls (toolMap : JSMap string Tool)
           (calls : list HandlerCall) : list Thrown :=
  flat_map (fun tc =>
              match toolMap_get (call_name tc) toolMap with
              | Some _ => []
              | None => [ErrorObject ("Tool not found: " ++ call_name tc)%string]
              end) (tool_calls_of calls).

(** The [toolUseMessage] the handler builds for a call. *)
Definition tool_use_message_of (p : ToolCall * Tool) : Message :=
  mkMessage assistant
            (CArray [tool_use (call_id (fst p)) (name (snd p))
                              (call_input (fst p))]).

(** The message of the last element, or [default]. *)
Definition last_tool_use (l : list (ToolCall * Tool)) (default : option Message)
  : option Message :=
  match rev l with
  | p :: _ => Some (tool_use_message_of p)
  | [] => default
  end.

Definition holds_tool_use (m : Message) : bool := has_block is_tool_use_block m.

(** What one handler call does to the promise counter, to the rejections
    and to [toolUseMessage]. *)
Definition booked (toolMap : JSMap string Tool) (calls : list HandlerCall)
           (s s' : World * RoundVars) : Prop :=
  launched (fst s')
  = (launched (fst s) + List.length (registered_calls toolMap calls))%nat
  /\ unhandled (fst s') = unhandled (fst s) ++ rejected_calls toolMap calls
  /\ toolUseMessage (snd s')
     = last_tool_use (registered_calls toolMap calls) (toolUseMessage (snd s)).

(** The text of the first system message: its string content, or the text
    of its first block when that is a text block. *)
Definition first_system_text (messages : list Message) : option string :=
  match filter (fun s => Role_eqb (role s) system) messages with
  | [] => None
  | s :: _ =>
      match content s with
      | CString text => Some text
      | CArray (text_block text :: _) => Some text
      | CArray _ => None
      end
  end.

(** ** Further sample data *)

(** A history whose earlier tool result holds an image and a text. *)
Definition mixed_history : list Message :=
  [mkMessage system (CString "be helpful");
   mkMessage user
     (CArray [tool_result "toolu_1"
                (TRArray [tr_image (VString "img1"); tr_text (VString "first")])
                None]);
   mkMessage user (CString "go on")].

Definition mixed_history_trimmed : list Message :=
  [mkMessage system (CString "be helpful");
   mkMessage user
     (CArray [tool_result "toolu_1" (TRArray [tr_text (VString "first")]) None]);
   mkMessage user (CString "go on")].

(** [sample_history] after one trimming. *)
Definition sample_history_trimmed : list Message :=
  [mkMessage system (CString "be helpful");
   mkMessage user
     (CArray [tool_result "toolu_1" (TRArray [tr_text (VString "first")]) None]);
   mkMessage user (CArray [tool_result "toolu_2" (TRArray []) None]);
   mkMessage user (CString "go on")].

(** The request [generateStream] builds for [picture_request] without
    parameters. *)
Definition picture_stream_request : StreamRequest :=
  mkStreamRequest None "claude-3-5-sonnet-20241022" 4096 None picture_request
                  None None.

Definition no_params : LLMParameters := mkLLMParameters None None None None None.

(** A system message whose content is the empty array. *)
Definition empty_system : Message := mkMessage system (CArray []).

(** A tool that returns nothing. *)
Definition void_tool : Tool :=
  mkTool "click" "clicks" (VObject [("type", VString "object")])
         (fun _ c => (Normal VUndefined, c)).

Definition click_call : ToolCall := mkToolCall "toolu_1" "click" (VObject []).





(** A provider whose every stream fails. *)
Definition failing_provider : ClaudeProvider :=
  mkClaudeProvider "claude-3-5-sonnet-20241022"
                   (fun _ _ => mkMessageStream [] (Throw (ErrorObject "overloaded"))).

Definition failing_action (config_maxRounds : option Z) : ActionImpl :=
  new_ActionImpl JSONRef.parse "sample" "do the task" [] failing_provider None
                 config_maxRounds.

(** The handler calls of the streams [text_stream "4"] and [returns_42]. *)
Definition answer_4 : LLMResponse :=
  mkLLMResponse (Some "4") [text_block "4"] [] (Some "end_turn").

Definition answer_4_calls : list HandlerCall :=
  [onStart; onContent ""; onContent "4"; onComplete answer_4].

Definition return_42_call : ToolCall :=
  mkToolCall "toolu_1" "return_output" (VObject [("value", VNumber 42)]).

Definition returns_42_calls : list HandlerCall :=
  [onStart; onToolUse return_42_call;
   onComplete
     (mkLLMResponse None
        [tool_use "toolu_1" "return_output" (VObject [("value", VNumber 42)])]
        [return_42_call] (Some "tool_use"))].

(** The conversation of the run that returns 42 from its first round, and
    the world before the output is taken. *)
Definition conversation_42 : list Message :=
  first_messages JSONRef.stringify JSONRef.stringify
                 (sample_action [returns_42] [] None) [] (VString "compute 2+2")
    ++ [mkMessage assistant
          (CArray [tool_use "toolu_1" "return_output"
                            (VObject [("value", VNumber 42)])]);
        mkMessage user
          (CArray [tool_result "toolu_1"
                     (TRArray
                        [tr_text
                           (VString
                              (JSONRef.stringify
                                 (VObject [("returned", VNumber 42)])))])
                     None])].

Definition before_take_42 : World :=
  mkWorld (mkContextState [(VString "__action_output", VNumber 42)] false false)
          [] 1 1 []
          [RoundStarted 0; UnitLaunched 0 0; StreamSettled 0;
           UnitResolved 0 0; Assembled 0].

Definition screenshot_call_2 : ToolCall :=
  mkToolCall "toolu_2" "screenshot" (VObject []).

(** The handler calls of [calls_boom_then_screenshot]. *)
Definition boom_then_screenshot_calls : list HandlerCall :=
  [onStart; onToolUse boom_call; onToolUse screenshot_call_2;
   onComplete
     (mkLLMResponse None
        [tool_use "toolu_1" "boom" (VObject []);
         tool_use "toolu_2" "screenshot" (VObject [])]
        [boom_call; screenshot_call_2] (Some "tool_use"))].
(** * Properties *)

(** ** History trimming *)

Lemma splice1_middle (l1 : list ToolResultBlock) b l2 :
  splice1 (List.length l1) (l1 ++ b :: l2) = l1 ++ l2.
Proof. induction l1 as [|a l1 IH]; simpl; [reflexivity | now rewrite IH]. Qed.

Lemma strip_loop_prefix (l1 l2 : list ToolResultBlock) :
  strip_loop (List.length l1) (l1 ++ l2) = without_images l1 ++ l2.
Proof.
  revert l2. induction l1 as [|b l1 IH] using rev_ind; intro l2.
  - reflexivity.
  - rewrite length_app, Nat.add_comm. simpl.
    rewrite <- app_assoc. simpl.
    rewrite nth_error_app2 by lia. rewrite Nat.sub_diag. simpl.
    unfold without_images. rewrite filter_app. simpl.
    destruct (is_image b); simpl.
    + rewrite splice1_middle, IH, app_nil_r. reflexivity.
    + rewrite IH. unfold without_images. now rewrite <- app_assoc.
Qed.

Lemma strip_loop_filter (tc : list ToolResultBlock) :
  strip_loop (List.length tc) tc = without_images tc.
Proof.
  rewrite <- (app_nil_r tc) at 2. rewrite strip_loop_prefix. apply app_nil_r.
Qed.

Lemma trim_tool_content_eq tc :
  trim_tool_content tc =
  match tc with
  | [] => Throw TypeError_type_of_undefined
  | _ :: _ => Normal (without_images tc)
  end.
Proof.
  destruct tc as [|b tl]; [reflexivity|].
  unfold trim_tool_content.
  change (0 <? List.length (b :: tl))%nat with true. cbv iota.
  now rewrite strip_loop_filter.
Qed.

Lemma trim_block_eq b :
  trim_block b =
  if empty_result_array b then Throw TypeError_type_of_undefined
  else Normal (policy_block b).
Proof.
  destruct b as [t|i n v|i c e|s]; try reflexivity.
  destruct c as [s|tc]; [reflexivity|].
  unfold trim_block. rewrite trim_tool_content_eq.
  destruct tc; reflexivity.
Qed.

Lemma trim_blocks_eq bs :
  trim_blocks bs =
  if existsb empty_result_array bs then Throw TypeError_type_of_undefined
  else Normal (map policy_block bs).
Proof.
  induction bs as [|b bs IH]; [reflexivity|].
  simpl. rewrite trim_block_eq, IH.
  destruct (empty_result_array b); [reflexivity|].
  destruct (existsb empty_result_array bs); reflexivity.
Qed.

Lemma trim_message_eq m :
  trim_message m =
  if has_empty_result_array m then Throw TypeError_type_of_undefined
  else Normal (policy_message m).
Proof.
  unfold trim_message, has_empty_result_array, policy_message.
  destruct (content m) as [s|bs]; [reflexivity|].
  rewrite trim_blocks_eq.
  destruct (existsb empty_result_array bs); reflexivity.
Qed.

Lemma policy_from_snoc later l m :
  policy_from later (l ++ [m]) =
  policy_from (later || is_user m) l
    ++ [if is_user m && later then policy_message m else m].
Proof.
  induction l as [|a l IH]; simpl.
  - now rewrite orb_false_r.
  - rewrite IH, existsb_app. simpl. rewrite orb_false_r.
    replace (later || (existsb is_user l || is_user m))
      with (later || is_user m || existsb is_user l)
      by (destruct later, (is_user m), (existsb is_user l); reflexivity).
    reflexivity.
Qed.

Lemma empty_array_from_snoc later l m :
  empty_array_from later (l ++ [m]) =
  empty_array_from (later || is_user m) l
    || (is_user m && later && has_empty_result_array m).
Proof.
  induction l as [|a l IH]; simpl.
  - now rewrite !orb_false_r.
  - rewrite IH, existsb_app. simpl. rewrite orb_false_r.
    replace (later || (existsb is_user l || is_user m))
      with (later || is_user m || existsb is_user l)
      by (destruct later, (is_user m), (existsb is_user l); reflexivity).
    now rewrite orb_assoc.
Qed.

Lemma walk_history_eq last_user rev_msgs :
  walk_history last_user rev_msgs =
  if empty_array_from (negb last_user) (rev rev_msgs)
  then Throw TypeError_type_of_undefined
  else Normal (rev (policy_from (negb last_user) (rev rev_msgs))).
Proof.
  revert last_user.
  induction rev_msgs as [|m older IH]; intro last_user; [reflexivity|].
  cbn [walk_history rev].
  rewrite policy_from_snoc, empty_array_from_snoc, rev_app_distr.
  fold (is_user m). cbn [rev app].
  destruct (is_user m) eqn:Hu.
  - destruct last_user; cbn [negb orb andb].
    + rewrite IH. cbn [negb]. rewrite orb_false_r.
      destruct (empty_array_from true (rev older)); reflexivity.
    + rewrite trim_message_eq, IH. cbn [negb].
      destruct (has_empty_result_array m).
      * now rewrite orb_true_r.
      * rewrite orb_false_r.
        destruct (empty_array_from true (rev older)); reflexivity.
  - rewrite IH, !orb_false_r. cbn [andb].
    destruct (empty_array_from (negb last_user) (rev older)); reflexivity.
Qed.

Lemma handleHistoryImageMessages_eq messages :
  handleHistoryImageMessages messages =
  if empty_array_in_earlier_user messages
  then Throw TypeError_type_of_undefined
  else Normal (history_policy messages).
Proof.
  unfold handleHistoryImageMessages, empty_array_in_earlier_user, history_policy.
  rewrite walk_history_eq, rev_involutive. cbn [negb].
  destruct (empty_array_from false messages); [reflexivity|].
  now rewrite rev_involutive.
Qed.

Lemma policy_from_length later l :
  List.length (policy_from later l) = List.length l.
Proof. induction l; simpl; congruence. Qed.

Lemma policy_from_nth later l i m :
  nth_error l i = Some m ->
  nth_error (policy_from later l) i =
  Some (if is_user m && (later || existsb is_user (skipn (S i) l))
        then policy_message m else m).
Proof.
  revert i. induction l as [|a l IH]; intros [|i] H; try discriminate.
  - injection H as ->. reflexivity.
  - simpl in H. cbn [policy_from nth_error]. now rewrite (IH i H).
Qed.

Lemma text_only_policy_block b : text_only_block (policy_block b) = true.
Proof.
  destruct b as [t|i n v|i c e|s]; try reflexivity.
  destruct c as [s|[|x tl]]; try reflexivity.
  cbn [policy_block text_only_block]. unfold without_images.
  apply forallb_forall. intros y Hy. now apply filter_In in Hy.
Qed.

Lemma text_only_policy_message m : text_only_message (policy_message m) = true.
Proof.
  unfold policy_message, text_only_message.
  destruct (content m) as [s|bs] eqn:E; [now rewrite E|].
  cbn. apply forallb_forall. intros b Hb.
  apply in_map_iff in Hb as [b0 [<- _]]. apply text_only_policy_block.
Qed.

(** What [policy_block] keeps: the text sub-blocks, in their order. *)
Lemma without_images_text tc :
  Forall (fun b => exists t, b = tr_text t) (without_images tc) /\
  forall t, In (tr_text t) tc <-> In (tr_text t) (without_images tc).
Proof.
  split.
  - apply Forall_forall. intros b Hb. apply filter_In in Hb as [_ Hb].
    destruct b; [discriminate | eauto].
  - intro t. unfold without_images. rewrite filter_In. simpl. tauto.
Qed.

(** C4: after the trimming step every user message but the most recent one
    is the policy's image: each [tool_result] block with a non-empty
    sequence keeps exactly its non-image sub-blocks, so no image is left in
    it; every other message, the most recent user message included, is
    unchanged. *)
Theorem history_images_trimmed (messages messages' : list Message) :
  handleHistoryImageMessages messages = Normal messages' ->
  List.length messages' = List.length messages /\
  forall i m, nth_error messages i = Some m ->
    exists m', nth_error messages' i = Some m' /\
      if is_user m && existsb is_user (skipn (S i) messages)
      then m' = policy_message m /\ text_only_message m' = true
      else m' = m.
Proof.
  rewrite handleHistoryImageMessages_eq.
  destruct (empty_array_in_earlier_user messages); [discriminate|].
  intros [= <-]. unfold history_policy. split.
  - apply policy_from_length.
  - intros i m H. rewrite (policy_from_nth false _ _ H). cbn [orb].
    eexists. split; [reflexivity|].
    destruct (is_user m && existsb is_user (skipn (S i) messages)).
    + split; [reflexivity | apply text_only_policy_message].
    + reflexivity.
Qed.

Lemma has_empty_result_array_iff m :
  has_empty_result_array m = true <->
  exists bs id e, content m = CArray bs /\ In (tool_result id (TRArray []) e) bs.
Proof.
  unfold has_empty_result_array. split.
  - destruct (content m) as [s|bs]; [discriminate|].
    intro H. apply existsb_exists in H as [b [Hin Hb]].
    destruct b as [t|i n v|i c e|s]; try discriminate.
    destruct c as [s|[|x tl]]; try discriminate. eauto.
  - intros (bs & id & e & -> & Hin).
    apply existsb_exists. eexists. split; [exact Hin | reflexivity].
Qed.

Lemma is_user_iff m : is_user m = true <-> role m = user.
Proof. unfold is_user. destruct (role m); simpl; split; congruence. Qed.

Lemma empty_array_in_earlier_user_iff messages :
  empty_array_in_earlier_user messages = true <-> EarlierUserEmptyArray messages.
Proof.
  unfold empty_array_in_earlier_user, EarlierUserEmptyArray.
  induction messages as [|a l IH]; simpl.
  - split; [discriminate|]. intros (i & m & bs & id & e & H & _).
    destruct i; discriminate.
  - rewrite orb_true_iff, !andb_true_iff, IH, has_empty_result_array_iff,
      is_user_iff. split.
    + intros [[[Hu Hl] (bs & id & e & Hc & Hin)] | (i & m & bs & id & e & H)].
      * exists 0%nat, a, bs, id, e. simpl. auto.
      * exists (S i), m, bs, id, e. exact H.
    + intros (i & m & bs & id & e & Hn & Hu & Hl & Hc & Hin).
      destruct i as [|i].
      * injection Hn as ->. left. simpl in Hl. eauto 8.
      * right. exists i, m, bs, id, e. auto.
Qed.

(** C10: the function throws a TypeError exactly on the histories that hold,
    in a user message other than the most recent one, a [tool_result] block
    whose content is an empty array; on all others it completes. *)
Theorem handleHistoryImageMessages_partial (messages : list Message) :
  (EarlierUserEmptyArray messages ->
   handleHistoryImageMessages messages
   = Throw (ErrorObject "Cannot read properties of undefined (reading 'type')"))
  /\
  (~ EarlierUserEmptyArray messages ->
   exists messages', handleHistoryImageMessages messages = Normal messages').
Proof.
  rewrite handleHistoryImageMessages_eq, <- empty_array_in_earlier_user_iff.
  destruct (empty_array_in_earlier_user messages); split; intro H.
  - reflexivity.
  - now elim H.
  - discriminate.
  - eauto.
Qed.

(** ** Stream normalizer *)

Section StreamProperties.
Variable JSON_parse : Value -> Completion Value.

Lemma stream_loop_app cur events rest calls next :
  stream_loop JSON_parse cur events = (calls, Normal next) ->
  stream_loop JSON_parse cur (events ++ rest) =
  (calls ++ fst (stream_loop JSON_parse next rest),
   snd (stream_loop JSON_parse next rest)).
Proof.
  revert cur calls. induction events as [|ev events IH]; intros cur calls H.
  - injection H as <- <-. simpl. now destruct (stream_loop JSON_parse cur rest).
  - cbn [stream_loop app] in *.
    destruct (stream_step JSON_parse cur ev) as [[c n]|e]; [|discriminate].
    destruct (stream_loop JSON_parse n events) as [c' f] eqn:E.
    injection H as <- ->. rewrite (IH _ _ E).
    now rewrite app_assoc.
Qed.

(** The deltas of a block only grow the accumulator. *)
Lemma stream_loop_fragments id name fragments accumulated :
  stream_loop JSON_parse (Some (mkPartialToolUse id name accumulated))
    (map (fun f => content_block_delta (input_json_delta f)) fragments)
  = ([], Normal (Some (mkPartialToolUse id name (accumulate fragments accumulated)))).
Proof.
  revert accumulated. induction fragments as [|f fs IH]; intro acc.
  - reflexivity.
  - cbn [map stream_loop stream_step]. cbn [partial_id partial_name accumulatedJson].
    now rewrite IH.
Qed.


(** When the accumulated text is not JSON, the loop ends with what
    [JSON.parse] threw and [onToolUse] is not called. *)
Lemma tool_use_block_not_json cur id name fragments e rest :
  JSON_parse (VString (json_or_empty_object (accumulate fragments ""))) = Throw e ->
  stream_loop JSON_parse cur (tool_use_block id name fragments ++ rest)
  = ([], Throw e).
Proof.
  intro Hparse. unfold tool_use_block.
  cbn [app stream_loop stream_step].
  rewrite <- app_assoc.
  rewrite (stream_loop_app _ _ _ (stream_loop_fragments id name fragments "")).
  cbn [app stream_loop stream_step accumulatedJson partial_id partial_name].
  rewrite Hparse. reflexivity.
Qed.

(** The whole call on a stream that is one tool-use block: [onStart], the
    tool call, [onComplete]. *)
Lemma generateStream_one_block self n messages params request
      id name fragments input message :
  stream_request self messages params = Normal request ->
  stream_events (client_stream self n request) = tool_use_block id name fragments ->
  stream_final (client_stream self n request) = Normal message ->
  JSON_parse (VString (json_or_empty_object (accumulate fragments ""))) = Normal input ->
  generateStream JSON_parse self n messages params
  = Normal [onStart; onToolUse (mkToolCall id name input);
            onComplete (processResponse message)].
Proof.
  intros Hreq Hev Hfin Hparse. unfold generateStream. rewrite Hreq, Hev, Hfin.
  unfold tool_use_block. cbn [stream_loop stream_step].
  rewrite (stream_loop_app _ _ _ (stream_loop_fragments id name fragments "")).
  cbn [app stream_loop stream_step accumulatedJson partial_id partial_name fst snd].
  rewrite Hparse. reflexivity.
Qed.

End StreamProperties.

(** ** Maps *)

Section MapFacts.
Variables (K V : Type) (eqb : K -> K -> bool).

Lemma map_get_set_same (k : K) (v : V) (m : JSMap K V) :
  eqb k k = true -> map_get eqb k (map_set eqb k v m) = Some v.
Proof.
  intro Hk. induction m as [|[k' v'] m IH]; simpl.
  - now rewrite Hk.
  - destruct (eqb k' k) eqn:E; simpl; now rewrite E.
Qed.

Lemma map_get_delete_same (k : K) (m : JSMap K V) :
  map_get eqb k (map_delete eqb k m) = None.
Proof.
  induction m as [|[k' v'] m IH]; simpl; [reflexivity|].
  destruct (eqb k' k) eqn:E; simpl; [exact IH | now rewrite E].
Qed.
End MapFacts.

Lemma find_app_first {A : Type} (f : A -> bool) (l1 l2 : list A) :
  find f (l1 ++ l2) =
  match find f l1 with Some x => Some x | None => find f l2 end.
Proof.
  induction l1 as [|a l1 IH]; simpl; [reflexivity|]. now destruct (f a).
Qed.

Lemma last_named_app n l1 l2 :
  last_named n (l1 ++ l2) =
  match last_named n l2 with Some t => Some t | None => last_named n l1 end.
Proof. unfold last_named. now rewrite rev_app_distr, find_app_first. Qed.

Lemma toolMap_get_set (n k : string) (t : Tool) (m : JSMap string Tool) :
  toolMap_get n (map_set String.eqb k t m) =
  if (k =? n)%string then Some t else toolMap_get n m.
Proof.
  unfold toolMap_get. induction m as [|[k' t'] m IH]; simpl.
  - reflexivity.
  - destruct (String.eqb_spec k' k) as [->|Hne]; simpl.
    + now destruct (k =? n)%string.
    + destruct (String.eqb_spec k' n) as [->|Hn].
      * destruct (String.eqb_spec k n) as [->|_]; [now elim Hne | reflexivity].
      * exact IH.
Qed.

(** Registering a list of tools: for each name the last one registered
    under it is the one found. *)
Lemma toolMap_get_set_all (n : string) (l : list Tool) (m : JSMap string Tool) :
  toolMap_get n (set_all l m) =
  match last_named n l with
  | Some t => Some t
  | None => toolMap_get n m
  end.
Proof.
  unfold last_named. revert m. induction l as [|t l IH]; intro m.
  - reflexivity.
  - cbn [set_all fold_left]. fold (set_all l (map_set String.eqb (name t) t m)).
    rewrite IH. cbn [rev]. rewrite find_app_first.
    destruct (find (fun t0 => (name t0 =? n)%string) (rev l)); [reflexivity|].
    cbn [find]. rewrite toolMap_get_set.
    now destruct (name t =? n)%string.
Qed.

Lemma set_all_app l1 l2 m : set_all (l1 ++ l2) m = set_all l2 (set_all l1 m).
Proof. apply fold_left_app. Qed.

Section ToolProperties.
Variable JSON_parse : Value -> Completion Value.

Lemma build_toolMap_registration self context outputSchema :
  build_toolMap self context (createReturnTool outputSchema) =
  set_all (registration_order self context (createReturnTool outputSchema)) [].
Proof.
  unfold build_toolMap, registration_order.
  rewrite !set_all_app. destruct (context_tools context); reflexivity.
Qed.

(** C9, as the code has it: the registry is filled in the order declared
    tools, [write_context], context tools, [return_output], and for every
    name the last tool registered under it is the one the registry
    returns.  So [return_output] always names the synthetic tool, and
    [write_context] names the last context tool of that name when there is
    one, the synthetic tool otherwise. *)
Theorem registry_last_registration_wins
        (aname adescription : string) (declared : list Tool)
        (llmProvider : ClaudeProvider) (llmConfig : option LLMParameters)
        (config_maxRounds : option Z) (context : ExecutionContext)
        (outputSchema : Value) :
  let self := new_ActionImpl JSON_parse aname adescription declared
                             llmProvider llmConfig config_maxRounds in
  let returnTool := createReturnTool outputSchema in
  let context_supplied :=
    match context_tools context with Some ts => ts | None => [] end in
  let registry := build_toolMap self context returnTool in
  (forall n,
      toolMap_get n registry =
      last_named n (declared ++ [WriteContextTool JSON_parse]
                      ++ context_supplied ++ [returnTool]))
  /\ toolMap_get "return_output" registry = Some returnTool
  /\ toolMap_get "write_context" registry =
     match last_named "write_context" context_supplied with
     | Some t => Some t
     | None => Some (WriteContextTool JSON_parse)
     end.
Proof.
  intros self returnTool context_supplied registry.
  assert (H : forall n,
             toolMap_get n registry =
             last_named n (declared ++ [WriteContextTool JSON_parse]
                             ++ context_supplied ++ [returnTool])).
  { intro n. subst registry returnTool context_supplied self.
    rewrite build_toolMap_registration, toolMap_get_set_all.
    unfold registration_order. cbn [tools new_ActionImpl].
    rewrite <- app_assoc.
    now destruct (last_named n _). }
  split; [exact H|]. split.
  - rewrite H. rewrite !last_named_app. reflexivity.
  - rewrite H. rewrite !last_named_app.
    change (last_named "write_context" [returnTool]) with (@None Tool).
    cbv iota.
    destruct (last_named "write_context" context_supplied); reflexivity.
Qed.

(** C8: [write_context] called with key [k] and string [v] leaves under
    [k] the value [v] parses to when [v] is JSON, the string [v] itself
    when it is not. *)
Theorem write_context_stores
        (params : Value) (k v : string) (c : ContextState) :
  get_prop params "key" = Normal (VString k) ->
  get_prop params "value" = Normal (VString v) ->
  let c' := snd (execute (WriteContextTool JSON_parse) params c) in
  (forall parsed, JSON_parse (VString v) = Normal parsed ->
                  map_get SameValueZero (VString k) (variables c') = Some parsed)
  /\
  (forall e, JSON_parse (VString v) = Throw e ->
             map_get SameValueZero (VString k) (variables c') = Some (VString v)).
Proof.
  intros Hk Hv c'.
  assert (Hd : forall p, destructure params p = get_prop params p).
  { intro p. destruct params; try reflexivity; discriminate. }
  assert (Hrefl : SameValueZero (VString k) (VString k) = true)
    by apply String.eqb_refl.
  unfold c'. cbn [execute WriteContextTool].
  unfold WriteContextTool_execute, bind, lift, ret.
  rewrite !Hd, Hk, Hv.
  split; intros x Hx; rewrite Hx; cbn;
    now apply map_get_set_same.
Qed.

(** [return_output] stores its [value] under the reserved key. *)
Lemma return_output_stores (outputSchema params v : Value) (c : ContextState) :
  get_prop params "value" = Normal v ->
  map_get SameValueZero (VString "__action_output")
          (variables (snd (execute (createReturnTool outputSchema) params c)))
  = Some v.
Proof.
  intro Hv.
  assert (Hd : destructure params "value" = get_prop params "value")
    by (destruct params; try reflexivity; discriminate).
  cbn [execute createReturnTool].
  unfold return_output_execute, bind, lift, ret. rewrite Hd, Hv. cbn.
  now apply map_get_set_same.
Qed.

End ToolProperties.

(** ** The round executor *)

Section RoundProperties.
Variable JSON_parse : Value -> Completion Value.
Variable JSON_stringify : Value -> string.
Variable resolves_after : nat -> nat.

Lemma resultMessage_shape toolCall result m :
  resultMessage JSON_stringify toolCall result = Normal m ->
  is_tool_result_message m.
Proof.
  unfold resultMessage, tool_result_message.
  destruct (get_prop result "image") as [img|]; [|discriminate].
  destruct (if truthy img then get_prop img "type" else Normal img) as [ty|];
    [|discriminate].
  destruct (truthy ty).
  - destruct (get_prop result "text"); [|discriminate].
    intros [= <-]. red. eauto.
  - intros [= <-]. red. eauto.
Qed.

(** The unit always hands over a [tool_result] message of the user role. *)
Lemma tool_unit_shape context tool toolCall c :
  is_tool_result_message (fst (tool_unit JSON_stringify context tool toolCall c)).
Proof.
  unfold tool_unit.
  destruct (tool_unit_try JSON_stringify context tool toolCall c) as [[m|e] c'] eqn:E;
    cbn [fst]; [|red; unfold errorResult, tool_result_message; eauto].
  revert E. unfold tool_unit_try, bind, update, get_state, ret, lift.
  destruct (run_hook _ tool (call_input toolCall) _) as [[input|] c1]; [|discriminate].
  destruct (__skip c1 || __abort c1).
  - intros [= <- _]. red. unfold skip_result, tool_result_message. eauto.
  - destruct (execute tool input c1) as [[result|] c2]; [|discriminate].
    destruct (run_hook _ tool result c2) as [[result'|] c3]; [|discriminate].
    destruct (resultMessage JSON_stringify toolCall result') eqn:R; [|discriminate].
    intros [= <- _]. eapply resultMessage_shape; eauto.
Qed.

Lemma last_launched_app r evs evs' :
  last_launched r (evs ++ evs') =
  match last_launched r evs' with
  | Some p => Some p
  | None => last_launched r evs
  end.
Proof.
  induction evs as [|e evs IH]; simpl.
  - now destruct (last_launched r evs').
  - rewrite IH. now destruct (last_launched r evs').
Qed.

Lemma resolve_units_spec context r units :
  forall st rv units' st' rv' evs,
    resolve_units JSON_stringify context r units st rv = (units', st', rv', evs) ->
    (assistantTextMessage rv' = assistantTextMessage rv
     /\ toolUseMessage rv' = toolUseMessage rv
     /\ hasToolUse rv' = hasToolUse rv
     /\ toolExecutionPromise rv' = toolExecutionPromise rv
     /\ response rv' = response rv)
    /\ (toolResultMessage rv' = toolResultMessage rv
        \/ exists m u, toolResultMessage rv' = Some m
                       /\ is_tool_result_message m
                       /\ In u units /\ unit_round u = r)
    /\ (forall u', In u' units' -> exists u, In u units /\ waited u u')
    /\ (forall u, In u units ->
                  (unit_wait u = O
                   /\ In (UnitResolved (unit_round u) (unit_promise u)) evs
                   /\ (unit_round u = r -> toolResultMessage rv' <> None))
                  \/ exists u', In u' units' /\ waited u u')
    /\ (forall e, In e evs -> exists r' p', e = UnitResolved r' p').
Proof.
  induction units as [|u rest IH]; intros st rv units' st' rv' evs H.
  - injection H as <- <- <- <-. repeat split; auto; try (intros ? []).
  - cbn [resolve_units] in H.
    destruct (unit_wait u) as [|k] eqn:Hw.
    + destruct (tool_unit JSON_stringify context (unit_tool u) (unit_call u) st)
        as [m st1] eqn:Hu.
      pose proof (tool_unit_shape context (unit_tool u) (unit_call u) st)
        as Hshape. rewrite Hu in Hshape. cbn [fst] in Hshape.
      destruct (resolve_units JSON_stringify context r rest st1
                  (if (unit_round u =? r)%nat then set_toolResultMessage m rv else rv))
        as [[[rest' st2] rv2] evs2] eqn:E.
      injection H as <- <- <- <-.
      destruct (IH _ _ _ _ _ _ E) as (Hf & Hres & Hrem & Hprog & Hev).
      assert (Hframe : forall rv0, rv0 = (if (unit_round u =? r)%nat
                                         then set_toolResultMessage m rv else rv) ->
                assistantTextMessage rv0 = assistantTextMessage rv
                /\ toolUseMessage rv0 = toolUseMessage rv
                /\ hasToolUse rv0 = hasToolUse rv
                /\ toolExecutionPromise rv0 = toolExecutionPromise rv
                /\ response rv0 = response rv).
      { intros rv0 ->. destruct (unit_round u =? r)%nat; repeat split. }
      destruct (Hframe _ eq_refl) as (F1 & F2 & F3 & F4 & F5).
      destruct Hf as (G1 & G2 & G3 & G4 & G5).
      split; [repeat split; congruence|].
      split.
      { destruct Hres as [Hsame | (m' & u' & Hm & Hs & Hin & Hr)].
        - destruct (Nat.eqb_spec (unit_round u) r) as [Hr|Hr].
          + right. exists m, u. rewrite Hsame. cbn. auto.
          + left. exact Hsame.
        - right. exists m', u'. cbn. auto. }
      split; [intros u' Hin; destruct (Hrem u' Hin) as (u0 & ? & ?);
              exists u0; cbn; auto|].
      split.
      { intros u0 [<-|Hin].
        - left. split; [assumption|]. split; [now left|]. intro Hr.
          apply Nat.eqb_eq in Hr. rewrite Hr in *.
          destruct Hres as [Hsame | (m' & _ & Hm & _)].
          + rewrite Hsame. discriminate.
          + rewrite Hm. discriminate.
        - destruct (Hprog u0 Hin) as [(Hw0 & Hin' & Hr)|Hex].
          + left. split; [assumption|]. split; [now right | exact Hr].
          + right. exact Hex. }
      intros e [<-|Hin]; eauto.
    + destruct (resolve_units JSON_stringify context r rest st rv)
        as [[[rest' st2] rv2] evs2] eqn:E.
      injection H as <- <- <- <-.
      destruct (IH _ _ _ _ _ _ E) as (Hf & Hres & Hrem & Hprog & Hev).
      split; [exact Hf|]. split.
      { destruct Hres as [Hsame | (m' & u' & Hm & Hs & Hin & Hr)];
          [now left | right; exists m', u'; cbn; auto]. }
      split.
      { intros u' [<-|Hin].
        - exists u. split; [now left|]. red. cbn. auto.
        - destruct (Hrem u' Hin) as (u0 & ? & ?). exists u0. cbn. auto. }
      split.
      { intros u0 [<-|Hin].
        - right. eexists. split; [now left|]. red. cbn. auto.
        - destruct (Hprog u0 Hin) as [(Hw0 & Hin' & Hr)|(u' & Hin' & Hw')].
          + left. auto.
          + right. exists u'. cbn. auto. }
      exact Hev.
Qed.

Lemma no_launch_in_resolutions r evs :
  (forall e, In e evs -> exists r' p', e = UnitResolved r' p') ->
  last_launched r evs = None.
Proof.
  induction evs as [|e evs IH]; intro H; [reflexivity|].
  cbn. rewrite IH by (intros; apply H; now right).
  destruct (H e (or_introl eq_refl)) as (r' & p' & ->). reflexivity.
Qed.

(** A turn keeps the round invariant; it logs resolutions only and leaves
    everything but the pool, the context and [toolResultMessage] alone. *)
Lemma turn_inv context r t0 evs w rv w' rv' :
  RoundInv r t0 evs w rv ->
  turn JSON_stringify context r (w, rv) = (w', rv') ->
  exists evs',
    RoundInv r t0 (evs ++ evs') w' rv'
    /\ (forall e, In e evs' -> exists r' p', e = UnitResolved r' p')
    /\ toolExecutionPromise rv' = toolExecutionPromise rv
    /\ (toolResultMessage rv <> None -> toolResultMessage rv' <> None)
    /\ (forall u, In u (pool w) ->
                  (unit_wait u = O
                   /\ In (UnitResolved (unit_round u) (unit_promise u)) evs'
                   /\ (unit_round u = r -> toolResultMessage rv' <> None))
                  \/ exists u', In u' (pool w') /\ waited u u').
Proof.
  intros I H. unfold turn in H.
  destruct (resolve_units JSON_stringify context r (pool w) (state w) rv)
    as [[[units' st'] rv1] evs'] eqn:E.
  injection H as <- <-.
  destruct (resolve_units_spec _ _ _ _ _ E)
    as ((F1 & F2 & F3 & F4 & F5) & Hres & Hrem & Hprog & Hev).
  destruct I.
  assert (Hmono : toolResultMessage rv <> None -> toolResultMessage rv1 <> None).
  { destruct Hres as [-> | (m & _ & -> & _)]; [auto | discriminate]. }
  exists evs'. split; [|split; [exact Hev|]; split; [exact F4|]; split; [exact Hmono|exact Hprog]].
  constructor; cbn [trace rounds pool launched state].
  - now rewrite inv_trace0, app_assoc.
  - assumption.
  - intros u' Hin. destruct (Hrem u' Hin) as (u & Hu & Hr & Hp & _).
    rewrite Hr, Hp. auto.
  - intros u' Hin Hr. rewrite F2.
    destruct (Hrem u' Hin) as (u & Hu & Hr' & _).
    apply (inv_launched0 u Hu). congruence.
  - rewrite F2. destruct Hres as [-> | (m & u & _ & _ & Hin & Hr)]; [auto|].
    intros _. now apply (inv_launched0 u).
  - now rewrite F2, F3.
  - rewrite F4, last_launched_app, (no_launch_in_resolutions r _ Hev). assumption.
  - now rewrite F2, F4.
  - intros p u' Hp Hin Hu'. rewrite F4 in Hp.
    destruct (Hrem u' Hin) as (u & Hu & Hr & Hpp & _).
    rewrite Hr. apply (inv_own0 p u Hp Hu). congruence.
  - intros p Hp. rewrite F4 in Hp.
    destruct (inv_progress0 p Hp) as [[Hin Hne] | (u & Hin & Hu)].
    + left. split; [apply in_or_app; now left | auto].
    + pose proof (inv_own0 p u Hp Hin Hu) as Hr.
      destruct (Hprog u Hin) as [(_ & Hin' & Hne) | (u' & Hin' & _ & Hp' & _)].
      * left. rewrite Hr, Hu in Hin'. split; [apply in_or_app; now right | auto].
      * right. exists u'. split; [assumption | congruence].
  - now rewrite F2.
  - intros m Hm. destruct Hres as [Hsame | (m' & _ & Hm' & Hs & _)].
    + apply inv_result_shape0. congruence.
    + congruence.
Qed.

Lemma log_inv r t0 evs w rv e :
  RoundInv r t0 evs w rv ->
  last_launched r [e] = None ->
  RoundInv r t0 (evs ++ [e]) (log e w) rv.
Proof.
  intros [] He. constructor; cbn [log trace rounds pool launched state]; auto.
  - now rewrite inv_trace0, app_assoc.
  - now rewrite last_launched_app, He.
  - intros p Hp. destruct (inv_progress0 p Hp) as [[Hin Hne]|Hex]; [left|right; auto].
    split; [apply in_or_app; now left | assumption].
Qed.

Lemma dispatch_inv toolMap r t0 evs w rv call w' rv' :
  RoundInv r t0 evs w rv ->
  dispatch resolves_after toolMap r call (w, rv) = (w', rv') ->
  exists evs', RoundInv r t0 (evs ++ evs') w' rv'.
Proof.
  intros I H. destruct call as [|c|tc|resp|err]; cbn [dispatch fst snd] in H.
  - injection H as <- <-. exists []. now rewrite app_nil_r.
  - injection H as <- <-. exists []. rewrite app_nil_r.
    unfold handler_onContent. destruct (has_visible_char c); [|assumption].
    destruct I. constructor; auto.
  - unfold handler_onToolUse in H.
    destruct (toolMap_get (call_name tc) toolMap) as [tool|].
    + injection H as <- <-. exists [UnitLaunched r (launched w)].
      destruct I.
      constructor;
        cbn [trace rounds pool launched state toolUseMessage toolResultMessage
             hasToolUse toolExecutionPromise assistantTextMessage response].
      * now rewrite inv_trace0, app_assoc.
      * assumption.
      * intros u Hin. apply in_app_or in Hin as [Hin|[<-|[]]].
        -- destruct (inv_promises0 u Hin). split; lia.
        -- cbn. split; lia.
      * discriminate.
      * discriminate.
      * reflexivity.
      * rewrite last_launched_app. cbn. now rewrite Nat.eqb_refl.
      * split; discriminate.
      * intros p u [= <-] Hin Hp. apply in_app_or in Hin as [Hin|[<-|[]]].
        -- destruct (inv_promises0 u Hin). lia.
        -- reflexivity.
      * intros p [= <-]. right. eexists. split.
        -- apply in_or_app. right. now left.
        -- reflexivity.
      * intros m [= <-]. red. eauto.
      * assumption.
    + injection H as <- <-. exists []. rewrite app_nil_r.
      destruct I. constructor; auto.
  - injection H as <- <-. exists []. rewrite app_nil_r.
    destruct I. constructor; auto.
  - injection H as <- <-. exists []. now rewrite app_nil_r.
Qed.

Lemma consume_inv context toolMap r t0 calls :
  forall evs w rv w' rv',
    RoundInv r t0 evs w rv ->
    consume JSON_stringify resolves_after context toolMap r calls (w, rv) = (w', rv') ->
    exists evs', RoundInv r t0 (evs ++ evs') w' rv'.
Proof.
  induction calls as [|call rest IH]; intros evs w rv w' rv' I H.
  - injection H as <- <-. exists []. now rewrite app_nil_r.
  - cbn [consume] in H.
    destruct (turn JSON_stringify context r (w, rv)) as [w1 rv1] eqn:T.
    destruct (turn_inv _ I T) as (e1 & I1 & _).
    destruct (dispatch resolves_after toolMap r call (w1, rv1)) as [w2 rv2] eqn:D.
    destruct (dispatch_inv _ _ I1 D) as (e2 & I2).
    destruct (IH _ _ _ _ _ I2 H) as (e3 & I3).
    exists (e1 ++ e2 ++ e3). now rewrite !app_assoc in *.
Qed.

Lemma only_resolutions_app a b :
  only_resolutions a -> only_resolutions b -> only_resolutions (a ++ b).
Proof. intros Ha Hb e H. apply in_app_or in H as [H|H]; auto. Qed.

(** A unit of the round that waits [k] turns has resolved after [k + 1]
    turns. *)
Lemma turns_resolve context r t0 p k :
  forall evs w rv u w' rv',
    RoundInv r t0 evs w rv ->
    toolExecutionPromise rv = Some p ->
    In u (pool w) -> unit_promise u = p -> unit_wait u = k ->
    Nat.iter (S k) (turn JSON_stringify context r) (w, rv) = (w', rv') ->
    exists evs',
      RoundInv r t0 (evs ++ evs') w' rv'
      /\ only_resolutions evs'
      /\ toolExecutionPromise rv' = Some p
      /\ In (UnitResolved r p) evs'
      /\ toolResultMessage rv' <> None.
Proof.
  induction k as [|k IH]; intros evs w rv u w' rv' I Hp Hin Hu Hw H.
  - change (turn JSON_stringify context r (w, rv) = (w', rv')) in H.
    destruct (turn_inv _ I H) as (e1 & I1 & R1 & P1 & _ & Hprog).
    assert (Hr : unit_round u = r)
      by exact (@inv_own r t0 evs w rv I p u Hp Hin Hu).
    destruct (Hprog u Hin) as [(_ & Hres & Hne) | (u' & _ & _ & _ & Hw')];
      [|rewrite Hw in Hw'; discriminate].
    exists e1. rewrite Hr, Hu in Hres.
    split; [exact I1|]. split; [exact R1|]. split; [congruence|].
    split; [exact Hres | auto].
  - rewrite Nat.iter_succ_r in H.
    destruct (turn JSON_stringify context r (w, rv)) as [w1 rv1] eqn:T.
    destruct (turn_inv _ I T) as (e1 & I1 & R1 & P1 & Hmono & Hprog).
    assert (Hp1 : toolExecutionPromise rv1 = Some p) by congruence.
    destruct (Hprog u Hin) as [(Hw0 & _) | (u' & Hin' & Hr' & Hp' & Hw')];
      [rewrite Hw in Hw0; discriminate|].
    assert (Hw1 : unit_wait u' = k) by lia.
    destruct (IH _ _ _ u' _ _ I1 Hp1 Hin' (eq_trans Hp' Hu) Hw1 H)
      as (e2 & I2 & R2 & P2 & Hres & Hne).
    exists (e1 ++ e2). rewrite app_assoc.
    split; [exact I2|]. split; [now apply only_resolutions_app|].
    split; [exact P2|]. split; [apply in_or_app; now right | exact Hne].
Qed.

(** [await toolExecutionPromise] returns after the unit has resolved. *)
Lemma await_unit_inv context r t0 p evs w rv w' rv' :
  RoundInv r t0 evs w rv ->
  toolExecutionPromise rv = Some p ->
  await_unit JSON_stringify context r p (w, rv) = (w', rv') ->
  exists evs',
    RoundInv r t0 (evs ++ evs') w' rv'
    /\ only_resolutions evs'
    /\ In (UnitResolved r p) (evs ++ evs')
    /\ toolResultMessage rv' <> None.
Proof.
  intros I Hp H. unfold await_unit, pending_wait in H. cbn [fst] in H.
  destruct (find (fun u => (unit_promise u =? p)%nat) (pool w)) as [u|] eqn:F.
  - apply find_some in F as [Hin Hu]. apply Nat.eqb_eq in Hu.
    change (turn JSON_stringify context r
              (Nat.iter (S (unit_wait u)) (turn JSON_stringify context r) (w, rv))
            = (w', rv')) in H.
    destruct (Nat.iter (S (unit_wait u)) (turn JSON_stringify context r) (w, rv))
      as [w1 rv1] eqn:E1.
    destruct (turns_resolve _ _ I Hp Hin Hu eq_refl E1)
      as (e1 & I1 & R1 & P1 & Hres & Hne).
    destruct (turn_inv _ I1 H) as (e2 & I2 & R2 & _ & Hmono & _).
    exists (e1 ++ e2). rewrite app_assoc.
    split; [exact I2|]. split; [now apply only_resolutions_app|].
    split; [|auto].
    apply in_or_app. left. apply in_or_app. now right.
  - destruct (@inv_progress r t0 evs w rv I p Hp) as [[Hres Hne] | (u & Hin & Hu)].
    + destruct (turn_inv _ I H) as (e2 & I2 & R2 & _ & Hmono & _).
      exists e2. split; [exact I2|]. split; [exact R2|].
      split; [apply in_or_app; now left | auto].
    + exfalso. apply (find_none _ _ F) in Hin.
      apply Nat.eqb_neq in Hin. contradiction.
Qed.

Lemma initial_inv w :
  wf_world w ->
  RoundInv (rounds w) (trace (start_round w)) [] (start_round w) initial_vars.
Proof.
  intro Hwf. unfold wf_world in Hwf. rewrite Forall_forall in Hwf.
  constructor; cbn; try (intros; discriminate); try tauto; try lia.
  - now rewrite app_nil_r.
  - intros u Hin. destruct (Hwf u Hin). split; lia.
  - intros u Hin Hr. destruct (Hwf u Hin). lia.
Qed.




(** The state in which the round assembles its messages. *)
Lemma stream_then_join_inv context toolMap calls w w3 rv3 :
  wf_world w ->
  stream_then_join JSON_stringify resolves_after context toolMap (rounds w)
                   calls (start_round w) = (w3, rv3) ->
  exists evs1 evs2,
    RoundInv (rounds w) (trace (start_round w))
             (evs1 ++ StreamSettled (rounds w) :: evs2) w3 rv3
    /\ only_resolutions evs2
    /\ toolExecutionPromise rv3 = last_launched (rounds w) evs1
    /\ forall p, toolExecutionPromise rv3 = Some p ->
                 In (UnitResolved (rounds w) p) (evs1 ++ evs2)
                 /\ toolResultMessage rv3 <> None.
Proof.
  intros Hwf H. pose proof (initial_inv Hwf) as I0.
  set (r := rounds w) in *. set (t0 := trace (start_round w)) in *.
  unfold stream_then_join in H.
  destruct (consume JSON_stringify resolves_after context toolMap r calls
                    (start_round w, initial_vars)) as [w1 rv1] eqn:C.
  destruct (consume_inv _ _ _ I0 C) as (evs1 & I1). cbn [app] in I1.
  pose proof (@log_inv _ _ _ _ _ (StreamSettled r) I1 eq_refl) as I1'.
  destruct (turn JSON_stringify context r (log (StreamSettled r) w1, rv1))
    as [w2 rv2] eqn:T.
  destruct (turn_inv _ I1' T) as (e2 & I2 & R2 & P2 & _).
  assert (Hl1 : toolExecutionPromise rv2 = last_launched r evs1).
  { rewrite P2. exact (inv_promise I1). }
  assert (Hstrip : forall p l, In (UnitResolved r p) ((evs1 ++ [StreamSettled r]) ++ l) ->
                               In (UnitResolved r p) (evs1 ++ l)).
  { intros p l Hin. apply in_app_or in Hin as [Hin|Hin].
    - apply in_app_or in Hin as [Hin|[Hin|[]]]; [|discriminate].
      apply in_or_app. now left.
    - apply in_or_app. now right. }
  destruct (toolExecutionPromise rv2) as [p|] eqn:Hp.
  - destruct (await_unit_inv _ I2 Hp H) as (e3 & I3 & R3 & Hres & Hne).
    exists evs1, (e2 ++ e3).
    assert (Hp3 : toolExecutionPromise rv3 = Some p).
    { rewrite (inv_promise I3), !last_launched_app.
      rewrite (no_launch_in_resolutions r _ R3), (no_launch_in_resolutions r _ R2).
      cbn. now rewrite <- Hl1. }
    split; [|split; [now apply only_resolutions_app|split; [congruence|]]].
    + replace (evs1 ++ StreamSettled r :: e2 ++ e3)
        with (((evs1 ++ [StreamSettled r]) ++ e2) ++ e3)
        by (now rewrite <- !app_assoc).
      exact I3.
    + intros p' Hp'. assert (p' = p) as -> by congruence.
      split; [|exact Hne]. apply Hstrip. now rewrite app_assoc.
  - injection H as <- <-. exists evs1, e2.
    split; [|split; [exact R2|split; [congruence|]]].
    + replace (evs1 ++ StreamSettled r :: e2)
        with ((evs1 ++ [StreamSettled r]) ++ e2)
        by (now rewrite <- !app_assoc).
      exact I2.
    + intros p' Hp'. congruence.
Qed.

(** Rounds keep the world well formed and count themselves, however they
    end. *)
Lemma executeSingleRound_wf self messages params toolMap context w out w' :
  wf_world w ->
  executeSingleRound JSON_parse JSON_stringify resolves_after
                     self messages params toolMap context w = (out, w') ->
  wf_world w' /\ rounds w' = S (rounds w).
Proof.
  intros Hwf H.
  assert (Hfin : forall evs w1 rv1,
             RoundInv (rounds w) (trace (start_round w)) evs w1 rv1 ->
             wf_world w1 /\ rounds w1 = S (rounds w)).
  { intros evs w1 rv1 I. split; [|exact (inv_rounds I)].
    unfold wf_world. apply Forall_forall. intros u Hin.
    destruct (@inv_promises _ _ _ _ _ I u Hin).
    rewrite (inv_rounds I). split; lia. }
  unfold executeSingleRound in H.
  destruct (handleHistoryImageMessages messages) as [messages'|];
    [|injection H as <- <-; exact (Hfin _ _ _ (initial_inv Hwf))].
  destruct (generateStream JSON_parse (llmProvider self) (rounds w) messages' params)
    as [calls|]; [|injection H as <- <-; exact (Hfin _ _ _ (initial_inv Hwf))].
  destruct (stream_then_join JSON_stringify resolves_after context toolMap
                             (rounds w) calls (start_round w)) as [w3 rv3] eqn:E.
  destruct (stream_then_join_inv _ _ _ Hwf E) as (evs1 & evs2 & I & _).
  destruct (__abort (state w3)); injection H as <- <-.
  - exact (Hfin _ _ _ I).
  - destruct (Hfin _ _ _ I) as [Hw Hr]. split; [|exact Hr].
    unfold wf_world in *. exact Hw.
Qed.


(** *** What the stream alone decides: text and response *)

Lemma turn_frame context r w rv :
  let s' := turn JSON_stringify context r (w, rv) in
  assistantTextMessage (snd s') = assistantTextMessage rv
  /\ response (snd s') = response rv
  /\ toolUseMessage (snd s') = toolUseMessage rv
  /\ hasToolUse (snd s') = hasToolUse rv
  /\ toolExecutionPromise (snd s') = toolExecutionPromise rv
  /\ rounds (fst s') = rounds w
  /\ launched (fst s') = launched w
  /\ unhandled (fst s') = unhandled w.
Proof.
  unfold turn.
  destruct (resolve_units JSON_stringify context r (pool w) (state w) rv)
    as [[[units' st'] rv1] evs'] eqn:E.
  destruct (resolve_units_spec _ _ _ _ _ E) as ((F1 & F2 & F3 & F4 & F5) & _).
  cbn. auto 10.
Qed.

Lemma iter_turn_frame context r n w rv :
  let s' := Nat.iter n (turn JSON_stringify context r) (w, rv) in
  assistantTextMessage (snd s') = assistantTextMessage rv
  /\ response (snd s') = response rv
  /\ toolUseMessage (snd s') = toolUseMessage rv
  /\ hasToolUse (snd s') = hasToolUse rv
  /\ toolExecutionPromise (snd s') = toolExecutionPromise rv
  /\ rounds (fst s') = rounds w
  /\ launched (fst s') = launched w
  /\ unhandled (fst s') = unhandled w.
Proof.
  induction n as [|n IH]; [cbn; auto 10|].
  cbv zeta in *. rewrite Nat.iter_succ.
  destruct (Nat.iter n (turn JSON_stringify context r) (w, rv)) as [w1 rv1].
  cbn [fst snd] in IH.
  destruct IH as (H1 & H2 & H3 & H4 & H5 & H6 & H7 & H8).
  destruct (turn_frame context r w1 rv1) as (G1 & G2 & G3 & G4 & G5 & G6 & G7 & G8).
  repeat split; congruence.
Qed.

Lemma consume_text_response context toolMap r calls :
  forall w rv,
    let s' := consume JSON_stringify resolves_after context toolMap r calls (w, rv) in
    assistantTextMessage (snd s') = fold_left text_step calls (assistantTextMessage rv)
    /\ response (snd s') = fold_left response_step calls (response rv)
    /\ rounds (fst s') = rounds w.
Proof.
  induction calls as [|call rest IH]; intros w rv; [cbn; auto|].
  cbn [consume fold_left].
  destruct (turn_frame context r w rv) as (G1 & G2 & _ & _ & _ & G6 & _).
  destruct (turn JSON_stringify context r (w, rv)) as [w1 rv1].
  cbn [fst snd] in G1, G2, G6.
  destruct (dispatch resolves_after toolMap r call (w1, rv1)) as [w2 rv2] eqn:D.
  specialize (IH w2 rv2). cbv zeta in IH.
  destruct IH as (H1 & H2 & H3). rewrite H1, H2, H3.
  assert (assistantTextMessage rv2 = text_step (assistantTextMessage rv) call
          /\ response rv2 = response_step (response rv) call
          /\ rounds w2 = rounds w) as (-> & -> & ->); [|auto].
  rewrite <- G1, <- G2, <- G6.
  destruct call as [|c|tc|resp|err]; cbn [dispatch fst snd] in D.
  - injection D as <- <-. auto.
  - injection D as <- <-. unfold handler_onContent. cbn.
    destruct (has_visible_char c); auto.
  - unfold handler_onToolUse in D.
    destruct (toolMap_get (call_name tc) toolMap); injection D as <- <-; auto.
  - injection D as <- <-. auto.
  - injection D as <- <-. auto.
Qed.

Lemma round_text_eq calls : round_text calls = fold_left text_step calls "".
Proof. reflexivity. Qed.

Lemma round_response_eq calls :
  round_response calls = fold_left response_step calls None.
Proof. reflexivity. Qed.

(** The text and the response of a round are those of its stream,
    whatever the tools do; and the round is counted once. *)
Lemma stream_then_join_frame context toolMap r calls w0 :
  let s := stream_then_join JSON_stringify resolves_after context toolMap r calls w0 in
  assistantTextMessage (snd s) = round_text calls
  /\ response (snd s) = round_response calls
  /\ rounds (fst s) = rounds w0.
Proof.
  unfold stream_then_join, round_text, round_response.
  pose proof (consume_text_response context toolMap r calls w0 initial_vars) as H.
  cbv zeta in H.
  destruct (consume JSON_stringify resolves_after context toolMap r calls
                    (w0, initial_vars)) as [w1 rv1].
  cbn [fst snd initial_vars assistantTextMessage response] in H.
  destruct H as (H1 & H2 & H3).
  pose proof (turn_frame context r (log (StreamSettled r) w1) rv1) as G.
  cbv zeta in G.
  destruct (turn JSON_stringify context r (log (StreamSettled r) w1, rv1))
    as [w2 rv2]. cbn [fst snd log rounds] in G.
  destruct G as (G1 & G2 & _ & _ & _ & G6 & _).
  destruct (toolExecutionPromise rv2) as [p|].
  - unfold await_unit. cbn [fst].
    destruct (pending_wait p (pool w2)) as [k|].
    + pose proof (iter_turn_frame context r (S (S k)) w2 rv2) as K.
      cbv zeta in K.
      destruct (Nat.iter (S (S k)) (turn JSON_stringify context r) (w2, rv2))
        as [w3 rv3].
      cbn [fst snd] in *. destruct K as (K1 & K2 & _ & _ & _ & K6 & _).
      repeat split; congruence.
    + pose proof (turn_frame context r w2 rv2) as K. cbv zeta in K.
      destruct (turn JSON_stringify context r (w2, rv2)) as [w3 rv3].
      cbn [fst snd] in *. destruct K as (K1 & K2 & _ & _ & _ & K6 & _).
      repeat split; congruence.
  - cbn [fst snd]. repeat split; congruence.
Qed.

Lemma executeSingleRound_rounds self messages params toolMap context w :
  rounds (snd (executeSingleRound JSON_parse JSON_stringify resolves_after
                                  self messages params toolMap context w))
  = S (rounds w).
Proof.
  unfold executeSingleRound.
  destruct (handleHistoryImageMessages messages) as [messages'|]; [|reflexivity].
  destruct (generateStream JSON_parse (llmProvider self) (rounds w) messages' params)
    as [calls|]; [|reflexivity].
  destruct (stream_then_join_frame context toolMap (rounds w) calls (start_round w))
    as (_ & _ & H).
  destruct (stream_then_join JSON_stringify resolves_after context toolMap
                             (rounds w) calls (start_round w)) as [w3 rv3].
  cbn [fst] in H. destruct (__abort (state w3)); cbn; exact H.
Qed.

End RoundProperties.

(** ** Rounds with at most one tool call *)

Section SingleCallRounds.
Variable JSON_parse : Value -> Completion Value.
Variable JSON_stringify : Value -> string.
Variable resolves_after : nat -> nat.

Local Abbreviation turn' := (turn JSON_stringify).
Local Abbreviation consume' := (consume JSON_stringify resolves_after).

Lemma consume_app context toolMap r a b s :
  consume' context toolMap r (a ++ b) s
  = consume' context toolMap r b (consume' context toolMap r a s).
Proof.
  revert s. induction a as [|call a IH]; intro s; [reflexivity|].
  cbn [app consume]. apply IH.
Qed.

Lemma tool_calls_of_app a b :
  tool_calls_of (a ++ b) = tool_calls_of a ++ tool_calls_of b.
Proof. apply flat_map_app. Qed.

Lemma single_tool_call calls tc :
  tool_calls_of calls = [tc] ->
  exists pre post,
    calls = pre ++ onToolUse tc :: post
    /\ tool_calls_of pre = [] /\ tool_calls_of post = [].
Proof.
  induction calls as [|call calls IH]; [discriminate|].
  destruct call as [|c|tc'|resp|err]; cbn [tool_calls_of flat_map app];
    try (intro H; destruct (IH H) as (pre & post & -> & Hpre & Hpost);
         eexists (_ :: pre), post; repeat split; assumption).
  intros [= -> H]. exists [], calls. repeat split. exact H.
Qed.

(** A predicate on round states that turns and the calls other than
    [onToolUse] preserve holds across a stream without tool calls. *)
Lemma consume_preserves (P : World * RoundVars -> Prop) context toolMap r :
  (forall s, P s -> P (turn' context r s)) ->
  (forall s call, P s -> is_tool_call call = false ->
                  P (dispatch resolves_after toolMap r call s)) ->
  forall calls s,
    tool_calls_of calls = [] -> P s -> P (consume' context toolMap r calls s).
Proof.
  intros Hturn Hdisp. induction calls as [|call calls IH]; intros s Hc Hs;
    [exact Hs|].
  cbn [consume]. apply IH.
  - destruct call; cbn in Hc; try exact Hc. discriminate.
  - apply Hdisp; [now apply Hturn|]. destruct call; try reflexivity. discriminate.
Qed.

Lemma turn_empty_pool context r w rv :
  pool w = [] ->
  turn' context r (w, rv)
  = (mkWorld (state w) [] (launched w) (rounds w) (unhandled w) (trace w ++ []), rv).
Proof. intro H. unfold turn. rewrite H. reflexivity. Qed.

Lemma NoCallYet_turn context r w0 s :
  NoCallYet w0 s -> NoCallYet w0 (turn' context r s).
Proof.
  destruct s as [w rv]. unfold NoCallYet. cbn [fst snd].
  intros (Hp & H). rewrite (turn_empty_pool context r w rv Hp). cbn. tauto.
Qed.

Lemma UnknownCall_turn context r tc w0 s :
  UnknownCall tc w0 s -> UnknownCall tc w0 (turn' context r s).
Proof.
  destruct s as [w rv]. unfold UnknownCall. cbn [fst snd].
  intros (Hp & H). rewrite (turn_empty_pool context r w rv Hp). cbn. tauto.
Qed.

Lemma OneUnit_turn context r tool tc w0 s :
  let out := tool_unit JSON_stringify context tool tc (state w0) in
  OneUnit r tool tc (fst out) (snd out) w0 s ->
  OneUnit r tool tc (fst out) (snd out) w0 (turn' context r s).
Proof.
  intro out. destruct s as [w rv]. unfold OneUnit. cbn [fst snd].
  intros (Hl & Hu & Huse & Hflag & Hp & [(k & Hpool & Hst & Hres) | (Hpool & H)]).
  - unfold turn. rewrite Hpool. cbn [resolve_units unit_wait].
    destruct k as [|k].
    + cbn [unit_tool unit_call unit_round unit_promise]. rewrite Hst.
      fold out. destruct out as [m c']. rewrite Nat.eqb_refl. cbn.
      repeat split; auto.
    + cbn. repeat split; auto. left. exists k. auto.
  - rewrite (turn_empty_pool context r w rv Hpool). cbn. tauto.
Qed.

Lemma dispatch_other toolMap r call w rv :
  is_tool_call call = false ->
  let s' := dispatch resolves_after toolMap r call (w, rv) in
  fst s' = w
  /\ toolUseMessage (snd s') = toolUseMessage rv
  /\ toolResultMessage (snd s') = toolResultMessage rv
  /\ toolExecutionPromise (snd s') = toolExecutionPromise rv
  /\ hasToolUse (snd s') = hasToolUse rv.
Proof.
  destruct call as [|c|tc|resp|err]; intro H; try discriminate; cbn;
    try tauto.
  unfold handler_onContent. destruct (has_visible_char c); cbn; tauto.
Qed.

Lemma NoCallYet_dispatch toolMap r w0 s call :
  NoCallYet w0 s -> is_tool_call call = false ->
  NoCallYet w0 (dispatch resolves_after toolMap r call s).
Proof.
  destruct s as [w rv]. intros H Hc.
  destruct (dispatch_other toolMap r call w rv Hc) as (E & E1 & E2 & E3 & E4).
  unfold NoCallYet in *. rewrite E, E1, E2, E3, E4. exact H.
Qed.

Lemma UnknownCall_dispatch toolMap r tc w0 s call :
  UnknownCall tc w0 s -> is_tool_call call = false ->
  UnknownCall tc w0 (dispatch resolves_after toolMap r call s).
Proof.
  destruct s as [w rv]. intros H Hc.
  destruct (dispatch_other toolMap r call w rv Hc) as (E & E1 & E2 & E3 & E4).
  unfold UnknownCall in *. rewrite E, E1, E2, E3, E4. exact H.
Qed.

Lemma OneUnit_dispatch toolMap r tool tc m c' w0 s call :
  OneUnit r tool tc m c' w0 s -> is_tool_call call = false ->
  OneUnit r tool tc m c' w0 (dispatch resolves_after toolMap r call s).
Proof.
  destruct s as [w rv]. intros H Hc.
  destruct (dispatch_other toolMap r call w rv Hc) as (E & E1 & E2 & E3 & E4).
  unfold OneUnit in *. rewrite E, E1, E2, E3, E4. exact H.
Qed.

Lemma iter_preserves (P : World * RoundVars -> Prop) context r n s :
  (forall s, P s -> P (turn' context r s)) ->
  P s -> P (Nat.iter n (turn' context r) s).
Proof.
  intros Hturn Hs. induction n as [|n IH]; [exact Hs|].
  rewrite Nat.iter_succ. now apply Hturn.
Qed.

Lemma pending_unit_resolves context r tool tc w0 k :
  forall s,
    pool (fst s) = [mkUnit r (launched w0) k tool tc] ->
    pool (fst (Nat.iter (S k) (turn' context r) s)) = [].
Proof.
  induction k as [|k IH]; intros [w rv] Hpool; cbn [fst] in Hpool.
  - change (Nat.iter 1 (turn' context r) (w, rv)) with (turn' context r (w, rv)).
    unfold turn. rewrite Hpool. cbn [resolve_units unit_wait].
    destruct (tool_unit JSON_stringify context _ _ (state w)) as [m c'].
    reflexivity.
  - rewrite Nat.iter_succ_r. apply IH.
    unfold turn. rewrite Hpool. reflexivity.
Qed.

Lemma pool_after_turn_empty context r s :
  pool (fst s) = [] -> pool (fst (turn' context r s)) = [].
Proof.
  destruct s as [w rv]. cbn [fst]. intro H.
  now rewrite (turn_empty_pool context r w rv H).
Qed.

(** The join of a round with one unit: the unit has resolved. *)
Lemma await_one_unit context r tool tc w0 s :
  let out := tool_unit JSON_stringify context tool tc (state w0) in
  OneUnit r tool tc (fst out) (snd out) w0 s ->
  let s' := await_unit JSON_stringify context r (launched w0) s in
  OneUnit r tool tc (fst out) (snd out) w0 s' /\ pool (fst s') = [].
Proof.
  intros out H s'. subst s'. unfold await_unit, pending_wait.
  pose proof H as (_ & _ & _ & _ & _ & [(k & Hpool & _) | (Hpool & _)]).
  - rewrite Hpool. cbn [find unit_promise]. rewrite Nat.eqb_refl. cbn [unit_wait].
    rewrite Nat.iter_succ. split.
    + apply OneUnit_turn. apply iter_preserves; [|exact H].
      intros s0. apply OneUnit_turn.
    + apply pool_after_turn_empty.
      eapply pending_unit_resolves. exact Hpool.
  - rewrite Hpool. cbn [find]. split.
    + now apply OneUnit_turn.
    + now apply pool_after_turn_empty.
Qed.

Lemma NoCallYet_start w : pool w = [] -> NoCallYet (start_round w) (start_round w, initial_vars).
Proof. intro H. unfold NoCallYet. cbn. auto 10. Qed.

Lemma log_keeps (P : World -> Prop) e w :
  (forall st pl la ro un tr tr', P (mkWorld st pl la ro un tr) -> P (mkWorld st pl la ro un tr')) ->
  P w -> P (log e w).
Proof. intros Hp H. destruct w. unfold log. cbn. eapply Hp. exact H. Qed.

(** A round whose stream makes one call, to a registered tool, ends with
    the unit resolved: the context is what the unit left and the unit's
    message is the tool result. *)
Lemma one_unit_join context toolMap calls tc tool w :
  pool w = [] ->
  tool_calls_of calls = [tc] ->
  toolMap_get (call_name tc) toolMap = Some tool ->
  let out := tool_unit JSON_stringify context tool tc (state w) in
  let s := stream_then_join JSON_stringify resolves_after context toolMap
                            (rounds w) calls (start_round w) in
  OneUnit (rounds w) tool tc (fst out) (snd out) (start_round w) s
  /\ pool (fst s) = [].
Proof.
  intros Hpool Hcalls Htool out s. subst s.
  destruct (single_tool_call _ Hcalls) as (pre & post & -> & Hpre & Hpost).
  unfold stream_then_join. rewrite consume_app. cbn [consume].
  set (r := rounds w). set (w0 := start_round w).
  assert (Eturn : forall s0,
             OneUnit r tool tc (fst out) (snd out) w0 s0 ->
             OneUnit r tool tc (fst out) (snd out) w0 (turn' context r s0))
    by (intro s0; exact (@OneUnit_turn context r tool tc w0 s0)).
  assert (H1 : NoCallYet w0 (consume' context toolMap r pre (w0, initial_vars))).
  { apply consume_preserves;
      [intros s0; apply NoCallYet_turn | intros s0 call; apply NoCallYet_dispatch
       | exact Hpre | now apply NoCallYet_start]. }
  apply (NoCallYet_turn context r) in H1.
  destruct (turn' context r (consume' context toolMap r pre (w0, initial_vars)))
    as [w1 rv1].
  assert (H2 : OneUnit r tool tc (fst out) (snd out) w0
                       (dispatch resolves_after toolMap r (onToolUse tc) (w1, rv1))).
  { cbn [dispatch]. unfold handler_onToolUse. rewrite Htool.
    unfold NoCallYet in H1. cbn [fst snd] in H1.
    destruct H1 as (P1 & P2 & P3 & P4 & P5 & P6 & P7 & P8).
    unfold OneUnit. cbn. rewrite P1, P2, P3, P4, P6. cbn.
    repeat split; auto. left. eexists. repeat split. }
  assert (H3 : OneUnit r tool tc (fst out) (snd out) w0
                 (consume' context toolMap r post
                    (dispatch resolves_after toolMap r (onToolUse tc) (w1, rv1)))).
  { apply consume_preserves;
      [exact Eturn | intros s0 call; apply OneUnit_dispatch
       | exact Hpost | exact H2]. }
  destruct (consume' context toolMap r post _) as [w2 rv2].
  assert (H4 : OneUnit r tool tc (fst out) (snd out) w0 (log (StreamSettled r) w2, rv2)).
  { unfold OneUnit in *. cbn [fst snd log launched unhandled pool state] in *. exact H3. }
  apply Eturn in H4.
  destruct (turn' context r (log (StreamSettled r) w2, rv2)) as [w3 rv3].
  pose proof H4 as (_ & _ & _ & _ & Hp & _). cbn [snd] in Hp. rewrite Hp.
  exact (@await_one_unit context r tool tc w0 (w3, rv3) H4).
Qed.

Lemma no_call_join context toolMap calls w :
  pool w = [] ->
  tool_calls_of calls = [] ->
  NoCallYet (start_round w)
            (stream_then_join JSON_stringify resolves_after context toolMap
                              (rounds w) calls (start_round w)).
Proof.
  intros Hpool Hcalls. unfold stream_then_join.
  set (r := rounds w). set (w0 := start_round w).
  assert (H1 : NoCallYet w0 (consume' context toolMap r calls (w0, initial_vars))).
  { apply consume_preserves;
      [intros s0; apply NoCallYet_turn | intros s0 call; apply NoCallYet_dispatch
       | exact Hcalls | now apply NoCallYet_start]. }
  destruct (consume' context toolMap r calls (w0, initial_vars)) as [w1 rv1].
  assert (H2 : NoCallYet w0 (log (StreamSettled r) w1, rv1)).
  { unfold NoCallYet in *. cbn [fst snd log launched unhandled pool state] in *.
    exact H1. }
  apply (NoCallYet_turn context r) in H2.
  destruct (turn' context r (log (StreamSettled r) w1, rv1)) as [w2 rv2].
  pose proof H2 as (_ & _ & _ & _ & _ & _ & Hp & _). cbn [snd] in Hp.
  rewrite Hp. exact H2.
Qed.

Lemma unknown_call_join context toolMap calls tc w :
  pool w = [] ->
  tool_calls_of calls = [tc] ->
  toolMap_get (call_name tc) toolMap = None ->
  UnknownCall tc (start_round w)
              (stream_then_join JSON_stringify resolves_after context toolMap
                                (rounds w) calls (start_round w)).
Proof.
  intros Hpool Hcalls Htool.
  destruct (single_tool_call _ Hcalls) as (pre & post & -> & Hpre & Hpost).
  unfold stream_then_join. rewrite consume_app. cbn [consume].
  set (r := rounds w). set (w0 := start_round w).
  assert (H1 : NoCallYet w0 (consume' context toolMap r pre (w0, initial_vars))).
  { apply consume_preserves;
      [intros s0; apply NoCallYet_turn | intros s0 call; apply NoCallYet_dispatch
       | exact Hpre | now apply NoCallYet_start]. }
  apply (NoCallYet_turn context r) in H1.
  destruct (turn' context r (consume' context toolMap r pre (w0, initial_vars)))
    as [w1 rv1].
  assert (H2 : UnknownCall tc w0
                 (dispatch resolves_after toolMap r (onToolUse tc) (w1, rv1))).
  { cbn [dispatch]. unfold handler_onToolUse. rewrite Htool.
    unfold NoCallYet in H1. cbn [fst snd] in H1.
    destruct H1 as (P1 & P2 & P3 & P4 & P5 & P6 & P7 & P8).
    unfold UnknownCall. cbn. rewrite P4. auto 10. }
  assert (H3 : UnknownCall tc w0
                 (consume' context toolMap r post
                    (dispatch resolves_after toolMap r (onToolUse tc) (w1, rv1)))).
  { apply consume_preserves;
      [intros s0; apply UnknownCall_turn | intros s0 call; apply UnknownCall_dispatch
       | exact Hpost | exact H2]. }
  destruct (consume' context toolMap r post _) as [w2 rv2].
  assert (H4 : UnknownCall tc w0 (log (StreamSettled r) w2, rv2)).
  { unfold UnknownCall in *. cbn [fst snd log launched unhandled pool state] in *.
    exact H3. }
  apply (UnknownCall_turn context r) in H4.
  destruct (turn' context r (log (StreamSettled r) w2, rv2)) as [w3 rv3].
  pose proof H4 as (_ & _ & _ & _ & _ & _ & Hp & _). cbn [snd] in Hp.
  rewrite Hp. exact H4.
Qed.

Local Abbreviation round :=
  (executeSingleRound JSON_parse JSON_stringify resolves_after).

(** The round of a stream with one call to a registered tool. *)
Lemma one_call_round self messages messages' params toolMap context calls tc tool w :
  pool w = [] ->
  handleHistoryImageMessages messages = Normal messages' ->
  generateStream JSON_parse (llmProvider self) (rounds w) messages' params
  = Normal calls ->
  tool_calls_of calls = [tc] ->
  toolMap_get (call_name tc) toolMap = Some tool ->
  let out := tool_unit JSON_stringify context tool tc (state w) in
  exists w',
    round self messages params toolMap context w
    = (if __abort (snd out) then Throw (ErrorObject "Abort")
       else Normal
              (mkRoundResult
                 (round_response calls) true
                 (text_part calls
                    ++ [mkMessage assistant
                          (CArray [tool_use (call_id tc) (name tool) (call_input tc)]);
                        fst out])
                 messages'),
       w')
    /\ state w' = snd out /\ pool w' = [] /\ unhandled w' = unhandled w.
Proof.
  intros Hpool Hh Hg Hcalls Htool out.
  unfold executeSingleRound. rewrite Hh, Hg.
  destruct (@one_unit_join context toolMap calls tc tool w Hpool Hcalls Htool)
    as [Hone Hp].
  pose proof (stream_then_join_frame JSON_stringify resolves_after context toolMap
                (rounds w) calls (start_round w)) as Hf.
  cbv zeta in Hf.
  destruct (stream_then_join JSON_stringify resolves_after context toolMap
                             (rounds w) calls (start_round w)) as [w3 rv3].
  unfold OneUnit in Hone. cbn [fst snd start_round unhandled] in *.
  fold out in Hone.
  destruct Hf as (Ht & Hr & _).
  destruct Hone as (_ & Hun & Huse & Hflag & _ & [(k & Hk & _) | (_ & Hst & Hres)]);
    [congruence|].
  rewrite Hst.
  destruct (__abort (snd out)).
  - exists w3. auto.
  - exists (log (Assembled (rounds w)) w3). cbn [log state pool unhandled].
    split; [|auto].
    unfold assemble, text_part. rewrite Ht, Hr, Huse, Hres, Hflag. reflexivity.
Qed.

(** The round of a stream with one call, to a name the registry does not
    hold: what [onToolUse] throws is left unhandled, and the round goes on
    with [hasToolUse] set and neither tool message. *)
Lemma unknown_call_round self messages messages' params toolMap context calls tc w :
  pool w = [] ->
  handleHistoryImageMessages messages = Normal messages' ->
  generateStream JSON_parse (llmProvider self) (rounds w) messages' params
  = Normal calls ->
  tool_calls_of calls = [tc] ->
  toolMap_get (call_name tc) toolMap = None ->
  exists w',
    round self messages params toolMap context w
    = (if __abort (state w) then Throw (ErrorObject "Abort")
       else Normal (mkRoundResult (round_response calls) true
                                  (text_part calls) messages'),
       w')
    /\ state w' = state w /\ pool w' = []
    /\ unhandled w'
       = unhandled w ++ [ErrorObject ("Tool not found: " ++ call_name tc)%string].
Proof.
  intros Hpool Hh Hg Hcalls Htool.
  unfold executeSingleRound. rewrite Hh, Hg.
  pose proof (@unknown_call_join context toolMap calls tc w Hpool Hcalls Htool) as Hu.
  pose proof (stream_then_join_frame JSON_stringify resolves_after context toolMap
                (rounds w) calls (start_round w)) as Hf.
  cbv zeta in Hf.
  destruct (stream_then_join JSON_stringify resolves_after context toolMap
                             (rounds w) calls (start_round w)) as [w3 rv3].
  unfold UnknownCall, NoCallYet in Hu.
  cbn [fst snd] in *. destruct Hf as (Ht & Hr & _).
  destruct Hu as (Hp & Hst & _ & Hun & Huse & Hres & _ & Hflag).
  cbn [start_round state unhandled] in Hst, Hun. rewrite Hst.
  destruct (__abort (state w)).
  - exists w3. auto.
  - exists (log (Assembled (rounds w)) w3). cbn [log state pool unhandled].
    split; [|auto].
    unfold assemble, text_part. rewrite Ht, Hr, Huse, Hres, Hflag.
    cbn [option_list]. now rewrite app_nil_r.
Qed.

(** The round of a stream without tool calls. *)
Lemma no_call_round self messages messages' params toolMap context calls w :
  pool w = [] ->
  handleHistoryImageMessages messages = Normal messages' ->
  generateStream JSON_parse (llmProvider self) (rounds w) messages' params
  = Normal calls ->
  tool_calls_of calls = [] ->
  exists w',
    round self messages params toolMap context w
    = (if __abort (state w) then Throw (ErrorObject "Abort")
       else Normal (mkRoundResult (round_response calls) false
                                  (text_part calls) messages'),
       w')
    /\ state w' = state w /\ pool w' = [] /\ unhandled w' = unhandled w.
Proof.
  intros Hpool Hh Hg Hcalls.
  unfold executeSingleRound. rewrite Hh, Hg.
  pose proof (@no_call_join context toolMap calls w Hpool Hcalls) as Hu.
  pose proof (stream_then_join_frame JSON_stringify resolves_after context toolMap
                (rounds w) calls (start_round w)) as Hf.
  cbv zeta in Hf.
  destruct (stream_then_join JSON_stringify resolves_after context toolMap
                             (rounds w) calls (start_round w)) as [w3 rv3].
  unfold UnknownCall, NoCallYet in Hu.
  cbn [fst snd] in *. destruct Hf as (Ht & Hr & _).
  destruct Hu as (Hp & Hst & _ & Hun & Huse & Hres & _ & Hflag).
  cbn [start_round state unhandled] in Hst, Hun. rewrite Hst.
  destruct (__abort (state w)).
  - exists w3. auto.
  - exists (log (Assembled (rounds w)) w3). cbn [log state pool unhandled].
    split; [|auto].
    unfold assemble, text_part. rewrite Ht, Hr, Huse, Hres, Hflag.
    cbn [option_list]. now rewrite app_nil_r.
Qed.

(** *** Where a unit's error comes from *)

Lemma run_hook_throws f tool v c err c' :
  f tool v c = (Throw err, c') ->
  run_hook (Some f) tool v c = (Throw err, c').
Proof. intro H. unfold run_hook, bind. now rewrite H. Qed.

Lemma unit_try_before_throws context tool tc c err c1 :
  run_hook (hook_of context beforeToolUse) tool (call_input tc) (set_skip false c)
  = (Throw err, c1) ->
  tool_unit_try JSON_stringify context tool tc c = (Throw err, c1).
Proof.
  intro H. unfold tool_unit_try, bind, update. now rewrite H.
Qed.

Lemma unit_try_execute_throws context tool tc c input c1 err c2 :
  run_hook (hook_of context beforeToolUse) tool (call_input tc) (set_skip false c)
  = (Normal input, c1) ->
  __skip c1 || __abort c1 = false ->
  execute tool input c1 = (Throw err, c2) ->
  tool_unit_try JSON_stringify context tool tc c = (Throw err, c2).
Proof.
  intros H Hs He. unfold tool_unit_try, bind, update, get_state.
  now rewrite H, Hs, He.
Qed.

Lemma unit_try_after_throws context tool tc c input c1 result c2 err c3 :
  run_hook (hook_of context beforeToolUse) tool (call_input tc) (set_skip false c)
  = (Normal input, c1) ->
  __skip c1 || __abort c1 = false ->
  execute tool input c1 = (Normal result, c2) ->
  run_hook (hook_of context afterToolUse) tool result c2 = (Throw err, c3) ->
  tool_unit_try JSON_stringify context tool tc c = (Throw err, c3).
Proof.
  intros H Hs He Ha. unfold tool_unit_try, bind, update, get_state.
  now rewrite H, Hs, He, Ha.
Qed.

(** The [catch] of the unit. *)
Lemma tool_unit_catches context tool tc c err c' :
  tool_unit_try JSON_stringify context tool tc c = (Throw err, c') ->
  tool_unit JSON_stringify context tool tc c = (errorResult tc err, c').
Proof. intro H. unfold tool_unit. now rewrite H. Qed.

End SingleCallRounds.

(** ** The action loop *)

Section LoopProperties.
Variable JSON_parse : Value -> Completion Value.
Variable JSON_stringify : Value -> string.
Variable JSON_stringify_indent : Value -> string.
Variable resolves_after : nat -> nat.

Local Abbreviation round := (executeSingleRound JSON_parse JSON_stringify resolves_after).
Local Abbreviation final := (final_round JSON_parse JSON_stringify resolves_after).
Local Abbreviation loop := (rounds_loop JSON_parse JSON_stringify resolves_after).
Local Abbreviation after := (after_tool_round JSON_parse JSON_stringify resolves_after).

Lemma final_round_rounds self context params returnTool instruction messages w :
  rounds (snd (final self context params returnTool instruction messages w))
  = S (rounds w).
Proof.
  unfold final_round.
  pose proof (executeSingleRound_rounds JSON_parse JSON_stringify resolves_after
                self (messages ++ [mkMessage user (CString instruction)])
                (with_tools (Some params) [tool_definition returnTool])
                [(name returnTool, returnTool)] context w) as H.
  destruct (round self _ _ _ context w) as [[res|e] w']; exact H.
Qed.

(** The loop never runs out of fuel when it is given the rounds that are
    left. *)
Lemma rounds_loop_total self context params toolMap returnTool fuel :
  forall roundCount messages w,
    (maxRounds self - roundCount <= Z.of_nat fuel)%Z ->
    exists out w',
      loop self context params toolMap returnTool fuel roundCount messages w
      = Some (out, w').
Proof.
  induction fuel as [|fuel IH]; intros roundCount messages w Hfuel;
    cbn [rounds_loop];
    destruct (Z.ltb_spec roundCount (maxRounds self)) as [Hlt|Hge];
    try (now eauto); try lia.
  destruct (round self messages params toolMap context w) as [[res|e] w1];
    [|eauto].
  destruct (negb (result_hasToolUse res)
            && match result_response res with Some _ => true | None => false end).
  { destruct (final self context params returnTool no_tool_instruction
                    (history res ++ roundMessages res) w1); eauto. }
  destruct (calls_return_output (result_response res)); [eauto|].
  destruct (roundCount + 1 =? maxRounds self)%Z.
  - destruct (final self context params returnTool max_rounds_instruction
                    (history res ++ roundMessages res) w1) as [[m2|e] w2];
      [|eauto].
    apply IH. lia.
  - apply IH. lia.
Qed.

Lemma rounds_loop_bound self context params toolMap returnTool fuel :
  forall roundCount messages w out w',
    loop self context params toolMap returnTool fuel roundCount messages w
    = Some (out, w') ->
    (rounds w <= rounds w')%nat
    /\ (Z.of_nat (rounds w' - rounds w) <= rounds_left self roundCount)%Z.
Proof.
  unfold rounds_left.
  induction fuel as [|fuel IH]; intros roundCount messages w out w' H;
    cbn [rounds_loop] in H;
    destruct (Z.ltb_spec roundCount (maxRounds self)) as [Hlt|Hge];
    try discriminate;
    try (injection H as <- <-; split; [lia | rewrite Nat.sub_diag; cbn; lia]).
  pose proof (executeSingleRound_rounds JSON_parse JSON_stringify resolves_after
                self messages params toolMap context w) as R1.
  destruct (round self messages params toolMap context w) as [[res|e] w1];
    cbn [snd] in R1;
    [|injection H as <- <-; split; lia].
  destruct (negb (result_hasToolUse res)
            && match result_response res with Some _ => true | None => false end).
  { pose proof (final_round_rounds self context params returnTool
                  no_tool_instruction (history res ++ roundMessages res) w1) as R2.
    destruct (final self context params returnTool no_tool_instruction
                    (history res ++ roundMessages res) w1) as [o2 w2].
    cbn [snd] in R2. injection H as <- <-. split; lia. }
  destruct (calls_return_output (result_response res));
    [injection H as <- <-; split; lia|].
  destruct (Z.eqb_spec (roundCount + 1) (maxRounds self)) as [Heq|Hne].
  - pose proof (final_round_rounds self context params returnTool
                  max_rounds_instruction (history res ++ roundMessages res) w1) as R2.
    destruct (final self context params returnTool max_rounds_instruction
                    (history res ++ roundMessages res) w1) as [[m2|e] w2];
      cbn [snd] in R2; [|injection H as <- <-; split; lia].
    destruct (IH _ _ _ _ _ H) as [Hle Hb].
    destruct (Z.ltb_spec (roundCount + 1) (maxRounds self)); [lia|].
    split; lia.
  - destruct (IH _ _ _ _ _ H) as [Hle Hb].
    destruct (Z.ltb_spec (roundCount + 1) (maxRounds self)); [|lia].
    split; lia.
Qed.

Local Abbreviation run := (ActionImpl_execute JSON_parse JSON_stringify
                                          JSON_stringify_indent resolves_after).
Local Abbreviation talk := (converse JSON_parse JSON_stringify
                                 JSON_stringify_indent resolves_after).

Lemma converse_total self input context outputSchema w :
  exists out w', talk self input context outputSchema w = Some (out, w').
Proof.
  unfold converse. apply rounds_loop_total.
  destruct (maxRounds self); cbn; lia.
Qed.


(** C2, as the code has it: a completed [execute] returns what
    [context.variables] holds under [__action_output] when the loop ends,
    whoever stored it there last, or an empty object when the key is absent
    or holds [undefined]; and the key is gone from the variables when
    [execute] returns. *)
Theorem execute_returns_action_output
        (self : ActionImpl) (input : Value) (context : ExecutionContext)
        (outputSchema : Value) (w w' : World) (output : Value) :
  run self input context outputSchema w = Some (Normal output, w') ->
  exists messages w1,
    talk self input context outputSchema w = Some (Normal messages, w1)
    /\ output =
       match map_get SameValueZero (VString "__action_output")
                     (variables (state w1)) with
       | None | Some VUndefined => VObject []
       | Some v => v
       end
    /\ variables (state w') =
       map_delete SameValueZero (VString "__action_output") (variables (state w1))
    /\ map_get SameValueZero (VString "__action_output") (variables (state w'))
       = None.
Proof.
  unfold ActionImpl_execute. intro H.
  destruct (talk self input context outputSchema w) as [[[messages|e] w1]|];
    try discriminate.
  unfold take_output in H. injection H as <- <-.
  exists messages, w1. cbn [set_state state set_variables variables].
  repeat split. apply map_get_delete_same.
Qed.

Lemma loop_after_tool_round self context params toolMap returnTool fuel
      roundCount messages w res w1 :
  (roundCount < maxRounds self)%Z ->
  round self messages params toolMap context w = (Normal res, w1) ->
  result_hasToolUse res = true ->
  loop self context params toolMap returnTool (S fuel) roundCount messages w
  = after self context params toolMap returnTool fuel roundCount res w1.
Proof.
  intros Hlt Hr Hflag. cbn [rounds_loop].
  destruct (Z.ltb_spec roundCount (maxRounds self)); [|lia].
  rewrite Hr, Hflag. reflexivity.
Qed.

(** C5, as the code has it: when the unit of a round's tool call throws (in
    the [beforeToolUse] hook, in the tool's [execute], in the [afterToolUse]
    hook or while the result is read), the tool result of the round is a
    user [tool_result] block with [is_error] true and the text ["Error: "]
    followed by the error's message (["Unknown error occurred"] when the
    thrown value is not an [Error]), paired with the [tool_use] message;
    unless the abort flag is set by then, the round returns normally and the
    loop goes on from it. *)
Theorem tool_error_becomes_result
        (self : ActionImpl) (messages messages' : list Message)
        (params : LLMParameters) (toolMap : JSMap string Tool)
        (context : ExecutionContext) (calls : list HandlerCall)
        (tc : ToolCall) (tool : Tool) (w : World)
        (err : Thrown) (c' : ContextState) :
  pool w = [] ->
  handleHistoryImageMessages messages = Normal messages' ->
  generateStream JSON_parse (llmProvider self) (rounds w) messages' params
  = Normal calls ->
  tool_calls_of calls = [tc] ->
  toolMap_get (call_name tc) toolMap = Some tool ->
  tool_unit_try JSON_stringify context tool tc (state w) = (Throw err, c') ->
  __abort c' = false ->
  let error_block :=
    tool_result (call_id tc)
                (TRArray [tr_text (VString ("Error: " ++ errorMessage err)%string)])
                (Some true) in
  let res :=
    mkRoundResult
      (round_response calls) true
      (text_part calls
         ++ [mkMessage assistant
                       (CArray [tool_use (call_id tc) (name tool) (call_input tc)]);
             mkMessage user (CArray [error_block])])
      messages' in
  exists w',
    round self messages params toolMap context w = (Normal res, w')
    /\ state w' = c'
    /\ forall returnTool fuel roundCount,
        (roundCount < maxRounds self)%Z ->
        loop self context params toolMap returnTool (S fuel) roundCount messages w
        = after self context params toolMap returnTool fuel
                           roundCount res w'.
Proof.
  intros Hpool Hh Hg Hcalls Htool Htry Habort error_block res.
  destruct (@one_call_round JSON_parse JSON_stringify resolves_after
              self messages messages' params toolMap context calls tc tool w
              Hpool Hh Hg Hcalls Htool) as (w' & Hround & Hst & _).
  rewrite (tool_unit_catches JSON_stringify context tool tc (state w) Htry) in Hround, Hst.
  cbn [fst snd] in Hround, Hst. rewrite Habort in Hround.
  exists w'. split; [exact Hround|]. split; [exact Hst|].
  intros returnTool fuel roundCount Hlt.
  now apply loop_after_tool_round.
Qed.

(** The same iteration after a call to a name the registry does not hold:
    the round returns with [hasToolUse] set, and the loop goes on. *)
Lemma unknown_tool_loop_goes_on self messages messages' params toolMap context
      calls tc w :
  pool w = [] ->
  handleHistoryImageMessages messages = Normal messages' ->
  generateStream JSON_parse (llmProvider self) (rounds w) messages' params
  = Normal calls ->
  tool_calls_of calls = [tc] ->
  toolMap_get (call_name tc) toolMap = None ->
  __abort (state w) = false ->
  let res := mkRoundResult (round_response calls) true (text_part calls) messages' in
  exists w',
    round self messages params toolMap context w = (Normal res, w')
    /\ unhandled w'
       = unhandled w ++ [ErrorObject ("Tool not found: " ++ call_name tc)%string]
    /\ forall returnTool fuel roundCount,
        (roundCount < maxRounds self)%Z ->
        loop self context params toolMap returnTool (S fuel) roundCount messages w
        = after self context params toolMap returnTool fuel
                           roundCount res w'.
Proof.
  intros Hpool Hh Hg Hcalls Htool Habort res.
  destruct (@unknown_call_round JSON_parse JSON_stringify resolves_after
              self messages messages' params toolMap context calls tc w
              Hpool Hh Hg Hcalls Htool) as (w' & Hround & _ & _ & Hun).
  rewrite Habort in Hround.
  exists w'. split; [exact Hround|]. split; [exact Hun|].
  intros returnTool fuel roundCount Hlt.
  now apply loop_after_tool_round.
Qed.

(** *** The intended path of the output *)

(** The unit of a [return_output] call, without hooks: the value is stored
    under the reserved key and nothing else changes but [__skip]. *)
Lemma return_output_unit context outputSchema tc c v :
  callback context = None ->
  __abort c = false ->
  get_prop (call_input tc) "value" = Normal v ->
  exists m,
    tool_unit JSON_stringify context (createReturnTool outputSchema) tc c
    = (m, mkContextState
            (map_set SameValueZero (VString "__action_output") v (variables c))
            false false).
Proof.
  intros Hcb Habort Hv.
  assert (Hd : destructure (call_input tc) "value" = Normal v)
    by (rewrite <- Hv; destruct (call_input tc); try reflexivity; discriminate).
  unfold tool_unit, tool_unit_try, hook_of. rewrite Hcb.
  unfold bind, update, run_hook, ret, get_state.
  cbn [set_skip __skip __abort orb]. rewrite Habort.
  cbn [execute createReturnTool]. unfold return_output_execute, bind, lift, ret.
  rewrite Hd. cbn. unfold set_variables, set_skip. cbn. rewrite Habort.
  eexists. reflexivity.
Qed.

(** X20: when the first round's stream makes one call, to [return_output] with
    value [v], and the response lists it, [execute] stops after that round
    and returns [v] (an empty object for [undefined]). *)
Lemma return_output_in_first_round self input context outputSchema w calls tc v :
  pool w = [] ->
  callback context = None ->
  __abort (state w) = false ->
  (0 < maxRounds self)%Z ->
  generateStream JSON_parse (llmProvider self) (rounds w)
                 (first_messages JSON_stringify JSON_stringify_indent self
                                 (variables (state w)) input)
                 (action_params self
                    (build_toolMap self context (createReturnTool outputSchema)))
  = Normal calls ->
  tool_calls_of calls = [tc] ->
  call_name tc = "return_output" ->
  get_prop (call_input tc) "value" = Normal v ->
  calls_return_output (round_response calls) = true ->
  exists w',
    run self input context outputSchema w
    = Some (Normal (match v with VUndefined => VObject [] | _ => v end), w')
    /\ rounds w' = S (rounds w).
Proof.
  intros Hpool Hcb Habort Hmax Hg Hcalls Hname Hv Hresp.
  set (returnTool := createReturnTool outputSchema) in *.
  set (toolMap := build_toolMap self context returnTool) in *.
  set (messages := first_messages JSON_stringify JSON_stringify_indent self
                                  (variables (state w)) input) in *.
  assert (Hh : handleHistoryImageMessages messages = Normal messages) by reflexivity.
  assert (Htool : toolMap_get (call_name tc) toolMap = Some returnTool).
  { rewrite Hname. unfold toolMap, build_toolMap. rewrite toolMap_get_set.
    reflexivity. }
  destruct (@one_call_round JSON_parse JSON_stringify resolves_after
              self messages messages (action_params self toolMap) toolMap context
              calls tc returnTool w Hpool Hh Hg Hcalls Htool)
    as (w1 & Hround & Hst & _).
  destruct (return_output_unit context outputSchema tc (state w) Hcb Habort Hv)
    as (m & Hunit).
  fold returnTool in Hunit. rewrite Hunit in Hround, Hst.
  cbn [fst snd __abort] in Hround, Hst.
  pose proof (executeSingleRound_rounds JSON_parse JSON_stringify resolves_after
                self messages (action_params self toolMap) toolMap context w) as Hr.
  rewrite Hround in Hr. cbn [snd] in Hr.
  unfold ActionImpl_execute, converse.
  fold returnTool. fold toolMap. fold messages.
  destruct (Z.to_nat (maxRounds self)) as [|fuel] eqn:Hfuel; [lia|].
  cbn [rounds_loop].
  destruct (Z.ltb_spec 0 (maxRounds self)); [|lia].
  rewrite Hround. cbn [result_hasToolUse result_response negb andb]. rewrite Hresp.
  unfold take_output. rewrite Hst. cbn [variables].
  rewrite map_get_set_same by reflexivity.
  match goal with
  | |- context [Some (_, ?w2)] => exists w2
  end.
  split; [destruct v; reflexivity | exact Hr].
Qed.

End LoopProperties.

(** * Further properties *)

(** ** History trimming, repeated *)

Lemma is_user_policy_message m : is_user (policy_message m) = is_user m.
Proof.
  unfold policy_message, is_user. now destruct (content m).
Qed.

Lemma existsb_is_user_policy later l :
  existsb is_user (policy_from later l) = existsb is_user l.
Proof.
  induction l as [|m l IH]; [reflexivity|].
  cbn [policy_from existsb]. rewrite IH.
  destruct (is_user m && (later || existsb is_user l));
    now rewrite ?is_user_policy_message.
Qed.

Lemma skipn_policy_from later n l :
  skipn n (policy_from later l) = policy_from later (skipn n l).
Proof.
  revert l. induction n as [|n IH]; intros [|m l]; try reflexivity.
  cbn [policy_from skipn]. apply IH.
Qed.

Lemma without_images_idempotent tc :
  without_images (without_images tc) = without_images tc.
Proof.
  unfold without_images. induction tc as [|b tc IH]; [reflexivity|].
  cbn [filter]. destruct (negb (is_image b)) eqn:E; [|exact IH].
  cbn [filter]. now rewrite E, IH.
Qed.

Lemma policy_block_idempotent b : policy_block (policy_block b) = policy_block b.
Proof.
  destruct b as [t|i n v|i c e|s]; try reflexivity.
  destruct c as [s|[|x tl]]; try reflexivity.
  cbn [policy_block].
  destruct (without_images (x :: tl)) as [|y tl'] eqn:E; [reflexivity|].
  cbn [policy_block]. rewrite <- E. now rewrite without_images_idempotent.
Qed.

Lemma policy_message_idempotent m :
  policy_message (policy_message m) = policy_message m.
Proof.
  destruct (content m) as [s|bs] eqn:E.
  - assert (H : policy_message m = m) by (unfold policy_message; now rewrite E).
    now rewrite !H.
  - assert (H : policy_message m = mkMessage (role m) (CArray (map policy_block bs)))
      by (unfold policy_message; now rewrite E).
    rewrite H. unfold policy_message. cbn [content role]. rewrite map_map.
    f_equal. f_equal. apply map_ext. intro b. apply policy_block_idempotent.
Qed.

Lemma policy_from_idempotent later l :
  policy_from later (policy_from later l) = policy_from later l.
Proof.
  induction l as [|m l IH]; [reflexivity|].
  cbn [policy_from]. rewrite IH, existsb_is_user_policy.
  destruct (is_user m && (later || existsb is_user l)) eqn:E.
  - now rewrite is_user_policy_message, E, policy_message_idempotent.
  - now rewrite E.
Qed.

(** X1: trimming a trimmed history again changes nothing, when it returns. *)
Theorem trimming_idempotent (messages once twice : list Message) :
  handleHistoryImageMessages messages = Normal once ->
  handleHistoryImageMessages once = Normal twice ->
  twice = once.
Proof.
  rewrite !handleHistoryImageMessages_eq.
  destruct (empty_array_in_earlier_user messages); [discriminate|].
  intros [= <-].
  destruct (empty_array_in_earlier_user (history_policy messages)); [discriminate|].
  intros [= <-]. apply policy_from_idempotent.
Qed.

(** X2: a [tool_result] block of an earlier user message whose array holds
    images only is stripped to the empty array, and the next trimming of
    that history throws. *)
Theorem images_only_result_breaks_next_trimming (messages once : list Message) :
  handleHistoryImageMessages messages = Normal once ->
  EarlierUserImagesOnly messages ->
  handleHistoryImageMessages once
  = Throw (ErrorObject "Cannot read properties of undefined (reading 'type')").
Proof.
  rewrite !handleHistoryImageMessages_eq.
  destruct (empty_array_in_earlier_user messages); [discriminate|].
  intros [= <-] (i & m & bs & id & x & tl & e & Hn & Hr & Hl & Hc & Hin & Himg).
  assert (H : EarlierUserEmptyArray (history_policy messages)).
  { exists i, (policy_message m), (map policy_block bs), id, e.
    unfold history_policy.
    rewrite (policy_from_nth false _ _ Hn). cbn [orb].
    rewrite (proj2 (is_user_iff m) Hr), Hl. cbn [andb].
    rewrite skipn_policy_from, existsb_is_user_policy.
    unfold policy_message. rewrite Hc. cbn [role content].
    repeat split; auto.
    apply in_map_iff. exists (tool_result id (TRArray (x :: tl)) e).
    split; [|exact Hin]. cbn [policy_block]. f_equal. f_equal.
    unfold without_images. clear - Himg.
    induction (x :: tl) as [|b l IH]; [reflexivity|].
    cbn [forallb] in Himg. apply andb_true_iff in Himg as [Hb Hl].
    cbn [filter]. rewrite Hb. cbn. auto. }
  apply empty_array_in_earlier_user_iff in H. now rewrite H.
Qed.

(** A history of string messages is returned as it is. *)
Lemma policy_from_all_strings later messages :
  all_strings messages -> policy_from later messages = messages.
Proof.
  induction 1 as [|m l [s Hs] _ IH]; [reflexivity|].
  cbn [policy_from]. rewrite IH. unfold policy_message. rewrite Hs.
  now destruct (is_user m && (later || existsb is_user l)).
Qed.

Lemma empty_array_from_all_strings later messages :
  all_strings messages -> empty_array_from later messages = false.
Proof.
  induction 1 as [|m l [s Hs] _ IH]; [reflexivity|].
  cbn [empty_array_from]. rewrite IH. unfold has_empty_result_array.
  rewrite Hs. now rewrite andb_false_r.
Qed.

Lemma trimming_all_strings messages :
  all_strings messages -> handleHistoryImageMessages messages = Normal messages.
Proof.
  intro H. rewrite handleHistoryImageMessages_eq.
  unfold empty_array_in_earlier_user, history_policy.
  now rewrite (empty_array_from_all_strings false H), (policy_from_all_strings false H).
Qed.

(** ** The stream normalizer, as a whole *)

Section StreamCoverage.
Variable JSON_parse : Value -> Completion Value.

Lemma stream_step_progress cur event calls next :
  stream_step JSON_parse cur event = Normal (calls, next) ->
  forallb is_progress calls = true.
Proof.
  destruct event as [[| |]|[| |]| |]; cbn [stream_step];
    try (intros [= <- _]; reflexivity).
  - destruct cur; intros [= <- _]; reflexivity.
  - destruct cur as [p|]; [|intros [= <- _]; reflexivity].
    destruct (JSON_parse _); [|discriminate]. intros [= <- _]. reflexivity.
Qed.

Lemma stream_loop_progress events :
  forall cur, forallb is_progress (fst (stream_loop JSON_parse cur events)) = true.
Proof.
  induction events as [|event rest IH]; intro cur; [reflexivity|].
  cbn [stream_loop].
  destruct (stream_step JSON_parse cur event) as [[calls next]|e] eqn:E;
    [|reflexivity].
  specialize (IH next).
  destruct (stream_loop JSON_parse next rest) as [calls' final].
  cbn [fst] in *. rewrite forallb_app, IH, (stream_step_progress _ _ E).
  reflexivity.
Qed.

(** X3: once the request is built, [generateStream] returns normally
    whatever the vendor does: it calls [onStart] first, then only
    [onContent] and [onToolUse], and ends with exactly one [onComplete] or
    [onError]. *)
Theorem generateStream_brackets
        (self : ClaudeProvider) (n : nat) (messages : list Message)
        (params : LLMParameters) (request : StreamRequest) :
  stream_request self messages params = Normal request ->
  exists body last,
    generateStream JSON_parse self n messages params
    = Normal (onStart :: body ++ [last])
    /\ forallb is_progress body = true
    /\ is_terminal last = true.
Proof.
  intro Hreq. unfold generateStream. rewrite Hreq.
  pose proof (stream_loop_progress (stream_events (client_stream self n request)) None)
    as Hp.
  destruct (stream_loop JSON_parse None (stream_events (client_stream self n request)))
    as [calls final].
  cbn [fst] in Hp. exists calls.
  destruct final as [cur|e]; [destruct (stream_final (client_stream self n request))|];
    eexists; (split; [reflexivity|]); split; auto.
Qed.

Lemma event_texts_cons event rest :
  event_texts (event :: rest) = event_texts [event] ++ event_texts rest.
Proof. exact (flat_map_app _ [event] rest). Qed.

Lemma started_tool_uses_cons event rest :
  started_tool_uses (event :: rest)
  = started_tool_uses [event] ++ started_tool_uses rest.
Proof. exact (flat_map_app _ [event] rest). Qed.

Lemma contents_of_app a b : contents_of (a ++ b) = contents_of a ++ contents_of b.
Proof. apply flat_map_app. Qed.

Lemma stream_step_texts cur event calls next :
  stream_step JSON_parse cur event = Normal (calls, next) ->
  contents_of calls = event_texts [event].
Proof.
  destruct event as [[| |]|[| |]| |]; cbn [stream_step];
    try (intros [= <- _]; reflexivity).
  - destruct cur; intros [= <- _]; reflexivity.
  - destruct cur as [p|]; [|intros [= <- _]; reflexivity].
    destruct (JSON_parse _); [|discriminate]. intros [= <- _]. reflexivity.
Qed.

(** X4: the [onContent] calls carry the texts of the stream in their order:
    all of them when the loop reaches the end of the stream, a prefix of
    them when [JSON.parse] stops it. *)
Theorem text_passes_through
        (cur : option PartialToolUse) (events : list MessageStreamEvent) :
  (exists rest,
      event_texts events
      = contents_of (fst (stream_loop JSON_parse cur events)) ++ rest)
  /\ (forall last,
         snd (stream_loop JSON_parse cur events) = Normal last ->
         contents_of (fst (stream_loop JSON_parse cur events)) = event_texts events).
Proof.
  revert cur. induction events as [|event rest IH]; intro cur.
  - split; [exists []; reflexivity | reflexivity].
  - cbn [stream_loop].
    rewrite (event_texts_cons event rest).
    destruct (stream_step JSON_parse cur event) as [[calls next]|e] eqn:E.
    + destruct (IH next) as [[more Hmore] Hall].
      destruct (stream_loop JSON_parse next rest) as [calls' final].
      cbn [fst snd] in *. rewrite contents_of_app, (stream_step_texts _ _ E).
      split.
      * exists more. now rewrite Hmore, app_assoc.
      * intros last Hl. now rewrite (Hall last Hl).
    + cbn [fst snd]. split; [eexists; reflexivity | discriminate].
Qed.

Lemma tool_calls_from_blocks events :
  forall cur,
    let calls := tool_calls_of (fst (stream_loop JSON_parse cur events)) in
    let open := match cur with
                | Some p => [(partial_id p, partial_name p)]
                | None => []
                end in
    Forall (fun tc => In (call_id tc, call_name tc)
                         (open ++ started_tool_uses events)) calls
    /\ (List.length calls <= List.length (open ++ started_tool_uses events))%nat.
Proof.
  induction events as [|event rest IH]; intro cur.
  - cbn. split; [constructor | lia].
  - cbn [stream_loop].
    rewrite (started_tool_uses_cons event rest).
    destruct (stream_step JSON_parse cur event) as [[calls next]|e] eqn:E;
      [|cbn; split; [constructor | lia]].
    specialize (IH next). cbv zeta in IH.
    destruct (stream_loop JSON_parse next rest) as [calls' final].
    cbn [fst] in *. rewrite tool_calls_of_app. destruct IH as [IHin IHlen].
    assert (Hstep :
              (tool_calls_of calls = []
               /\ (match next with
                   | Some p => [(partial_id p, partial_name p)]
                   | None => []
                   end ++ started_tool_uses rest
                   = match cur with
                     | Some p => [(partial_id p, partial_name p)]
                     | None => []
                     end ++ started_tool_uses [event] ++ started_tool_uses rest
                   \/ (exists id name, event = content_block_start (started_tool_use id name)
                                       /\ next = Some (mkPartialToolUse id name ""))))
              \/ (exists p input,
                     cur = Some p /\ next = None /\ event = content_block_stop
                     /\ tool_calls_of calls
                        = [mkToolCall (partial_id p) (partial_name p) input])).
    { destruct event as [[|id name|]|[t|pj|]| |]; cbn [stream_step] in E.
      - injection E as <- <-. left. split; [reflexivity | now left].
      - injection E as <- <-. left. split; [reflexivity | right; eauto].
      - injection E as <- <-. left. split; [reflexivity | now left].
      - injection E as <- <-. left. split; [reflexivity | now left].
      - destruct cur as [p|]; injection E as <- <-; left;
          (split; [reflexivity | now left]).
      - injection E as <- <-. left. split; [reflexivity | now left].
      - destruct cur as [p|].
        + destruct (JSON_parse _) as [input|]; [|discriminate].
          injection E as <- <-. right. exists p, input. repeat split.
        + injection E as <- <-. left. split; [reflexivity | now left].
      - injection E as <- <-. left. split; [reflexivity | now left]. }
    destruct Hstep as [[Hnone [Heq | (id & name & -> & ->)]] | (p & input & -> & -> & -> & Hone)].
    + rewrite Hnone. cbn [app]. rewrite <- Heq. auto.
    + rewrite Hnone. cbn [app started_tool_uses flat_map partial_id partial_name] in *.
      split.
      * eapply Forall_impl; [|exact IHin]. intros tc Hin. cbn beta in *.
        apply in_or_app. right. exact Hin.
      * rewrite length_app in *. cbn [List.length] in *. lia.
    + rewrite Hone. cbn [app started_tool_uses flat_map] in *. split.
      * constructor; [now left|].
        eapply Forall_impl; [|exact IHin]. intros tc Hin. now right.
      * cbn [List.length]. lia.
Qed.

(** X5: every tool call [generateStream] hands over carries the id and the
    name of a tool-use block the stream started, and there are at most as
    many calls as started blocks. *)
Theorem tool_calls_come_from_started_blocks (events : list MessageStreamEvent) :
  let calls := tool_calls_of (fst (stream_loop JSON_parse None events)) in
  Forall (fun tc => In (call_id tc, call_name tc) (started_tool_uses events)) calls
  /\ (List.length calls <= List.length (started_tool_uses events))%nat.
Proof. exact (tool_calls_from_blocks events None). Qed.

End StreamCoverage.

(** ** Requests and responses *)

Lemma system_texts_throw messages m :
  In m messages -> role m = system -> content m = CArray [] ->
  system_texts messages = Throw (TypeError_read "undefined" "text").
Proof.
  intros Hin Hr Hc. induction messages as [|s tl IH]; [destruct Hin|].
  cbn [system_texts]. destruct Hin as [->|Hin].
  - rewrite Hr. cbn [Role_eqb]. unfold system_text. now rewrite Hc.
  - specialize (IH Hin). rewrite IH.
    destruct (Role_eqb (role s) system); [|reflexivity].
    unfold system_text.
    destruct (content s) as [t|[|[t| | |] bs]]; reflexivity.
Qed.

(** X6: a system message whose content is an empty array makes both calls
    throw before the vendor is contacted and before any handler call. *)
Theorem empty_system_content_throws
        (JSON_parse : Value -> Completion Value)
        (create : StreamRequest -> Completion AnthropicMessage)
        (self : ClaudeProvider) (n : nat) (messages : list Message)
        (params : LLMParameters) (m : Message) :
  In m messages -> role m = system -> content m = CArray [] ->
  generateStream JSON_parse self n messages params
  = Throw (ErrorObject "Cannot read properties of undefined (reading 'text')")
  /\ generateText create self messages params
     = Throw (ErrorObject "Cannot read properties of undefined (reading 'text')").
Proof.
  intros Hin Hr Hc.
  pose proof (@system_texts_throw messages m Hin Hr Hc) as H.
  unfold generateStream, generateText, stream_request, text_request.
  rewrite H. split; reflexivity.
Qed.

Lemma no_system_in_filter messages :
  Forall (fun s => role s <> system)
         (filter (fun s => negb (Role_eqb (role s) system)) messages).
Proof.
  apply Forall_forall. intros s Hs. apply filter_In in Hs as [_ Hs].
  intro E. rewrite E in Hs. discriminate.
Qed.

Lemma system_texts_head messages texts :
  system_texts messages = Normal texts ->
  match texts with t :: _ => t | [] => None end = first_system_text messages.
Proof.
  unfold first_system_text. revert texts.
  induction messages as [|s tl IH]; intros texts; cbn [system_texts filter].
  - now intros [= <-].
  - destruct (Role_eqb (role s) system); [|apply IH].
    unfold system_text.
    destruct (content s) as [text|[|[text| | |] bs]]; try discriminate;
      destruct (system_texts tl); try discriminate; now intros [= <-].
Qed.

(** X7: the request of either call never holds a system-role turn and
    keeps every other message; its system prompt is the text of the first
    system message, later ones are dropped; its [max_tokens] is never 0. *)
Theorem requests_exclude_system
        (self : ClaudeProvider) (messages : list Message)
        (params : LLMParameters) (request : StreamRequest) :
  stream_request self messages params = Normal request
  \/ text_request self messages params = Normal request ->
  Forall (fun s => role s <> system) (req_messages request)
  /\ (forall s, In s messages -> role s <> system -> In s (req_messages request))
  /\ req_system request = first_system_text messages
  /\ req_max_tokens request <> 0%Z.
Proof.
  unfold stream_request, text_request.
  destruct (system_texts messages) as [texts|e] eqn:Ht;
    [|intros [H|H]; discriminate].
  assert (Hin : forall s, In s messages -> role s <> system ->
                          In s (filter (fun s => negb (Role_eqb (role s) system)) messages)).
  { intros s Hs Hr. apply filter_In. split; [exact Hs|].
    destruct (role s); try reflexivity. now elim Hr. }
  intros [[= <-]|[= <-]]; cbn [req_messages req_max_tokens req_system];
    (split; [apply no_system_in_filter|]); (split; [exact Hin|]);
    (split; [exact (system_texts_head _ Ht)|]);
    destruct (maxTokens params) as [k|]; try discriminate;
    destruct (Z.eqb_spec k 0); auto; discriminate.
Qed.

Lemma append_empty a b : (a ++ b)%string = "" -> a = "" /\ b = "".
Proof. destruct a; [auto | discriminate]. Qed.

Lemma join_empty sep l :
  sep <> "" -> (join sep l = "" <-> l = [] \/ l = [""]).
Proof.
  intro Hsep. split.
  - destruct l as [|x [|y tl]]; cbn [join]; auto.
    + intros ->. auto.
    + intro H. apply append_empty in H as [_ H].
      apply append_empty in H as [H _]. contradiction.
  - intros [->| ->]; reflexivity.
Qed.

(** X8: [textContent] is null exactly when the message has no text block or
    a single, empty one; [toolCalls] lists [return_output] exactly when the
    message holds a [tool_use] block of that name, which is the loop's test
    for stopping. *)
Theorem processResponse_reads_message (message : AnthropicMessage) :
  (textContent (processResponse message) = None
   <-> text_blocks (message_content message) = []
       \/ text_blocks (message_content message) = [""])
  /\ (calls_return_output (Some (processResponse message)) = true
      <-> exists id input,
          In (tool_use id "return_output" input) (message_content message)).
Proof.
  split.
  - unfold processResponse. cbn [textContent]. fold (text_blocks (message_content message)).
    rewrite <- (join_empty (sep := newline)) by discriminate.
    destruct (String.eqb_spec (join newline (text_blocks (message_content message))) "");
      split; intro H; auto; try discriminate. contradiction.
  - unfold calls_return_output, processResponse. cbn [toolCalls].
    rewrite existsb_exists. split.
    + intros (tc & Hin & Hname). apply in_flat_map in Hin as (b & Hb & Htc).
      destruct b as [t|id name input|i c e|s]; cbn in Htc; try contradiction.
      destruct Htc as [<-|[]]. cbn [call_name] in Hname.
      apply String.eqb_eq in Hname. subst name. eauto.
    + intros (id & input & Hin).
      exists (mkToolCall id "return_output" input). split; [|reflexivity].
      apply in_flat_map. eexists. split; [exact Hin | now left].
Qed.

(** ** The synthetic tools and the registry, as a whole *)

Lemma SameValueZero_euclid a b c :
  SameValueZero a b = true -> SameValueZero a c = true ->
  SameValueZero b c = true.
Proof.
  destruct a, b; cbn; try discriminate; destruct c; cbn; try discriminate; auto.
  - intros H1 H2. apply Bool.eqb_prop in H1, H2. subst. apply Bool.eqb_reflx.
  - intros H1 H2. apply Z.eqb_eq in H1, H2. subst. apply Z.eqb_refl.
  - intros H1 H2. apply String.eqb_eq in H1, H2. subst. apply String.eqb_refl.
Qed.

Section MapFrame.
Variables (K V : Type) (eqb : K -> K -> bool).
Hypothesis eqb_euclid :
  forall a b c, eqb a b = true -> eqb a c = true -> eqb b c = true.

Lemma map_get_set_other (k k' : K) (v : V) (m : JSMap K V) :
  eqb k k' = false ->
  map_get eqb k' (map_set eqb k v m) = map_get eqb k' m.
Proof.
  intro Hne. induction m as [|[k0 v0] m IH]; cbn [map_set map_get].
  - now rewrite Hne.
  - destruct (eqb k0 k) eqn:E0; cbn [map_get].
    + destruct (eqb k0 k') eqn:E1; [|reflexivity].
      rewrite (@eqb_euclid _ _ _ E0 E1) in Hne. discriminate.
    + now rewrite IH.
Qed.
End MapFrame.

Lemma destructure_defined (params : Value) (prop : string) :
  (params = VUndefined \/ params = VNull)
  \/ exists v, destructure params prop = Normal v
                /\ get_prop params prop = Normal v.
Proof.
  destruct params as [| |b|n|s|elems|fields]; auto; right;
    cbn [destructure get_prop]; eauto.
  destruct (map_get String.eqb prop fields); eauto.
Qed.

Section ToolCoverage.
Variable JSON_parse : Value -> Completion Value.

(** X9: [write_context] touches one key only.  On [undefined] or [null]
    parameters it throws and leaves the context as it was; otherwise it
    returns [{success: true, key, value}], leaves every other key and the
    skip and abort flags as they were. *)
Theorem write_context_frame (params : Value) (c : ContextState) :
  let out := execute (WriteContextTool JSON_parse) params c in
  __skip (snd out) = __skip c /\ __abort (snd out) = __abort c
  /\ match fst out with
     | Throw e => (params = VUndefined \/ params = VNull) /\ snd out = c
     | Normal result =>
         exists key value,
           get_prop params "key" = Normal key
           /\ get_prop params "value" = Normal value
           /\ result = VObject [("success", VBool true); ("key", key);
                                ("value", value)]
           /\ forall k, SameValueZero key k = false ->
                        map_get SameValueZero k (variables (snd out))
                        = map_get SameValueZero k (variables c)
     end.
Proof.
  cbn [execute WriteContextTool].
  unfold WriteContextTool_execute, bind, lift, ret.
  destruct (destructure_defined params "key")
    as [[-> | ->]|(key & Hdk & Hk)]; try (cbn; auto; fail).
  destruct (destructure_defined params "value")
    as [[-> | ->]|(value & Hdv & Hv)]; try (cbn; auto; fail).
  rewrite Hdk, Hdv.
  destruct (JSON_parse value) as [parsed|e];
    unfold variables_set, update; cbn [fst snd set_variables __skip __abort variables];
    (split; [reflexivity|]); (split; [reflexivity|]);
    exists key, value; (split; [exact Hk|]); (split; [exact Hv|]);
    (split; [reflexivity|]);
    intros k Hk'; apply map_get_set_other;
      solve [exact SameValueZero_euclid | exact Hk'].
Qed.

(** X10: [return_output] touches the reserved key only.  On [undefined] or
    [null] parameters it throws and leaves the context as it was; otherwise
    it returns [{returned: value}], where [value] may be [undefined], and
    leaves every other key and the flags as they were. *)
Theorem return_output_frame (outputSchema params : Value) (c : ContextState) :
  let out := execute (createReturnTool outputSchema) params c in
  __skip (snd out) = __skip c /\ __abort (snd out) = __abort c
  /\ match fst out with
     | Throw e => (params = VUndefined \/ params = VNull) /\ snd out = c
     | Normal result =>
         exists value,
           get_prop params "value" = Normal value
           /\ result = VObject [("returned", value)]
           /\ map_get SameValueZero (VString "__action_output")
                      (variables (snd out)) = Some value
           /\ forall k, SameValueZero (VString "__action_output") k = false ->
                        map_get SameValueZero k (variables (snd out))
                        = map_get SameValueZero k (variables c)
     end.
Proof.
  cbn [execute createReturnTool].
  unfold return_output_execute, bind, lift, ret.
  destruct (destructure_defined params "value")
    as [[-> | ->]|(value & Hdv & Hv)]; try (cbn; auto; fail).
  rewrite Hdv.
  unfold variables_set, update, action_output_key;
    cbn [fst snd set_variables __skip __abort variables];
    (split; [reflexivity|]); (split; [reflexivity|]);
    exists value; (split; [exact Hv|]); (split; [reflexivity|]);
    (split; [now apply map_get_set_same|]);
    intros k Hk'; apply map_get_set_other;
      solve [exact SameValueZero_euclid | exact Hk'].
Qed.

End ToolCoverage.

Lemma map_set_keys (k : string) (t : Tool) (m : JSMap string Tool) :
  (In k (map fst m) /\ map fst (map_set String.eqb k t m) = map fst m)
  \/ (~ In k (map fst m) /\ map fst (map_set String.eqb k t m) = map fst m ++ [k]).
Proof.
  induction m as [|[k0 t0] m IH]; cbn [map_set map fst].
  - right. split; [intros []|reflexivity].
  - destruct (String.eqb_spec k0 k) as [->|Hne]; cbn [map fst].
    + left. split; [now left | reflexivity].
    + destruct IH as [[Hin Heq]|[Hnin Heq]]; rewrite Heq.
      * left. split; [now right | reflexivity].
      * right. split; [|reflexivity]. intros [H|H]; [now apply Hne | now apply Hnin].
Qed.

Lemma map_set_entries (k : string) (t : Tool) (m : JSMap string Tool) :
  forall entry, In entry (map_set String.eqb k t m) ->
                entry = (k, t) \/ In entry m.
Proof.
  induction m as [|[k0 t0] m IH]; cbn [map_set]; intros entry Hin.
  - destruct Hin as [<-|[]]. now left.
  - destruct (String.eqb_spec k0 k) as [->|Hne].
    + destruct Hin as [<-|Hin]; [now left | right; now right].
    + destruct Hin as [<-|Hin]; [right; now left|].
      destruct (IH _ Hin); [now left | right; now right].
Qed.

Lemma keyed_set (t : Tool) (m : JSMap string Tool) :
  keyed m -> keyed (map_set String.eqb (name t) t m).
Proof.
  intros [Hnd Hall]. split.
  - destruct (map_set_keys (name t) t m) as [[_ ->]|[Hnin ->]]; [exact Hnd|].
    apply NoDup_app; [exact Hnd | repeat constructor; intros [] |].
    intros x Hx [<-|[]]. now apply Hnin.
  - apply Forall_forall. intros entry Hin.
    destruct (map_set_entries _ _ _ _ Hin) as [->|Hin']; [reflexivity|].
    now apply (proj1 (Forall_forall _ _) Hall).
Qed.

Lemma keyed_set_all (l : list Tool) :
  forall m, keyed m -> keyed (set_all l m).
Proof.
  induction l as [|t l IH]; intros m Hm; [exact Hm|].
  apply IH. now apply keyed_set.
Qed.

Lemma keys_kept_set (k k' : string) (t : Tool) (m : JSMap string Tool) :
  In k' (map fst m) -> In k' (map fst (map_set String.eqb k t m)).
Proof.
  intro Hin. destruct (map_set_keys k t m) as [[_ ->]|[_ ->]]; [exact Hin|].
  apply in_or_app. now left.
Qed.

Lemma key_after_set (k : string) (t : Tool) (m : JSMap string Tool) :
  In k (map fst (map_set String.eqb k t m)).
Proof.
  destruct (map_set_keys k t m) as [[Hin ->]|[_ ->]]; [exact Hin|].
  apply in_or_app. right. now left.
Qed.

Lemma keys_kept_set_all (l : list Tool) :
  forall m k, In k (map fst m) -> In k (map fst (set_all l m)).
Proof.
  induction l as [|t l IH]; intros m k Hin; [exact Hin|].
  apply IH. now apply keys_kept_set.
Qed.

Lemma keys_after_set_all (l : list Tool) :
  forall m t, In t l -> In (name t) (map fst (set_all l m)).
Proof.
  induction l as [|t0 l IH]; intros m t Hin; [destruct Hin|].
  destruct Hin as [->|Hin]; cbn [set_all fold_left].
  - apply keys_kept_set_all. apply key_after_set.
  - now apply IH.
Qed.

Lemma keyed_get (m : JSMap string Tool) (k : string) (t : Tool) :
  NoDup (map fst m) -> In (k, t) m -> toolMap_get k m = Some t.
Proof.
  unfold toolMap_get.
  induction m as [|[k0 t0] m IH]; intros Hnd Hin; [destruct Hin|].
  cbn [map fst] in Hnd. inversion Hnd as [|? ? Hnin Hnd']; subst.
  cbn [map_get]. destruct Hin as [[= -> ->]|Hin].
  - now rewrite String.eqb_refl.
  - destruct (String.eqb_spec k0 k) as [->|Hne]; [|now apply IH].
    elim Hnin. now apply (in_map fst _ (k, t)).
Qed.

Lemma keyed_names (m : JSMap string Tool) :
  keyed m ->
  map def_name (map tool_definition (map_values m)) = map fst m.
Proof.
  intros [_ Hall]. unfold map_values. rewrite !map_map.
  apply map_ext_in. intros entry Hin. cbn [tool_definition def_name].
  symmetry. now apply (proj1 (Forall_forall _ _) Hall).
Qed.

(** X11: the tools [execute] offers to the model are the registry: one
    definition per name, every registered name among them, [write_context]
    and [return_output] always, and each definition is the one of the tool
    a call of that name runs. *)
Theorem offered_tools_are_the_registry
        (JSON_parse : Value -> Completion Value)
        (aname adescription : string) (declared : list Tool)
        (provider : ClaudeProvider) (config : option LLMParameters)
        (config_maxRounds : option Z) (context : ExecutionContext)
        (outputSchema : Value) :
  let self := new_ActionImpl JSON_parse aname adescription declared
                             provider config config_maxRounds in
  let returnTool := createReturnTool outputSchema in
  let registry := build_toolMap self context returnTool in
  let names := map def_name (offered (action_params self registry)) in
  NoDup names
  /\ (forall t, In t (registration_order self context returnTool) ->
                In (name t) names)
  /\ In "write_context" names /\ In "return_output" names
  /\ (forall d, In d (offered (action_params self registry)) ->
                exists t, toolMap_get (def_name d) registry = Some t
                          /\ d = tool_definition t).
Proof.
  intros self returnTool registry names.
  assert (Hoff : offered (action_params self registry)
                 = map tool_definition (map_values registry)).
  { unfold offered, action_params, with_tools. now destruct (llmConfig self). }
  assert (Hreg : registry = set_all (registration_order self context returnTool) [])
    by apply build_toolMap_registration.
  assert (Hkeyed : keyed registry).
  { rewrite Hreg. apply keyed_set_all. split; constructor. }
  assert (Hnames : names = map fst registry).
  { unfold names. rewrite Hoff. now apply keyed_names. }
  assert (Hin : forall t, In t (registration_order self context returnTool) ->
                          In (name t) names).
  { intros t Ht. rewrite Hnames, Hreg. now apply keys_after_set_all. }
  split; [rewrite Hnames; exact (proj1 Hkeyed)|].
  split; [exact Hin|].
  split.
  { apply (Hin (WriteContextTool JSON_parse)). unfold registration_order.
    apply in_or_app. left. cbn [self tools new_ActionImpl].
    apply in_or_app. right. now left. }
  split.
  { apply (Hin returnTool). unfold registration_order.
    apply in_or_app. right. apply in_or_app. right. now left. }
  intros d Hd. rewrite Hoff in Hd. unfold map_values in Hd.
  rewrite map_map in Hd. apply in_map_iff in Hd as ([k t] & <- & Hentry).
  exists t. split; [|reflexivity]. cbn [snd tool_definition def_name].
  destruct Hkeyed as [Hnd Hall].
  pose proof (proj1 (Forall_forall _ _) Hall _ Hentry) as Hk. cbn [fst snd] in Hk.
  rewrite <- Hk. now apply keyed_get.
Qed.

(** ** Tool units and rounds, as a whole *)

Section RoundCoverage.
Variable JSON_parse : Value -> Completion Value.
Variable JSON_stringify : Value -> string.
Variable resolves_after : nat -> nat.

Local Abbreviation unit_try := (tool_unit_try JSON_stringify).
Local Abbreviation unit := (tool_unit JSON_stringify).
Local Abbreviation round :=
  (executeSingleRound JSON_parse JSON_stringify resolves_after).

Lemma run_hook_cases hook tool v c :
  (exists e c', run_hook hook tool v c = (Throw e, c'))
  \/ (exists v' c', run_hook hook tool v c = (Normal v', c')).
Proof.
  destruct (run_hook hook tool v c) as [[v'|e] c']; eauto.
Qed.

Lemma unit_try_returns context tool toolCall c m c' :
  unit_try context tool toolCall c = (Normal m, c') ->
  m = skip_result toolCall
  \/ exists result, resultMessage JSON_stringify toolCall result = Normal m.
Proof.
  unfold tool_unit_try, bind, update, get_state, lift, ret.
  destruct (run_hook (hook_of context beforeToolUse) tool (call_input toolCall)
                     (set_skip false c)) as [[input|e] c1]; [|discriminate].
  destruct (__skip c1 || __abort c1).
  - intros [= <- _]. now left.
  - destruct (execute tool input c1) as [[result|e] c2]; [|discriminate].
    destruct (run_hook (hook_of context afterToolUse) tool result c2)
      as [[result'|e] c3]; [|discriminate].
    intros [= H _]. right. eauto.
Qed.

Lemma resultMessage_layout toolCall result m :
  resultMessage JSON_stringify toolCall result = Normal m ->
  exists content is_error,
    m = tool_result_message toolCall content is_error
    /\ ResultLayout JSON_stringify content is_error.
Proof.
  unfold resultMessage.
  destruct (get_prop result "image") as [img|e]; [|discriminate].
  destruct (truthy img) eqn:Himg.
  - destruct (get_prop img "type") as [image_type|e]; [|discriminate].
    destruct (truthy image_type).
    + destruct (get_prop result "text") as [text|e]; [|discriminate].
      destruct (truthy text) eqn:Htext; intros [= <-];
        do 2 eexists; (split; [reflexivity|]); now constructor.
    + intros [= <-]. do 2 eexists. split; [reflexivity | constructor].
  - rewrite Himg. intros [= <-]. do 2 eexists. split; [reflexivity | constructor].
Qed.

(** X12: whatever the tool and the hooks do, a tool unit ends with one
    user message holding one [tool_result] block with the id of the call;
    its content is ['skip'], or a one-text array (the stringified result, or
    the error text with [is_error]), or an array that starts with the image
    and may hold a text after it.  It is never an empty array. *)
Theorem unit_result_layout
        (context : ExecutionContext) (tool : Tool) (toolCall : ToolCall)
        (c : ContextState) :
  exists content is_error,
    fst (unit context tool toolCall c)
    = mkMessage user (CArray [tool_result (call_id toolCall) content is_error])
    /\ ResultLayout JSON_stringify content is_error
    /\ content <> TRArray [].
Proof.
  assert (H : exists content is_error,
             fst (unit context tool toolCall c)
             = tool_result_message toolCall content is_error
             /\ ResultLayout JSON_stringify content is_error).
  { unfold tool_unit.
    destruct (unit_try context tool toolCall c) as [[m|err] c'] eqn:E.
    - destruct (@unit_try_returns _ _ _ _ _ _ E) as [->|[result Hr]].
      + do 2 eexists. split; [reflexivity | constructor].
      + exact (@resultMessage_layout _ _ _ Hr).
    - do 2 eexists. split; [reflexivity | constructor]. }
  destruct H as (content & is_error & Hm & Hl).
  exists content, is_error. split; [exact Hm|]. split; [exact Hl|].
  destruct Hl; discriminate.
Qed.

(** X13: a tool that comes back with [undefined] or [null] (and no hook
    replaces it) did not throw, yet its unit reports an error: reading
    [result.image] throws the TypeError the [catch] turns into the result. *)
Theorem empty_result_is_reported_as_error
        (context : ExecutionContext) (tool : Tool) (toolCall : ToolCall)
        (c c1 c2 c3 : ContextState) (input result final : Value) :
  run_hook (hook_of context beforeToolUse) tool (call_input toolCall)
           (set_skip false c) = (Normal input, c1) ->
  __skip c1 || __abort c1 = false ->
  execute tool input c1 = (Normal result, c2) ->
  run_hook (hook_of context afterToolUse) tool result c2 = (Normal final, c3) ->
  final = VUndefined \/ final = VNull ->
  unit context tool toolCall c
  = (mkMessage user
       (CArray
          [tool_result (call_id toolCall)
             (TRArray
                [tr_text
                   (VString
                      ("Error: Cannot read properties of "
                       ++ match final with VNull => "null" | _ => "undefined" end
                       ++ " (reading 'image')")%string)])
             (Some true)]),
     c3).
Proof.
  intros Hb Hs Hx Ha Hf.
  unfold tool_unit, tool_unit_try, bind, update, get_state, lift, ret.
  rewrite Hb, Hs, Hx, Ha.
  destruct Hf as [-> | ->]; reflexivity.
Qed.

(** *** A round on an aborted context *)









(** *** The assistant text of a round *)



(** *** Streams with several tool calls *)

Lemma registered_calls_app toolMap a b :
  registered_calls toolMap (a ++ b)
  = registered_calls toolMap a ++ registered_calls toolMap b.
Proof.
  unfold registered_calls. now rewrite tool_calls_of_app, flat_map_app.
Qed.

Lemma rejected_calls_app toolMap a b :
  rejected_calls toolMap (a ++ b)
  = rejected_calls toolMap a ++ rejected_calls toolMap b.
Proof.
  unfold rejected_calls. now rewrite tool_calls_of_app, flat_map_app.
Qed.

Lemma last_tool_use_app a b default :
  last_tool_use (a ++ b) default = last_tool_use b (last_tool_use a default).
Proof.
  unfold last_tool_use. rewrite rev_app_distr.
  destruct (rev b); [reflexivity|reflexivity].
Qed.

Lemma booked_refl toolMap s : booked toolMap [] s s.
Proof.
  unfold booked. cbn. rewrite Nat.add_0_r, app_nil_r. auto.
Qed.

Lemma booked_trans toolMap a b s1 s2 s3 :
  booked toolMap a s1 s2 -> booked toolMap b s2 s3 ->
  booked toolMap (a ++ b) s1 s3.
Proof.
  intros (L1 & U1 & M1) (L2 & U2 & M2). unfold booked.
  rewrite registered_calls_app, rejected_calls_app, length_app, last_tool_use_app.
  rewrite L2, L1, U2, U1, M2, M1, app_assoc, Nat.add_assoc. auto.
Qed.

Lemma booked_turn toolMap context r s :
  booked toolMap [] s (turn JSON_stringify context r s).
Proof.
  destruct s as [w rv].
  pose proof (turn_frame JSON_stringify context r w rv) as H. cbv zeta in H.
  destruct H as (_ & _ & Hm & _ & _ & _ & Hl & Hu).
  unfold booked. cbn [fst snd registered_calls rejected_calls tool_calls_of
                        flat_map List.length last_tool_use rev].
  rewrite Hl, Hu, Hm, Nat.add_0_r, app_nil_r. auto.
Qed.

Lemma booked_iter toolMap context r n :
  forall s, booked toolMap [] s (Nat.iter n (turn JSON_stringify context r) s).
Proof.
  induction n as [|n IH]; intro s; [apply booked_refl|].
  rewrite Nat.iter_succ.
  exact (booked_trans (a := []) (b := []) (IH s) (booked_turn toolMap context r _)).
Qed.

Lemma booked_dispatch toolMap r call s :
  booked toolMap [call] s (dispatch resolves_after toolMap r call s).
Proof.
  destruct s as [w rv]. unfold booked, registered_calls, rejected_calls.
  destruct call as [|text|tc|resp|e];
    cbn [dispatch fst snd tool_calls_of flat_map app handler_onContent
           handler_onComplete];
    try (cbn; rewrite Nat.add_0_r, app_nil_r; auto; fail).
  - unfold handler_onContent.
    destruct (has_visible_char text); cbn; rewrite Nat.add_0_r, app_nil_r; auto.
  - unfold handler_onToolUse.
    destruct (toolMap_get (call_name tc) toolMap) as [tool|];
      cbn; rewrite ?Nat.add_0_r, ?app_nil_r, ?Nat.add_1_r; auto.
Qed.

Lemma booked_consume toolMap context r calls :
  forall s,
    booked toolMap calls s
           (consume JSON_stringify resolves_after context toolMap r calls s).
Proof.
  induction calls as [|call rest IH]; intro s; [apply booked_refl|].
  cbn [consume].
  exact (booked_trans (a := [call]) (b := rest)
           (booked_trans (a := []) (b := [call])
              (booked_turn toolMap context r s)
              (booked_dispatch toolMap r call _))
           (IH _)).
Qed.

Lemma booked_join toolMap context r calls w0 :
  booked toolMap calls (w0, initial_vars)
         (stream_then_join JSON_stringify resolves_after context toolMap r
                           calls w0).
Proof.
  unfold stream_then_join.
  pose proof (booked_consume toolMap context r calls (w0, initial_vars)) as H1.
  destruct (consume JSON_stringify resolves_after context toolMap r calls
                    (w0, initial_vars)) as [w1 rv1].
  pose proof (booked_turn toolMap context r (log (StreamSettled r) w1, rv1)) as H2.
  destruct (turn JSON_stringify context r (log (StreamSettled r) w1, rv1))
    as [w2 rv2].
  assert (H12 : booked toolMap calls (w0, initial_vars) (w2, rv2)).
  { rewrite <- (app_nil_r calls). apply (booked_trans H1). exact H2. }
  destruct (toolExecutionPromise rv2) as [p|]; [|exact H12].
  rewrite <- (app_nil_r calls). apply (booked_trans H12).
  unfold await_unit. destruct (pending_wait p (pool (fst (w2, rv2)))).
  - apply booked_iter.
  - apply booked_turn.
Qed.

(** X22: every tool call of the stream is either launched, when the
    registry holds its name, or leaves one rejection nobody handles; this
    holds whether the round returns or throws the abort error. *)
Theorem every_call_is_launched_or_rejected
        (self : ActionImpl) (messages messages' : list Message)
        (params : LLMParameters) (toolMap : JSMap string Tool)
        (context : ExecutionContext) (w w' : World) (calls : list HandlerCall)
        (out : Completion RoundResult) :
  handleHistoryImageMessages messages = Normal messages' ->
  generateStream JSON_parse (llmProvider self) (rounds w) messages' params
  = Normal calls ->
  round self messages params toolMap context w = (out, w') ->
  launched w'
  = (launched w + List.length (registered_calls toolMap calls))%nat
  /\ unhandled w' = unhandled w ++ rejected_calls toolMap calls.
Proof.
  intros Hh Hg. unfold executeSingleRound. rewrite Hh, Hg.
  pose proof (booked_join toolMap context (rounds w) calls (start_round w))
    as (Hl & Hu & _).
  destruct (stream_then_join JSON_stringify resolves_after context toolMap
                             (rounds w) calls (start_round w)) as [w3 rv3].
  cbn [fst snd start_round launched unhandled] in Hl, Hu.
  destruct (__abort (state w3)); intros [= _ <-]; cbn [log launched unhandled];
    auto.
Qed.

(** X23: of the tool calls of one stream, the round records the last
    registered one only: its [tool_use] message is the single one among
    the round's messages, although the tools of the earlier calls were
    launched as well. *)
Theorem only_last_tool_use_is_recorded
        (self : ActionImpl) (messages messages' : list Message)
        (params : LLMParameters) (toolMap : JSMap string Tool)
        (context : ExecutionContext) (w w' : World) (calls : list HandlerCall)
        (res : RoundResult) :
  wf_world w ->
  handleHistoryImageMessages messages = Normal messages' ->
  generateStream JSON_parse (llmProvider self) (rounds w) messages' params
  = Normal calls ->
  round self messages params toolMap context w = (Normal res, w') ->
  filter holds_tool_use (roundMessages res)
  = option_list (last_tool_use (registered_calls toolMap calls) None).
Proof.
  intros Hwf Hh Hg. unfold executeSingleRound. rewrite Hh, Hg.
  pose proof (booked_join toolMap context (rounds w) calls (start_round w))
    as (_ & _ & Hm).
  destruct (stream_then_join JSON_stringify resolves_after context toolMap
                             (rounds w) calls (start_round w))
    as [w3 rv3] eqn:E.
  destruct (@stream_then_join_inv JSON_stringify resolves_after context toolMap
              calls w w3 rv3 Hwf E) as (evs1 & evs2 & I & _).
  cbn [fst snd toolUseMessage initial_vars] in Hm.
  destruct (__abort (state w3)); [discriminate|].
  intros [= <- _]. cbn [roundMessages]. unfold assemble.
  rewrite !filter_app, <- Hm.
  assert (Htext : filter holds_tool_use
                         (if (assistantTextMessage rv3 =? "")%string then []
                          else [mkMessage assistant
                                          (CString (assistantTextMessage rv3))])
                  = []) by (destruct (_ =? _)%string; reflexivity).
  rewrite Htext. cbn [app].
  assert (Hres : filter holds_tool_use (option_list (toolResultMessage rv3)) = []).
  { destruct (toolResultMessage rv3) as [m|] eqn:Er; [|reflexivity].
    destruct (inv_result_shape I Er) as (id & c & e & ->). reflexivity. }
  rewrite Hres, app_nil_r.
  destruct (toolUseMessage rv3) as [m|] eqn:Eu; [|reflexivity].
  destruct (inv_use_shape I Eu) as (id & n & i & ->). reflexivity.
Qed.

End RoundCoverage.

(** ** The action loop, as a whole *)

Lemma all_strings_app a b : all_strings a -> all_strings b -> all_strings (a ++ b).
Proof. intros Ha Hb. apply Forall_app. now split. Qed.

Lemma all_strings_one r s : all_strings [mkMessage r (CString s)].
Proof. repeat constructor. now exists s. Qed.

Lemma system_texts_all_strings messages :
  all_strings messages -> exists texts, system_texts messages = Normal texts.
Proof.
  induction 1 as [|m tl [s Hs] _ [texts IH]]; [now exists []|].
  cbn [system_texts]. rewrite IH. unfold system_text. rewrite Hs.
  destruct (Role_eqb (role m) system); eauto.
Qed.

Section LoopCoverage.
Variable JSON_parse : Value -> Completion Value.
Variable JSON_stringify : Value -> string.
Variable JSON_stringify_indent : Value -> string.
Variable resolves_after : nat -> nat.

Local Abbreviation round := (executeSingleRound JSON_parse JSON_stringify resolves_after).
Local Abbreviation final := (final_round JSON_parse JSON_stringify resolves_after).
Local Abbreviation loop := (rounds_loop JSON_parse JSON_stringify resolves_after).
Local Abbreviation run := (ActionImpl_execute JSON_parse JSON_stringify
                                          JSON_stringify_indent resolves_after).
Local Abbreviation talk := (converse JSON_parse JSON_stringify
                                 JSON_stringify_indent resolves_after).
Local Abbreviation first := (first_messages JSON_stringify JSON_stringify_indent).

Lemma first_messages_all_strings self vars input :
  all_strings (first self vars input).
Proof. repeat constructor; eexists; reflexivity. Qed.

(** X16: when the first answer of the model is text without a tool call,
    [execute] runs exactly one more round: it appends the instruction to
    return, offers [return_output] alone, and leaves the loop whatever that
    round gives. *)
Theorem plain_answer_takes_two_rounds
        (self : ActionImpl) (input : Value) (context : ExecutionContext)
        (outputSchema : Value) (w : World) (calls : list HandlerCall)
        (response : LLMResponse) :
  pool w = [] ->
  __abort (state w) = false ->
  (0 < maxRounds self)%Z ->
  let returnTool := createReturnTool outputSchema in
  let params := action_params self (build_toolMap self context returnTool) in
  generateStream JSON_parse (llmProvider self) (rounds w)
                 (first self (variables (state w)) input) params
  = Normal calls ->
  tool_calls_of calls = [] ->
  round_response calls = Some response ->
  exists w1,
    state w1 = state w /\ rounds w1 = S (rounds w)
    /\ talk self input context outputSchema w
       = Some (final self context params returnTool no_tool_instruction
                     (first self (variables (state w)) input ++ text_part calls)
                     w1)
    /\ forall out w', talk self input context outputSchema w = Some (out, w') ->
                      rounds w' = S (S (rounds w)).
Proof.
  intros Hpool Habort Hmax returnTool params Hg Hcalls Hresp.
  set (toolMap := build_toolMap self context returnTool) in *.
  set (messages := first self (variables (state w)) input) in *.
  assert (Hh : handleHistoryImageMessages messages = Normal messages) by reflexivity.
  destruct (@no_call_round JSON_parse JSON_stringify resolves_after
              self messages messages params toolMap context calls w
              Hpool Hh Hg Hcalls)
    as (w1 & Hround & Hst & _).
  rewrite Habort in Hround.
  pose proof (executeSingleRound_rounds JSON_parse JSON_stringify resolves_after
                self messages params toolMap context w) as Hr.
  rewrite Hround in Hr. cbn [snd] in Hr.
  assert (Htalk : talk self input context outputSchema w
                  = Some (final self context params returnTool no_tool_instruction
                                (messages ++ text_part calls) w1)).
  { unfold converse. fold returnTool. fold toolMap. fold messages. fold params.
    destruct (Z.to_nat (maxRounds self)) as [|fuel] eqn:Hfuel; [lia|].
    cbn [rounds_loop].
    destruct (Z.ltb_spec 0 (maxRounds self)); [|lia].
    rewrite Hround. cbn [result_hasToolUse result_response negb andb].
    rewrite Hresp. reflexivity. }
  exists w1. split; [exact Hst|]. split; [exact Hr|]. split; [exact Htalk|].
  intros out w' H. rewrite Htalk in H.
  pose proof (final_round_rounds JSON_parse JSON_stringify resolves_after
                self context params returnTool no_tool_instruction
                (messages ++ text_part calls) w1) as Hf.
  injection H as H.
  apply (f_equal (fun p => rounds (snd p))) in H. cbn [snd] in H.
  rewrite <- H, <- Hr. exact Hf.
Qed.

(** *** A provider that fails *)

Lemma down_stream provider e n messages params :
  provider_down provider e ->
  all_strings messages ->
  generateStream JSON_parse provider n messages params
  = Normal [onStart; onError e].
Proof.
  intros Hdown Hall. unfold generateStream, stream_request.
  destruct (system_texts_all_strings Hall) as [texts ->].
  cbv zeta. rewrite !Hdown. reflexivity.
Qed.

Lemma down_round self messages params toolMap context w e :
  provider_down (llmProvider self) e ->
  pool w = [] -> __abort (state w) = false ->
  all_strings messages ->
  exists w',
    round self messages params toolMap context w
    = (Normal (mkRoundResult None false [] messages), w')
    /\ state w' = state w /\ pool w' = [] /\ unhandled w' = unhandled w
    /\ rounds w' = S (rounds w).
Proof.
  intros Hdown Hpool Habort Hall.
  destruct (@no_call_round JSON_parse JSON_stringify resolves_after
              self messages messages params toolMap context [onStart; onError e] w
              Hpool (trimming_all_strings Hall)
              (down_stream (rounds w) params Hdown Hall) eq_refl)
    as (w' & Hround & Hst & Hp & Hu).
  rewrite Habort in Hround. exists w'.
  split; [exact Hround|]. split; [exact Hst|]. split; [exact Hp|].
  split; [exact Hu|].
  pose proof (executeSingleRound_rounds JSON_parse JSON_stringify resolves_after
                self messages params toolMap context w) as Hr.
  now rewrite Hround in Hr.
Qed.

Lemma down_loop self context params toolMap returnTool e fuel :
  provider_down (llmProvider self) e ->
  forall roundCount messages w,
    (roundCount < maxRounds self)%Z ->
    (maxRounds self - roundCount <= Z.of_nat fuel)%Z ->
    pool w = [] -> __abort (state w) = false ->
    all_strings messages ->
    exists w',
      loop self context params toolMap returnTool fuel roundCount messages w
      = Some (Normal (messages
                        ++ [mkMessage user (CString max_rounds_instruction)]), w')
      /\ state w' = state w /\ unhandled w' = unhandled w
      /\ rounds w'
         = (rounds w + Z.to_nat (maxRounds self - roundCount) + 1)%nat.
Proof.
  intro Hdown.
  induction fuel as [|fuel IH]; intros roundCount messages w Hlt Hfuel Hpool Habort Hall;
    [lia|].
  cbn [rounds_loop].
  destruct (Z.ltb_spec roundCount (maxRounds self)); [|lia].
  destruct (@down_round self messages params toolMap context w e
                        Hdown Hpool Habort Hall)
    as (w1 & -> & Hst1 & Hp1 & Hu1 & Hr1).
  cbn [result_hasToolUse result_response negb andb history roundMessages
         calls_return_output].
  rewrite app_nil_r.
  destruct (Z.eqb_spec (roundCount + 1) (maxRounds self)) as [Heq|Hne].
  - unfold final_round.
    assert (Hall2 : all_strings
                      (messages ++ [mkMessage user (CString max_rounds_instruction)]))
      by (apply all_strings_app; [exact Hall | apply all_strings_one]).
    assert (Ha1 : __abort (state w1) = false) by now rewrite Hst1.
    destruct (@down_round self
                (messages ++ [mkMessage user (CString max_rounds_instruction)])
                (with_tools (Some params) [tool_definition returnTool])
                [(name returnTool, returnTool)] context w1 e
                Hdown Hp1 Ha1 Hall2)
      as (w2 & -> & Hst2 & Hp2 & Hu2 & Hr2).
    cbn [history roundMessages]. rewrite app_nil_r.
    exists w2. destruct fuel as [|fuel']; cbn [rounds_loop];
      (destruct (Z.ltb_spec (roundCount + 1) (maxRounds self)); [lia|]);
      (split; [reflexivity|]);
      (split; [congruence|]); (split; [congruence|]);
      rewrite Hr2, Hr1; lia.
  - assert (Ha1 : __abort (state w1) = false) by now rewrite Hst1.
    destruct (IH (roundCount + 1)%Z messages w1) as (w' & Hloop & Hst & Hu & Hr);
      try assumption; try lia.
    exists w'. split; [exact Hloop|].
    split; [congruence|]. split; [congruence|].
    rewrite Hr, Hr1. lia.
Qed.

(** X17: when every stream of the provider fails, [execute] does not
    throw: the loop spends its whole budget on rounds that add nothing,
    runs the forced final round, and returns the empty object (or what was
    under the reserved key before), after [maxRounds + 1] rounds. *)
Theorem provider_failure_is_swallowed
        (self : ActionImpl) (input : Value) (context : ExecutionContext)
        (outputSchema : Value) (w : World) (e : Thrown) :
  provider_down (llmProvider self) e ->
  pool w = [] ->
  __abort (state w) = false ->
  (0 < maxRounds self)%Z ->
  exists w',
    run self input context outputSchema w
    = Some (Normal match map_get SameValueZero (VString "__action_output")
                                 (variables (state w)) with
                   | None | Some VUndefined => VObject []
                   | Some v => v
                   end, w')
    /\ rounds w' = (rounds w + Z.to_nat (maxRounds self) + 1)%nat
    /\ unhandled w' = unhandled w.
Proof.
  intros Hdown Hpool Habort Hmax.
  unfold ActionImpl_execute, converse.
  destruct (@down_loop self context
              (action_params self
                 (build_toolMap self context (createReturnTool outputSchema)))
              (build_toolMap self context (createReturnTool outputSchema))
              (createReturnTool outputSchema) e (Z.to_nat (maxRounds self)) Hdown
              0%Z (first self (variables (state w)) input) w)
    as (w1 & -> & Hst & Hu & Hr);
    try assumption; try lia; [apply first_messages_all_strings|].
  unfold take_output, action_output_key. rewrite Hst.
  eexists. split; [reflexivity|].
  cbn [rounds unhandled set_state]. split; [|exact Hu].
  rewrite Hr. rewrite Z.sub_0_r. reflexivity.
Qed.

(** X18: a negative [maxRounds] is kept as given; [execute] then starts no
    round at all, whatever the input, and returns the empty object (or
    what was under the reserved key before). *)
Theorem negative_budget_runs_no_round
        (aname adescription : string) (declared : list Tool)
        (provider : ClaudeProvider) (config : option LLMParameters)
        (n : Z) (input : Value) (context : ExecutionContext)
        (outputSchema : Value) (w : World) :
  (n < 0)%Z ->
  let self := new_ActionImpl JSON_parse aname adescription declared
                             provider config (Some n) in
  talk self input context outputSchema w
  = Some (Normal (first self (variables (state w)) input), w)
  /\ exists w',
      run self input context outputSchema w
      = Some (Normal match map_get SameValueZero (VString "__action_output")
                                   (variables (state w)) with
                     | None | Some VUndefined => VObject []
                     | Some v => v
                     end, w')
      /\ rounds w' = rounds w /\ trace w' = trace w.
Proof.
  intros Hn self.
  assert (Hmax : maxRounds self = n).
  { cbn [self new_ActionImpl maxRounds]. destruct (Z.eqb_spec n 0); [lia|reflexivity]. }
  assert (Htalk : talk self input context outputSchema w
                  = Some (Normal (first self (variables (state w)) input), w)).
  { unfold converse. rewrite Hmax.
    destruct (Z.to_nat n) eqn:Hz; [|lia].
    cbn [rounds_loop]. rewrite Hmax.
    destruct (Z.ltb_spec 0 n); [lia | reflexivity]. }
  split; [exact Htalk|].
  unfold ActionImpl_execute. rewrite Htalk. unfold take_output, action_output_key.
  eexists. split; [reflexivity|]. split; reflexivity.
Qed.

(** X19: an action made by [createPromptAction] has the declared tools
    followed by [write_context] and a budget of ten rounds: [execute]
    returns after at most eleven. *)
Theorem createPromptAction_budget
        (aname adescription : string) (declared : list Tool)
        (provider : ClaudeProvider) (config : option LLMParameters)
        (input : Value) (context : ExecutionContext)
        (outputSchema : Value) (w : World) :
  let self := createPromptAction JSON_parse aname adescription declared
                                 provider config in
  tools self = declared ++ [WriteContextTool JSON_parse]
  /\ maxRounds self = 10%Z
  /\ exists out w',
      run self input context outputSchema w = Some (out, w')
      /\ (rounds w <= rounds w' <= rounds w + 11)%nat.
Proof.
  intro self. split; [reflexivity|]. split; [reflexivity|].
  destruct (converse_total JSON_parse JSON_stringify JSON_stringify_indent
                           resolves_after self input context outputSchema w)
    as (out & w1 & Htalk).
  pose proof Htalk as Hloop. unfold converse in Hloop.
  apply rounds_loop_bound in Hloop. unfold rounds_left in Hloop.
  change (maxRounds self) with 10%Z in Hloop. cbn in Hloop.
  unfold ActionImpl_execute. rewrite Htalk.
  destruct out as [messages|err].
  - unfold take_output. eexists. eexists. split; [reflexivity|].
    cbn [rounds set_state]. lia.
  - eexists. eexists. split; [reflexivity|]. lia.
Qed.

(** *** The head of the conversation *)

Lemma policy_from_app_strings later a b :
  all_strings a -> policy_from later (a ++ b) = a ++ policy_from later b.
Proof.
  induction 1 as [|m l [s Hs] _ IH]; [reflexivity|].
  cbn [app policy_from]. rewrite IH. unfold policy_message. rewrite Hs.
  now destruct (is_user m && (later || existsb is_user (l ++ b))).
Qed.

Lemma round_keeps_head self head rest params toolMap context w res w' :
  all_strings head ->
  round self (head ++ rest) params toolMap context w = (Normal res, w') ->
  exists rest', history res ++ roundMessages res = head ++ rest'.
Proof.
  intros Hall. unfold executeSingleRound. rewrite handleHistoryImageMessages_eq.
  destruct (empty_array_in_earlier_user (head ++ rest)); [discriminate|].
  destruct (generateStream JSON_parse (llmProvider self) (rounds w)
                           (history_policy (head ++ rest)) params)
    as [calls|e]; [|discriminate].
  destruct (stream_then_join JSON_stringify resolves_after context toolMap
                             (rounds w) calls (start_round w)) as [w3 rv3].
  destruct (__abort (state w3)); [discriminate|].
  intros [= <- _]. cbn [history roundMessages]. unfold history_policy.
  rewrite (policy_from_app_strings false rest Hall), <- app_assoc. eauto.
Qed.

Lemma final_keeps_head self context params returnTool instruction head rest w ms w' :
  all_strings head ->
  final self context params returnTool instruction (head ++ rest) w
  = (Normal ms, w') ->
  exists rest', ms = head ++ rest'.
Proof.
  intros Hall. unfold final_round. rewrite <- app_assoc.
  destruct (round self _ _ _ context w) as [[res|e] w1] eqn:E; [|discriminate].
  intros [= <- _]. exact (@round_keeps_head _ _ _ _ _ _ _ _ _ Hall E).
Qed.

Lemma loop_keeps_head self context params toolMap returnTool head fuel :
  all_strings head ->
  forall roundCount rest w ms w',
    loop self context params toolMap returnTool fuel roundCount (head ++ rest) w
    = Some (Normal ms, w') ->
    exists rest', ms = head ++ rest'.
Proof.
  intro Hall.
  induction fuel as [|fuel IH]; intros roundCount rest w ms w' H;
    cbn [rounds_loop] in H;
    destruct (roundCount <? maxRounds self)%Z;
    try discriminate; try (injection H as <- _; now eauto).
  destruct (round self (head ++ rest) params toolMap context w)
    as [[res|e] w1] eqn:E; [|discriminate].
  destruct (@round_keeps_head _ _ _ _ _ _ _ _ _ Hall E) as [rest1 Hrest1].
  rewrite Hrest1 in H.
  destruct (negb (result_hasToolUse res)
            && match result_response res with Some _ => true | None => false end).
  { injection H as H. exact (@final_keeps_head _ _ _ _ _ _ _ _ _ _ Hall H). }
  destruct (calls_return_output (result_response res));
    [injection H as <- _; now eauto|].
  destruct (roundCount + 1 =? maxRounds self)%Z.
  - destruct (final self context params returnTool max_rounds_instruction
                    (head ++ rest1) w1) as [[m2|e] w2] eqn:F; [|discriminate].
    destruct (@final_keeps_head _ _ _ _ _ _ _ _ _ _ Hall F) as [rest2 ->].
    exact (IH _ _ _ _ _ H).
  - exact (IH _ _ _ _ _ H).
Qed.

(** X21: trimming and rounds never touch the head of the conversation:
    what [execute] ends with still starts with the system prompt and the
    user prompt it began with. *)
Theorem conversation_keeps_its_head
        (self : ActionImpl) (input : Value) (context : ExecutionContext)
        (outputSchema : Value) (w w' : World) (messages : list Message) :
  talk self input context outputSchema w = Some (Normal messages, w') ->
  exists rest,
    messages = first self (variables (state w)) input ++ rest.
Proof.
  unfold converse. intro H.
  rewrite <- (app_nil_r (first self (variables (state w)) input)) in H at 1.
  exact (@loop_keeps_head _ _ _ _ _ _ _
           (first_messages_all_strings self (variables (state w)) input)
           _ _ _ _ _ H).
Qed.

End LoopCoverage.

(** * Sample runs of the model *)

(** ** History trimming *)

Lemma history_images_trimmed_witness :
  handleHistoryImageMessages sample_history
  = Normal
      [mkMessage system (CString "be helpful");
       mkMessage user
         (CArray [tool_result "toolu_1" (TRArray [tr_text (VString "first")]) None]);
       mkMessage user (CArray [tool_result "toolu_2" (TRArray []) None]);
       mkMessage user (CString "go on")]
  /\ exists m',
      nth_error
        [mkMessage system (CString "be helpful");
         mkMessage user
           (CArray [tool_result "toolu_1" (TRArray [tr_text (VString "first")]) None]);
         mkMessage user (CArray [tool_result "toolu_2" (TRArray []) None]);
         mkMessage user (CString "go on")] 1 = Some m'
      /\ m' = mkMessage user
                (CArray [tool_result "toolu_1" (TRArray [tr_text (VString "first")]) None])
      /\ text_only_message m' = true.
Proof.
  assert (H : handleHistoryImageMessages sample_history
              = Normal
                  [mkMessage system (CString "be helpful");
                   mkMessage user
                     (CArray [tool_result "toolu_1"
                                (TRArray [tr_text (VString "first")]) None]);
                   mkMessage user (CArray [tool_result "toolu_2" (TRArray []) None]);
                   mkMessage user (CString "go on")])
    by reflexivity.
  split; [exact H|].
  destruct (proj2 (@history_images_trimmed sample_history _ H) 1%nat _ eq_refl)
    as (m' & Hn & Hm).
  exists m'. split; [exact Hn|]. exact Hm.
Defined.

(** The history the previous trimming left makes the next one throw: the
    stripped array is empty. *)
Lemma handleHistoryImageMessages_partial_witness :
  EarlierUserEmptyArray history_with_empty_array
  /\ handleHistoryImageMessages history_with_empty_array
     = Throw (ErrorObject "Cannot read properties of undefined (reading 'type')")
  /\ ~ EarlierUserEmptyArray sample_history
  /\ exists messages', handleHistoryImageMessages sample_history = Normal messages'.
Proof.
  assert (H1 : EarlierUserEmptyArray history_with_empty_array).
  { apply empty_array_in_earlier_user_iff. reflexivity. }
  assert (H2 : ~ EarlierUserEmptyArray sample_history).
  { intro H. apply empty_array_in_earlier_user_iff in H. discriminate H. }
  split; [exact H1|]. split.
  - exact (proj1 (handleHistoryImageMessages_partial history_with_empty_array) H1).
  - split; [exact H2|].
    exact (proj2 (handleHistoryImageMessages_partial sample_history) H2).
Defined.

(** ** Stream normalizer *)


(** A block without fragments carries the empty object. *)
Lemma empty_input_is_empty_object :
  stream_loop JSONRef.parse None (tool_use_block "toolu_1" "screenshot" [])
  = ([onToolUse (mkToolCall "toolu_1" "screenshot" (VObject []))], Normal None).
Proof. reflexivity. Qed.

(** ** Synthetic tools *)

Lemma write_context_stores_witness :
  let c := mkContextState [] false false in
  let store (k v : string) :=
    snd (execute (WriteContextTool JSONRef.parse)
                 (VObject [("key", VString k); ("value", VString v)]) c) in
  map_get SameValueZero (VString "x") (variables (store "x" "42"))
  = Some (VNumber 42)
  /\ map_get SameValueZero (VString "y") (variables (store "y" "not-json"))
     = Some (VString "not-json").
Proof.
  intros c store. split.
  - exact (proj1 (@write_context_stores JSONRef.parse
                    (VObject [("key", VString "x"); ("value", VString "42")])
                    "x" "42" c eq_refl eq_refl)
                 (VNumber 42) eq_refl).
  - exact (proj2 (@write_context_stores JSONRef.parse
                    (VObject [("key", VString "y"); ("value", VString "not-json")])
                    "y" "not-json" c eq_refl eq_refl)
                 (ErrorObject "SyntaxError: not valid JSON") eq_refl).
Defined.

(** C9 as stated fails: a context-supplied tool named [write_context] is the
    one the registry returns, not the synthetic tool. *)
Lemma context_tool_shadows_write_context :
  let registry :=
    build_toolMap (sample_action [] [] None)
                  (mkExecutionContext (Some [impostor]) None)
                  (createReturnTool VUndefined) in
  option_map description (toolMap_get "write_context" registry)
  = Some "supplied by the context"
  /\ option_map description (toolMap_get "write_context" registry)
     <> Some (description (WriteContextTool JSONRef.parse)).
Proof. split; [reflexivity | discriminate]. Qed.

(** ** Rounds *)


(** The scenario of the specification: a tool throws "boom"; the appended
    user message holds a [tool_result] with [is_error] and the text. *)
Lemma tool_error_becomes_result_witness :
  tool_unit_try JSONRef.stringify no_context boom boom_call (state empty_world)
  = (Throw (ErrorObject "boom"), mkContextState [] false false)
  /\ exists res w',
      run_round 1 [calls_boom] [boom] no_context empty_world = (Normal res, w')
      /\ roundMessages res
         = [mkMessage assistant (CArray [tool_use "toolu_1" "boom" (VObject [])]);
            mkMessage user
              (CArray [tool_result "toolu_1"
                         (TRArray [tr_text (VString "Error: boom")]) (Some true)])]
      /\ result_hasToolUse res = true.
Proof.
  split; [reflexivity|].
  destruct (@tool_error_becomes_result
              JSONRef.parse JSONRef.stringify (fun _ => 1%nat)
              (sample_action [calls_boom] [boom] None)
              picture_request picture_request
              (with_tools None (map tool_definition [boom]))
              (set_all [boom] []) no_context _ boom_call boom empty_world
              (ErrorObject "boom") (mkContextState [] false false)
              eq_refl eq_refl eq_refl eq_refl eq_refl eq_refl eq_refl)
    as (w' & Hround & _).
  eexists _, w'. split; [exact Hround|]. split; reflexivity.
Defined.

(** C5 as stated fails: a [beforeToolUse] hook that sets the abort flag and
    throws has its error caught and turned into the [is_error] result, and
    still the round throws and the action fails. *)
Lemma abort_in_hook_fails_round :
  let context := mkExecutionContext None (Some aborting_hooks) in
  tool_unit JSONRef.stringify context screenshot
            (mkToolCall "toolu_1" "screenshot" (VObject [])) (state empty_world)
  = (mkMessage user
       (CArray [tool_result "toolu_1"
                  (TRArray [tr_text (VString "Error: stop")]) (Some true)]),
     mkContextState [] false true)
  /\ fst (run_round 1 [calls_screenshot "toolu_1"] [screenshot] context empty_world)
     = Throw (ErrorObject "Abort")
  /\ option_map fst
       (run_sample 1 [calls_screenshot "toolu_1"; returns_42] [screenshot] None context)
     = Some (Throw (ErrorObject "Abort")).
Proof. repeat split. Qed.

(** With two tool calls in one stream the single [toolResultMessage] keeps
    the result of the unit that resolves last: the error of the first call
    is not among the round's messages. *)
Lemma error_result_overwritten :
  option_map roundMessages
    (match fst (run_round 0 [calls_boom_then_screenshot] [boom; screenshot]
                          no_context empty_world) with
     | Normal res => Some res
     | Throw _ => None
     end)
  = Some
      [mkMessage assistant (CArray [tool_use "toolu_2" "screenshot" (VObject [])]);
       mkMessage user
         (CArray [tool_result "toolu_2"
                    (TRArray [tr_image (VObject [("type", VString "base64");
                                                 ("data", VString "iVBOR")])])
                    None])].
Proof. reflexivity. Qed.

(** C6: the model calls a tool the registry does not hold.  The rejection
    of [onToolUse] stays unhandled, the round returns, and the action goes
    on to a second round and returns its output. *)
Lemma unknown_tool_call_is_not_fatal :
  toolMap_get "click"
    (build_toolMap (sample_action [calls_click; returns_42] [] None) no_context
                   (createReturnTool VUndefined))
  = None
  /\ option_map (fun r => (fst r, rounds (snd r), unhandled (snd r)))
       (run_sample 2 [calls_click; returns_42] [] None no_context)
     = Some (Normal (VNumber 42), 2%nat, [ErrorObject "Tool not found: click"]).
Proof. split; reflexivity. Qed.

(** ** The loop *)


(** The scenario of the specification: the model calls
    [return_output({value: 42})] in round 1; the loop stops after that round
    and the output is 42. *)
Lemma execute_returns_action_output_witness :
  run_sample 2 [returns_42] [] None no_context
  = Some (Normal (VNumber 42), after_returns_42)
  /\ map_get SameValueZero (VString "__action_output")
             (variables (state after_returns_42))
     = None.
Proof.
  assert (H : run_sample 2 [returns_42] [] None no_context
              = Some (Normal (VNumber 42), after_returns_42))
    by (vm_compute; reflexivity).
  split; [exact H|].
  destruct (@execute_returns_action_output
              JSONRef.parse JSONRef.stringify JSONRef.stringify (fun _ => 2%nat)
              (sample_action [returns_42] [] None)
              (VString "compute 2+2") no_context VUndefined empty_world
              after_returns_42 (VNumber 42) H)
    as (messages & w1 & _ & _ & _ & Hget).
  exact Hget.
Defined.

(** The other scenario: plain text "4" and no tool call, then one forced
    round that asks for [return_output]. *)
Lemma plain_answer_forces_return :
  option_map (fun r => (fst r, rounds (snd r)))
    (run_sample 2 [text_stream "4"; returns_42] [] None no_context)
  = Some (Normal (VNumber 42), 2%nat).
Proof. reflexivity. Qed.

(** C2 as stated fails: [write_context] called with the key
    [__action_output] sets the output although [return_output] is never
    called. *)
Lemma write_context_sets_action_output :
  map call_name
      (tool_calls_of (fst (stream_loop JSONRef.parse None
                                       (stream_events writes_reserved_key))))
  = ["write_context"]
  /\ tool_calls_of (fst (stream_loop JSONRef.parse None
                                     (stream_events (text_stream "done"))))
     = []
  /\ option_map (fun r => (fst r, rounds (snd r)))
       (run_sample 2 [writes_reserved_key; text_stream "done"] [] (Some 1%Z)
                   no_context)
     = Some (Normal (VNumber 7), 2%nat)
  /\ VNumber 7 <> VObject [].
Proof. repeat split. discriminate. Qed.

(** Three rounds with a screenshot and no text, and the fourth round
    throws while it trims the history: the array the third round emptied
    has no element 0. *)
Lemma emptied_array_breaks_later_round :
  option_map (fun r => (fst r, rounds (snd r)))
    (run_sample 0 [calls_screenshot "toolu_1"; calls_screenshot "toolu_2";
                   calls_screenshot "toolu_3"; calls_screenshot "toolu_4";
                   returns_42]
                [screenshot] None no_context)
  = Some (Throw (ErrorObject "Cannot read properties of undefined (reading 'type')"),
          4%nat).
Proof. reflexivity. Qed.

(** * Further sample runs *)

(** ** History trimming *)

Lemma trimming_idempotent_witness :
  handleHistoryImageMessages mixed_history = Normal mixed_history_trimmed
  /\ exists twice,
      handleHistoryImageMessages mixed_history_trimmed = Normal twice
      /\ twice = mixed_history_trimmed.
Proof.
  assert (H1 : handleHistoryImageMessages mixed_history
               = Normal mixed_history_trimmed) by reflexivity.
  assert (H2 : handleHistoryImageMessages mixed_history_trimmed
               = Normal mixed_history_trimmed) by reflexivity.
  split; [exact H1|]. exists mixed_history_trimmed. split; [exact H2|].
  exact (@trimming_idempotent mixed_history mixed_history_trimmed
                              mixed_history_trimmed H1 H2).
Defined.

Lemma images_only_result_breaks_next_trimming_witness :
  handleHistoryImageMessages sample_history = Normal sample_history_trimmed
  /\ EarlierUserImagesOnly sample_history
  /\ handleHistoryImageMessages sample_history_trimmed
     = Throw (ErrorObject "Cannot read properties of undefined (reading 'type')").
Proof.
  assert (H1 : handleHistoryImageMessages sample_history
               = Normal sample_history_trimmed) by reflexivity.
  assert (H2 : EarlierUserImagesOnly sample_history).
  { exists 2%nat,
      (mkMessage user
         (CArray [tool_result "toolu_2" (TRArray [tr_image (VString "img2")]) None])),
      [tool_result "toolu_2" (TRArray [tr_image (VString "img2")]) None],
      "toolu_2", (tr_image (VString "img2")), [], None.
    repeat split; try reflexivity. now left. }
  split; [exact H1|]. split; [exact H2|].
  exact (@images_only_result_breaks_next_trimming sample_history
           sample_history_trimmed H1 H2).
Defined.

(** ** Stream normalizer *)

Lemma generateStream_brackets_witness :
  stream_request (scripted [returns_42]) picture_request no_params
  = Normal picture_stream_request
  /\ exists body last,
      generateStream JSONRef.parse (scripted [returns_42]) 0 picture_request
                     no_params
      = Normal (onStart :: body ++ [last])
      /\ forallb is_progress body = true
      /\ is_terminal last = true.
Proof.
  assert (H : stream_request (scripted [returns_42]) picture_request no_params
              = Normal picture_stream_request) by reflexivity.
  split; [exact H|].
  exact (@generateStream_brackets JSONRef.parse (scripted [returns_42]) 0%nat
           picture_request no_params picture_stream_request H).
Defined.

Lemma empty_system_content_throws_witness :
  generateStream JSONRef.parse (scripted [returns_42]) 0
                 (picture_request ++ [empty_system]) no_params
  = Throw (ErrorObject "Cannot read properties of undefined (reading 'text')")
  /\ generateText (fun _ => Normal (mkAnthropicMessage [] None))
                  (scripted [returns_42])
                  (picture_request ++ [empty_system]) no_params
     = Throw (ErrorObject "Cannot read properties of undefined (reading 'text')").
Proof.
  exact (@empty_system_content_throws JSONRef.parse
           (fun _ => Normal (mkAnthropicMessage [] None))
           (scripted [returns_42]) 0%nat
           (picture_request ++ [empty_system]) no_params empty_system
           (or_intror (or_introl eq_refl)) eq_refl eq_refl).
Defined.

Lemma requests_exclude_system_witness :
  stream_request (scripted [returns_42]) sample_history no_params
  = Normal (mkStreamRequest (Some "be helpful") "claude-3-5-sonnet-20241022"
                            4096 None (tl sample_history) None None)
  /\ Forall (fun s => role s <> system) (tl sample_history)
  /\ first_system_text sample_history = Some "be helpful".
Proof.
  assert (H : stream_request (scripted [returns_42]) sample_history no_params
              = Normal (mkStreamRequest (Some "be helpful")
                          "claude-3-5-sonnet-20241022" 4096 None
                          (tl sample_history) None None)) by reflexivity.
  split; [exact H|].
  destruct (@requests_exclude_system (scripted [returns_42]) sample_history
              no_params _ (or_introl H)) as (H1 & _ & H2 & _).
  split; [exact H1 | symmetry; exact H2].
Defined.

(** ** Tool units and rounds *)

(** A tool that returns nothing is reported to the model as failed. *)
Lemma empty_result_is_reported_as_error_witness :
  tool_unit JSONRef.stringify no_context void_tool click_call (state empty_world)
  = (mkMessage user
       (CArray
          [tool_result "toolu_1"
             (TRArray
                [tr_text
                   (VString
                      "Error: Cannot read properties of undefined (reading 'image')")])
             (Some true)]),
     state empty_world).
Proof.
  exact (@empty_result_is_reported_as_error JSONRef.stringify no_context void_tool
           click_call (state empty_world) (state empty_world) (state empty_world)
           (state empty_world) (VObject []) VUndefined VUndefined
           eq_refl eq_refl eq_refl eq_refl (or_introl eq_refl)).
Defined.



(** Two calls in one stream, the first to a tool the registry does not
    hold: one unit is launched and one rejection is left. *)
Local Abbreviation round_with_unknown_call :=
  (executeSingleRound JSONRef.parse JSONRef.stringify (fun _ => 0%nat)
     (sample_action [calls_boom_then_screenshot] [screenshot] None)
     picture_request
     (with_tools None (map tool_definition [screenshot]))
     (set_all [screenshot] []) no_context empty_world).

Lemma every_call_is_launched_or_rejected_witness :
  launched (snd round_with_unknown_call) = 1%nat
  /\ unhandled (snd round_with_unknown_call)
     = [ErrorObject "Tool not found: boom"].
Proof.
  assert (Hg : generateStream JSONRef.parse
                 (llmProvider (sample_action [calls_boom_then_screenshot]
                                             [screenshot] None))
                 (rounds empty_world) picture_request
                 (with_tools None (map tool_definition [screenshot]))
               = Normal boom_then_screenshot_calls)
    by (vm_compute; reflexivity).
  destruct round_with_unknown_call as [out w'] eqn:E.
  exact (@every_call_is_launched_or_rejected
           JSONRef.parse JSONRef.stringify (fun _ => 0%nat)
           (sample_action [calls_boom_then_screenshot] [screenshot] None)
           picture_request picture_request
           (with_tools None (map tool_definition [screenshot]))
           (set_all [screenshot] []) no_context empty_world w'
           boom_then_screenshot_calls out eq_refl Hg E).
Defined.

(** Two calls to registered tools in one stream: both are launched, the
    round records the second only. *)
Local Abbreviation round_with_two_calls :=
  (executeSingleRound JSONRef.parse JSONRef.stringify (fun _ => 0%nat)
     (sample_action [calls_boom_then_screenshot] [boom; screenshot] None)
     picture_request
     (with_tools None (map tool_definition [boom; screenshot]))
     (set_all [boom; screenshot] []) no_context empty_world).

Lemma only_last_tool_use_is_recorded_witness :
  wf_world empty_world
  /\ match round_with_two_calls with
     | (Normal res, w') =>
         filter holds_tool_use (roundMessages res)
         = [mkMessage assistant
                      (CArray [tool_use "toolu_2" "screenshot" (VObject [])])]
         /\ launched w' = 2%nat
     | (Throw _, _) => False
     end.
Proof.
  assert (Hwf : wf_world empty_world) by constructor.
  split; [exact Hwf|].
  assert (Hg : generateStream JSONRef.parse
                 (llmProvider (sample_action [calls_boom_then_screenshot]
                                             [boom; screenshot] None))
                 (rounds empty_world) picture_request
                 (with_tools None (map tool_definition [boom; screenshot]))
               = Normal boom_then_screenshot_calls)
    by (vm_compute; reflexivity).
  destruct round_with_two_calls as [[res|e] w'] eqn:E.
  - split.
    + exact (@only_last_tool_use_is_recorded
               JSONRef.parse JSONRef.stringify (fun _ => 0%nat)
               (sample_action [calls_boom_then_screenshot] [boom; screenshot] None)
               picture_request picture_request
               (with_tools None (map tool_definition [boom; screenshot]))
               (set_all [boom; screenshot] []) no_context empty_world w'
               boom_then_screenshot_calls res Hwf eq_refl Hg E).
    + vm_compute in E. injection E as _ <-. reflexivity.
  - vm_compute in E. discriminate E.
Defined.

(** ** The loop *)

Lemma plain_answer_takes_two_rounds_witness :
  option_map (fun r => rounds (snd r))
    (converse JSONRef.parse JSONRef.stringify JSONRef.stringify (fun _ => 2%nat)
              (sample_action [text_stream "4"; returns_42] [] None)
              (VString "compute 2+2") no_context VUndefined empty_world)
  = Some 2%nat.
Proof.
  destruct (@plain_answer_takes_two_rounds
              JSONRef.parse JSONRef.stringify JSONRef.stringify (fun _ => 2%nat)
              (sample_action [text_stream "4"; returns_42] [] None)
              (VString "compute 2+2") no_context VUndefined empty_world
              answer_4_calls answer_4
              eq_refl eq_refl eq_refl eq_refl eq_refl eq_refl)
    as (w1 & _ & _ & Htalk & Hall).
  destruct (converse JSONRef.parse JSONRef.stringify JSONRef.stringify
                     (fun _ => 2%nat)
                     (sample_action [text_stream "4"; returns_42] [] None)
                     (VString "compute 2+2") no_context VUndefined empty_world)
    as [[out w']|]; [|discriminate Htalk].
  cbn [option_map snd]. now rewrite (Hall out w' eq_refl).
Defined.

(** The vendor is down and the budget is two rounds: three rounds, and the
    empty object comes back. *)
Lemma provider_failure_is_swallowed_witness :
  exists w',
    ActionImpl_execute JSONRef.parse JSONRef.stringify JSONRef.stringify
                       (fun _ => 0%nat) (failing_action (Some 2%Z))
                       (VString "compute 2+2") no_context VUndefined empty_world
    = Some (Normal (VObject []), w')
    /\ rounds w' = 3%nat
    /\ unhandled w' = [].
Proof.
  exact (@provider_failure_is_swallowed
           JSONRef.parse JSONRef.stringify JSONRef.stringify (fun _ => 0%nat)
           (failing_action (Some 2%Z)) (VString "compute 2+2") no_context
           VUndefined empty_world (ErrorObject "overloaded")
           (fun _ _ => eq_refl) eq_refl eq_refl eq_refl).
Defined.

Lemma negative_budget_runs_no_round_witness :
  exists w',
    ActionImpl_execute JSONRef.parse JSONRef.stringify JSONRef.stringify
                       (fun _ => 0%nat)
                       (sample_action [returns_42] [] (Some (-1)%Z))
                       (VString "compute 2+2") no_context VUndefined empty_world
    = Some (Normal (VObject []), w')
    /\ rounds w' = 0%nat /\ trace w' = [].
Proof.
  exact (proj2 (@negative_budget_runs_no_round
                  JSONRef.parse JSONRef.stringify JSONRef.stringify
                  (fun _ => 0%nat) "sample" "do the task" []
                  (scripted [returns_42]) None (-1)%Z
                  (VString "compute 2+2") no_context VUndefined empty_world
                  eq_refl)).
Defined.

Lemma return_output_in_first_round_witness :
  exists w',
    run_sample 2 [returns_42] [] None no_context
    = Some (Normal (VNumber 42), w')
    /\ rounds w' = 1%nat.
Proof.
  exact (@return_output_in_first_round
           JSONRef.parse JSONRef.stringify JSONRef.stringify (fun _ => 2%nat)
           (sample_action [returns_42] [] None) (VString "compute 2+2")
           no_context VUndefined empty_world returns_42_calls return_42_call
           (VNumber 42)
           eq_refl eq_refl eq_refl eq_refl eq_refl eq_refl eq_refl eq_refl
           eq_refl).
Defined.

Lemma conversation_keeps_its_head_witness :
  converse JSONRef.parse JSONRef.stringify JSONRef.stringify (fun _ => 2%nat)
           (sample_action [returns_42] [] None) (VString "compute 2+2")
           no_context VUndefined empty_world
  = Some (Normal conversation_42, before_take_42)
  /\ exists rest,
      conversation_42
      = first_messages JSONRef.stringify JSONRef.stringify
                       (sample_action [returns_42] [] None) []
                       (VString "compute 2+2") ++ rest.
Proof.
  assert (H : converse JSONRef.parse JSONRef.stringify JSONRef.stringify
                       (fun _ => 2%nat) (sample_action [returns_42] [] None)
                       (VString "compute 2+2") no_context VUndefined empty_world
              = Some (Normal conversation_42, before_take_42))
    by (vm_compute; reflexivity).
  split; [exact H|].
  exact (@conversation_keeps_its_head
           JSONRef.parse JSONRef.stringify JSONRef.stringify (fun _ => 2%nat)
           (sample_action [returns_42] [] None) (VString "compute 2+2")
           no_context VUndefined empty_world before_take_42 conversation_42 H).
Defined.
